(** * Task-lifecycle orchestrator ([task_processor.py]): a shallow embedding

    The development follows the layout of [task_processor.py]:
    Python strings and the library calls the module relies on, the vault as
    a file tree, the file movement helpers, the frontmatter parser, the
    action executors, the three event handlers, the backlog sweep and
    [main].  Theorems about each part come after all definitions. *)

From Stdlib Require Import String Ascii.
From stdpp Require Import gmap list sorting lexico pretty.

Local Open Scope N_scope.

(* ================================================================== *)
(** * Python [str]                                                     *)
(* ================================================================== *)

(** A Python [str] is a sequence of Unicode code points. *)
Abbreviation str := (list N).

(** [py "abc"] is the [str] spelled by an ASCII literal. *)
Definition py (s : string) : str := N_of_ascii <$> list_ascii_of_string s.

Definition NL : N := 10.
Definition CR : N := 13.
Definition COLON : N := 58.
Definition HASH : N := 35.
Definition AT : N := 64.
Definition DOT : N := 46.
Definition DQUOTE : N := 34.
Definition SQUOTE : N := 39.

(** [str.isspace] on one code point, which is also what [\s] matches in a
    [str] pattern. *)
Definition is_space (c : N) : bool :=
  ((9 <=? c) && (c <=? 13)) || ((28 <=? c) && (c <=? 32))
  || (c =? 133) || (c =? 160) || (c =? 5760)
  || ((8192 <=? c) && (c <=? 8202))
  || (c =? 8232) || (c =? 8233) || (c =? 8239) || (c =? 8287) || (c =? 12288).

(** Line boundaries of [str.splitlines]. *)
Definition is_linebreak (c : N) : bool :=
  ((10 <=? c) && (c <=? 13)) || ((28 <=? c) && (c <=? 30))
  || (c =? 133) || (c =? 8232) || (c =? 8233).

Fixpoint lstrip (s : str) : str :=
  match s with
  | c :: s' => if is_space c then lstrip s' else s
  | [] => []
  end.

Definition rstrip (s : str) : str := reverse (lstrip (reverse s)).

(** [s.strip()] *)
Definition strip (s : str) : str := rstrip (lstrip s).

(** [s.splitlines()]: no line ends are kept, a carriage return followed by
    a line feed is one boundary, and a final boundary opens no new line. *)
Fixpoint splitlines (s : str) : list str :=
  match s with
  | [] => []
  | c :: s' =>
      if is_linebreak c then
        match s' with
        | d :: s'' => if (c =? CR) && (d =? NL) then [] :: splitlines s''
                      else [] :: splitlines s'
        | [] => [[]]
        end
      else
        match splitlines s' with
        | [] => [[c]]
        | l :: ls => (c :: l) :: ls
        end
  end.

(** [s.find(c)] for a single character: [None] stands for [-1]. *)
Fixpoint find_char (c : N) (s : str) : option nat :=
  match s with
  | [] => None
  | d :: s' => if d =? c then Some O else S <$> find_char c s'
  end.

(** [sub in s] *)
Fixpoint startswith (pre s : str) : bool :=
  match pre, s with
  | [], _ => true
  | c :: pre', d :: s' => (c =? d) && startswith pre' s'
  | _ :: _, [] => false
  end.

Fixpoint contains (sub s : str) : bool :=
  startswith sub s ||
  match s with
  | [] => false
  | _ :: s' => contains sub s'
  end.

(** [s.rfind(c)]: the index of the last occurrence. *)
Fixpoint rfind_char (c : N) (s : str) : option nat :=
  match s with
  | [] => None
  | d :: s' =>
      match rfind_char c s' with
      | Some i => Some (S i)
      | None => if d =? c then Some O else None
      end
  end.

(** [sep.join(parts)] *)
Fixpoint join (sep : str) (parts : list str) : str :=
  match parts with
  | [] => []
  | [p] => p
  | p :: ps => p ++ sep ++ join sep ps
  end.

(** [str(n)] for a non-negative integer. *)
Definition str_of_nat (n : nat) : str := py (pretty n).

(* ================================================================== *)
(** * The regular expression of [parse_frontmatter]                    *)
(* ================================================================== *)

(** [re.match] explores the pattern left to right and backtracks; each
    combinator below takes the rest of the pattern as a continuation and
    returns the first success in that order. *)
Module Re.
Section Combinators.
Context {A : Type}.

(** A literal. *)
Fixpoint lit (l : str) (k : str -> option A) (s : str) : option A :=
  match l with
  | [] => k s
  | c :: l' =>
      match s with
      | d :: s' => if c =? d then lit l' k s' else None
      | [] => None
      end
  end.

(** [x*]: the longest run first, then shorter ones.  The continuation
    receives the text matched and the text left. *)
Fixpoint greedy (p : N -> bool) (k : str -> str -> option A) (s : str)
  : option A :=
  match s with
  | c :: s' =>
      if p c then
        match greedy p (fun m r => k (c :: m) r) s' with
        | Some a => Some a
        | None => k [] s
        end
      else k [] s
  | [] => k [] s
  end.

(** [x*?]: the shortest run first, then longer ones. *)
Fixpoint lazy (p : N -> bool) (k : str -> str -> option A) (s : str)
  : option A :=
  match k [] s with
  | Some a => Some a
  | None =>
      match s with
      | c :: s' => if p c then lazy p (fun m r => k (c :: m) r) s' else None
      | [] => None
      end
  end.

(** [c?]: with the character first, then without. *)
Definition opt (c : N) (k : str -> option A) (s : str) : option A :=
  match s with
  | d :: s' =>
      if d =? c then
        match k s' with
        | Some a => Some a
        | None => k s
        end
      else k s
  | [] => k s
  end.
End Combinators.

(** [.] under [re.DOTALL]. *)
Definition any (c : N) : bool := true.

(** The pattern of [parse_frontmatter], matched with [re.match] under
  [re.DOTALL]: three hyphens, a greedy run of white space, a line feed,
  a lazy first group of any characters, a line feed and three hyphens, a
  greedy run of white space, an optional line feed, and a greedy second
  group of any characters.  The result is the two groups, or [None]. *)
Definition frontmatter (text : str) : option (str * str) :=
lit (py "---")
  (greedy is_space (fun _ =>
    lit [NL]
      (lazy any (fun g1 =>
        lit (NL :: py "---")
          (greedy is_space (fun _ =>
            opt NL
              (greedy any (fun g2 _ => Some (g1, g2)))))))))
  text.
End Re.

(* ================================================================== *)
(** * Frontmatter parser, on the text of a document                    *)
(* ================================================================== *)

Definition BODY_KEY : str := py "__body__".

(** [value[1:-1]] when [value] has at least two characters and starts and
    ends with the same quote character. *)
Definition unquote (value : str) : str :=
  match value with
  | c :: rest =>
      match reverse rest with
      | d :: mid =>
          if (c =? d) && ((c =? DQUOTE) || (c =? SQUOTE)) then reverse mid
          else value
      | [] => value
      end
  | [] => value
  end.

(** What one line of the header block contributes: nothing for a blank
    line, a comment or a line without a colon, else a key and a value. *)
Definition header_entry (line : str) : option (str * str) :=
  let line := strip line in
  match line with
  | [] => None
  | c :: _ =>
      if c =? HASH then None
      else
        match find_char COLON line with
        | None => None
        | Some colon_idx =>
            let key := strip (take colon_idx line) in
            let value := strip (drop (S colon_idx) line) in
            Some (key, unquote value)
        end
  end.

(** One turn of the loop over the lines of the header block. *)
Definition header_line (meta : gmap str str) (line : str) : gmap str str :=
  match header_entry line with
  | None => meta
  | Some (key, value) => <[key := value]> meta
  end.

(** [parse_frontmatter] after the file has been read. *)
Definition parse_text (text : str) : gmap str str :=
  match Re.frontmatter text with
  | None => {[ BODY_KEY := text ]}
  | Some (yaml_block, body) =>
      foldl header_line {[ BODY_KEY := strip body ]} (splitlines yaml_block)
  end.

(* ================================================================== *)
(** * The vault: a file tree                                            *)
(* ================================================================== *)

(** A [pathlib.Path] below the vault root, as its components; the last one
    is [Path.name].  [[]] is the vault root itself. *)
Abbreviation Path := (list str).

(** What [read_text(encoding=utf-8)] finds in a file: text, or bytes that
    are not valid UTF-8. *)
Inductive content :=
  | Text (s : str)
  | Undecodable.

Inductive node :=
  | File (c : content)
  | Dir.

Abbreviation fs := (gmap Path node).

Inductive exn :=
  | FileNotFoundError
  | FileExistsError
  | IsADirectoryError
  | NotADirectoryError
  | UnicodeDecodeError
  | ShutilError
  | LoopBound.

Global Instance content_eq_dec : EqDecision content.
Proof. solve_decision. Defined.
Global Instance node_eq_dec : EqDecision node.
Proof. solve_decision. Defined.
Global Instance exn_eq_dec : EqDecision exn.
Proof. solve_decision. Defined.

(** [p / name] *)
Definition child (p : Path) (name : str) : Path := p ++ [name].
Infix "//" := child (at level 40, left associativity).

(** [p.name] and [p.parent] *)
Definition name (p : Path) : str := default [] (last p).
Definition parent (p : Path) : Path := take (pred (length p)) p.

(** [p.suffix] and [p.stem]: the name is cut at its last dot unless that
    dot is the first or the last character. *)
Definition suffix_idx (nm : str) : option nat :=
  match rfind_char DOT nm with
  | Some i => if bool_decide (0 < i < pred (length nm))%nat then Some i else None
  | None => None
  end.

Definition suffix (p : Path) : str :=
  match suffix_idx (name p) with
  | Some i => drop i (name p)
  | None => []
  end.

Definition stem (p : Path) : str :=
  match suffix_idx (name p) with
  | Some i => take i (name p)
  | None => name p
  end.

(** [p.exists()] and [p.is_dir()] *)
Definition exists_ (f : fs) (p : Path) : bool :=
  match p with
  | [] => true
  | _ => bool_decide (is_Some (f !! p))
  end.

Definition is_dir (f : fs) (p : Path) : bool :=
  match p with
  | [] => true
  | _ => bool_decide (f !! p = Some Dir)
  end.

(** [d.mkdir(parents=True, exist_ok=True)]: every missing directory on the
    way down is created; a regular file on the way is an error. *)
Fixpoint mkdir_from (done todo : Path) (f : fs) : exn + fs :=
  match todo with
  | [] => inr f
  | c :: todo' =>
      let p := done // c in
      match f !! p with
      | Some (File _) =>
          match todo' with
          | [] => inl FileExistsError
          | _ => inl NotADirectoryError
          end
      | Some Dir => mkdir_from p todo' f
      | None => mkdir_from p todo' (<[p := Dir]> f)
      end
  end.

Definition mkdir_p (d : Path) (f : fs) : exn + fs := mkdir_from [] d f.

(** Newline translation of a file opened in text mode for reading. *)
Fixpoint universal_newlines (s : str) : str :=
  match s with
  | [] => []
  | c :: s' =>
      if c =? CR then
        match s' with
        | d :: s'' => if d =? NL then NL :: universal_newlines s''
                      else NL :: universal_newlines s'
        | [] => [NL]
        end
      else c :: universal_newlines s'
  end.

(** [p.read_text(encoding=utf-8)] *)
Definition read_text (p : Path) (f : fs) : exn + str :=
  match f !! p with
  | Some (File (Text s)) => inr (universal_newlines s)
  | Some (File Undecodable) => inl UnicodeDecodeError
  | Some Dir => inl IsADirectoryError
  | None => inl FileNotFoundError
  end.

(** [p.write_text(s, encoding=utf-8)]: creates or replaces the file. *)
Definition write_text (p : Path) (s : str) (f : fs) : exn + fs :=
  if negb (is_dir f (parent p)) then inl FileNotFoundError
  else
    match f !! p with
    | Some Dir => inl IsADirectoryError
    | _ => inr (<[p := File (Text s)]> f)
    end.

(** [os.rename] of a directory: the whole subtree changes place. *)
Definition rename_tree (src dst : Path) (f : fs) : fs :=
  kmap (fun p => dst ++ drop (length src) p)
       (filter (fun e => src `prefix_of` e.1) f)
  ∪ filter (fun e => ¬ src `prefix_of` e.1) f.

(** [shutil.move(src, dst)].  An existing directory [dst] receives the
    source under its own name; an existing regular file [dst] is
    replaced. *)
Definition shutil_move (src dst : Path) (f : fs) : exn + fs :=
  let real_dst := if is_dir f dst then dst // name src else dst in
  if is_dir f dst && exists_ f real_dst then inl ShutilError
  else if negb (is_dir f (parent real_dst)) then inl FileNotFoundError
  else
    match f !! src with
    | None => inl FileNotFoundError
    | Some (File c) => inr (<[real_dst := File c]> (delete src f))
    | Some Dir =>
        match f !! real_dst with
        | Some (File _) => inl NotADirectoryError
        | _ => inr (rename_tree src real_dst f)
        end
    end.

(** [sorted(d.glob(pattern))] for the pattern [*.md]: the entries of [d]
    whose name ends in [.md], in ascending order of their paths. *)
Definition endswith (suf s : str) : bool :=
  startswith (reverse suf) (reverse s).

Definition path_le (p q : Path) : Prop := p = q ∨ lexico p q.

Global Instance path_le_dec : RelDecision path_le.
Proof.
  intros p q. unfold path_le.
  destruct (trichotomyT lexico p q) as [[?|?]|?].
  - left; by right.
  - left; by left.
  - right. intros [->|Hlt].
    + by apply (irreflexivity (lexico : relation Path) q).
    + apply (irreflexivity (lexico : relation Path) q). by trans p.
Defined.

Definition glob_md (d : Path) (f : fs) : list Path :=
  filter (fun p => parent p = d ∧ p ≠ [] ∧ endswith (py ".md") (name p) = true)
         (map_to_list f).*1.

Definition sorted_glob_md (d : Path) (f : fs) : list Path :=
  merge_sort path_le (glob_md d f).

(* ================================================================== *)
(** * The world of the orchestrator and its effects                     *)
(* ================================================================== *)

(** A [datetime], by the three renderings the module makes of it. *)
Record datetime := {
  stamp : str;   (* strftime with %Y%m%d_%H%M%S *)
  iso : str;     (* isoformat() *)
  human : str    (* strftime with %Y-%m-%d %H:%M:%S *)
}.

(** The JSON payload posted to the email server, with the address it is
    posted to. *)
Record request := {
  req_url : str;
  req_to : str;
  req_subject : str;
  req_body : str;
  req_threadId : option str
}.

(** What [urllib.request.urlopen] and the decoding of its answer come to. *)
Inductive http_outcome :=
  | Response (success : bool) (messageId error : option str)
  | HTTPError (code : nat) (error_body reason : str)
  | URLError (reason : str)
  | OtherError.

(** Records of the module logger; only those the theorems observe are
    kept. *)
Inductive logrec :=
  | LogNewTask (nm : str)
  | LogVanished (nm : str)
  | LogMoved (nm : str) (dest : Path)
  | LogMovedFailed (dest : Path)
  | LogRemains (nm : str)
  | LogApprovalReceived (nm : str)
  | LogApprovedVanished (nm : str)
  | LogParseFailed (nm : str)
  | LogNoActionType (nm : str)
  | LogUnknownAction (action_type nm : str)
  | LogMissingFields (missing : list str) (nm : str)
  | LogInvalidAddress (to nm : str)
  | LogRefuseNonLocal
  | LogDryRunPost (r : request)
  | LogNotImplemented (action_type nm : str)
  | LogStaysForRetry
  | LogRejection (nm : str)
  | LogNoBacklog
  | LogBacklog (n : nat).

Record world := {
  files : fs;
  sent : list request;   (* requests issued to the network, latest first *)
  ticks : nat;           (* readings of the clock so far *)
  log : list logrec      (* latest first *)
}.

Definition set_files (f : fs) (w : world) : world :=
  {| files := f; sent := sent w; ticks := ticks w; log := log w |}.

(** Code that runs in the world either returns or raises; the world it
    leaves is known in both cases. *)
Inductive outcome (A : Type) :=
  | Ok (a : A) (w : world)
  | Raise (e : exn) (w : world).
Arguments Ok {A} a w.
Arguments Raise {A} e w.

Definition M (A : Type) : Type := world -> outcome A.

Definition ret {A} (a : A) : M A := fun w => Ok a w.

Definition bind {A B} (m : M A) (k : A -> M B) : M B :=
  fun w =>
    match m w with
    | Ok a w' => k a w'
    | Raise e w' => Raise e w'
    end.

Notation "'do' x <- m ; k" := (bind m (fun x => k))
  (at level 10, x name, m at level 100, k at level 200).

Definition raise {A} (e : exn) : M A := fun w => Raise e w.

Definition world_of {A} (o : outcome A) : world :=
  match o with
  | Ok _ w => w
  | Raise _ w => w
  end.

(** [try: m except Exception: h] *)
Definition try_except {A} (m : M A) (h : M A) : M A :=
  fun w =>
    match m w with
    | Ok a w' => Ok a w'
    | Raise _ w' => h w'
    end.

Definition get_files : M fs := fun w => Ok (files w) w.

Definition lift_fs (op : fs -> exn + fs) : M unit :=
  fun w =>
    match op (files w) with
    | inr f => Ok tt (set_files f w)
    | inl e => Raise e w
    end.

Definition logger (r : logrec) : M unit :=
  fun w =>
    Ok tt {| files := files w; sent := sent w; ticks := ticks w;
             log := r :: log w |}.

Definition post (r : request) : M unit :=
  fun w =>
    Ok tt {| files := files w; sent := r :: sent w; ticks := ticks w;
             log := log w |}.

(** The stage folders, [folders[name]] after [ensure_folders]. *)
Definition folder (nm : string) : Path := [py nm].

Definition folder_names : list string :=
  [ "Needs_Action"; "In_Progress"; "Plans"; "Done"; "Pending_Approval";
    "Approved"; "Rejected"; "Accounting"; "Logs"; "Briefings"; "Updates" ]%string.

Definition ensure_folders : M unit :=
  foldr (fun nm k => do _ <- lift_fs (mkdir_p (folder nm)); k) (ret tt)
        folder_names.

(** [meta.get(key, default)] *)
Definition get (meta : gmap str str) (key : string) (dflt : str) : str :=
  default dflt (meta !! py key).

(** Lines of a document written by the module. *)
Definition lines (ls : list (list str)) : str :=
  concat ((fun l => concat l ++ [NL]) <$> ls).

Definition MCP_EMAIL_URL : str := py "http://127.0.0.1:3000/send-email".

Section Orchestrator.

(** What the module takes from outside: [str.lower], the wall clock (the
    value of the n-th call of [datetime.now]), the [claude] subprocess
    (the vault it leaves and whether it exited with status zero in
    time), the email server reached through [urlopen], and the value of
    the constant [MCP_EMAIL_URL]. *)
Variable lower : str -> str.
Variable now : nat -> datetime.
Variable claude : Path -> fs -> fs * bool.
Variable urlopen : request -> http_outcome.
Variable mcp_email_url : str.

Definition datetime_now : M datetime :=
  fun w =>
    Ok (now (ticks w))
       {| files := files w; sent := sent w; ticks := S (ticks w);
          log := log w |}.

(* ---------------------------------------------------------------- *)
(** ** Claude Code invocation                                        *)
(* ---------------------------------------------------------------- *)

(** Every way the subprocess can fail gives [False]; the clock is read
    once for the prompt. *)
Definition invoke_claude (task_file : Path) (dry_run : bool) : M bool :=
  do _ <- datetime_now;
  if dry_run then ret true
  else fun w =>
    let '(f, ok) := claude task_file (files w) in
    Ok ok (set_files f w).

(* ---------------------------------------------------------------- *)
(** ** File movement helpers                                         *)
(* ---------------------------------------------------------------- *)

(** The [while dest.exists()] loop of [move_file], with a bound on the
    number of turns. *)
Fixpoint free_dest (fuel : nat) (f : fs) (src dest_dir dest : Path)
    (counter : nat) : option Path :=
  match fuel with
  | O => None
  | S fuel' =>
      if exists_ f dest then
        free_dest fuel' f src dest_dir
          (dest_dir // (stem src ++ py "_" ++ str_of_nat counter ++ suffix src))
          (S counter)
      else Some dest
  end.

Definition move_file (src dest_dir : Path) (prefix : str) : M Path :=
  do _ <- lift_fs (mkdir_p dest_dir);
  let new_name := prefix ++ name src in
  let dest := dest_dir // new_name in
  do f <- get_files;
  match free_dest (S (S (size f))) f src dest_dir dest 1 with
  | None => raise LoopBound
  | Some dest =>
      do _ <- lift_fs (shutil_move src dest);
      do _ <- logger (LogMoved (name src) dest);
      ret dest
  end.

Definition move_to_error (task_file logs_dir : Path) : M Path :=
  do ts <- datetime_now;
  let error_dir := logs_dir // (py "Error_" ++ stamp ts) in
  do _ <- lift_fs (mkdir_p error_dir);
  let dest := error_dir // name task_file in
  do _ <- lift_fs (shutil_move task_file dest);
  do _ <- logger (LogMovedFailed dest);
  ret dest.

(* ---------------------------------------------------------------- *)
(** ** Frontmatter parser                                            *)
(* ---------------------------------------------------------------- *)

Definition parse_frontmatter (file_path : Path) : M (gmap str str) :=
  fun w =>
    match read_text file_path (files w) with
    | inr text => Ok (parse_text text) w
    | inl e => Raise e w
    end.

(* ---------------------------------------------------------------- *)
(** ** Action executors                                              *)
(* ---------------------------------------------------------------- *)

Definition SUCCESS : str := py "SUCCESS".
Definition FAILED : str := py "FAILED".

(** [tag.replace(_, space).title()] for the two tags there are. *)
Definition title_of_tag (success : bool) : str :=
  if success then py "Action Success" else py "Action Failed".

Definition _log_action_result (source_file : Path)
    (result action_type details : str) : M Path :=
  do ts <- datetime_now;
  let ok := bool_decide (result = SUCCESS) in
  let tag := if ok then py "ACTION_SUCCESS" else py "ACTION_FAILED" in
  let text := lines [
    [py "---"];
    [py "type: action_log"];
    [py "result: "; lower result];
    [py "action_type: "; action_type];
    [py "source_file: "; [DQUOTE]; name source_file; [DQUOTE]];
    [py "executed_at: "; iso ts];
    [py "---"];
    [];
    [py "## "; title_of_tag ok];
    [];
    [py "**Action:** "; action_type];
    [py "**Source:** "; name source_file];
    [py "**Time:** "; human ts];
    [py "**Details:** "; details] ] in
  let log_file :=
    folder "Logs" // (tag ++ py "_" ++ stamp ts ++ py "_"
                      ++ stem source_file ++ py ".md") in
  do _ <- lift_fs (write_text log_file text);
  ret log_file.

Definition nonempty (s : str) : bool :=
  match s with
  | [] => false
  | _ => true
  end.

Definition _action_send_email (approved_file : Path) (meta : gmap str str)
    (dry_run : bool) : M bool :=
  let to := strip (get meta "to" []) in
  let subject := strip (get meta "subject" []) in
  let body :=
    if nonempty (strip (get meta "body" [])) then strip (get meta "body" [])
    else strip (get meta "__body__" []) in
  let missing :=
    (if nonempty to then [] else [py "to"])
    ++ (if nonempty subject then [] else [py "subject"])
    ++ (if nonempty body then [] else [py "body"]) in
  match missing with
  | _ :: _ =>
      do _ <- logger (LogMissingFields missing (name approved_file));
      ret false
  | [] =>
      if negb (contains [AT] to) then
        do _ <- logger (LogInvalidAddress to (name approved_file));
        ret false
      else if negb (contains (py "127.0.0.1") mcp_email_url)
              && negb (contains (py "localhost") mcp_email_url) then
        do _ <- logger LogRefuseNonLocal;
        ret false
      else
        let thread_id := strip (get meta "threadId" []) in
        let payload :=
          {| req_url := mcp_email_url; req_to := to;
             req_subject := subject; req_body := body;
             req_threadId :=
               if nonempty thread_id then Some thread_id else None |} in
        if dry_run then
          do _ <- logger (LogDryRunPost payload);
          ret true
        else
          let unexpected :=
            do _ <- _log_action_result approved_file FAILED (py "send_email")
                      (py "Unexpected error " ++ [8212]
                       ++ py " see processor logs");
            ret false in
          do _ <- post payload;
          match urlopen payload with
          | Response ok messageId error =>
              try_except
                (if ok then
                   do _ <- _log_action_result approved_file SUCCESS
                             (py "send_email")
                             (py "Email sent to " ++ to ++ py " (messageId="
                              ++ default (py "unknown") messageId ++ py ")");
                   ret true
                 else
                   do _ <- _log_action_result approved_file FAILED
                             (py "send_email")
                             (py "MCP error: "
                              ++ default (py "Unknown error") error);
                   ret false)
                unexpected
          | HTTPError code error_body reason =>
              do _ <- _log_action_result approved_file FAILED
                        (py "send_email")
                        (py "HTTP " ++ str_of_nat code ++ py ": "
                         ++ (if nonempty error_body then error_body
                             else reason));
              ret false
          | URLError reason =>
              do _ <- _log_action_result approved_file FAILED
                        (py "send_email") (py "Connection failed: " ++ reason);
              ret false
          | OtherError => unexpected
          end
  end.

Definition _action_placeholder (approved_file : Path) (meta : gmap str str)
    (dry_run : bool) : M bool :=
  let action_type := get meta "action_type" (py "unknown") in
  do _ <- logger (LogNotImplemented action_type (name approved_file));
  do ts <- datetime_now;
  let notification := lines [
    [py "---"];
    [py "type: action_not_implemented"];
    [py "original_file: "; [DQUOTE]; name approved_file; [DQUOTE]];
    [py "action_type: "; action_type];
    [py "created: "; iso ts];
    [py "priority: medium"];
    [py "status: pending"];
    [py "---"];
    [];
    [py "## Action Not Yet Implemented"];
    [];
    [py "The action **"; action_type;
     py "** was approved but has no automated handler yet."];
    [py "Please execute manually."];
    [];
    [py "**Original file:** "; name approved_file];
    [];
    [py "## Manual Steps"];
    [];
    [py "- [ ] Perform the '"; action_type; py "' action manually"];
    [py "- [ ] Move original to `Done/` when complete"];
    [py "- [ ] Log outcome in `Logs/`"] ] in
  let notif_file :=
    folder "Needs_Action" // (py "MANUAL_" ++ stamp ts ++ py "_"
                              ++ stem approved_file ++ py ".md") in
  do _ <- lift_fs (write_text notif_file notification);
  ret true.

(** The [dispatch] table of [execute_action]. *)
Definition dispatch : gmap str (Path -> gmap str str -> bool -> M bool) :=
  list_to_map [
    (py "send_email", _action_send_email);
    (py "post_linkedin", _action_placeholder);
    (py "post_twitter", _action_placeholder);
    (py "create_invoice", _action_placeholder);
    (py "schedule_meeting", _action_placeholder) ].

Definition execute_action (approved_file : Path) (meta : gmap str str)
    (dry_run : bool) : M bool :=
  let action_type := lower (strip (get meta "action_type" [])) in
  if negb (nonempty action_type) then
    do _ <- logger (LogNoActionType (name approved_file));
    ret true
  else
    match dispatch !! action_type with
    | None =>
        do _ <- logger (LogUnknownAction action_type (name approved_file));
        ret false
    | Some handler => handler approved_file meta dry_run
    end.

(* ---------------------------------------------------------------- *)
(** ** Event handlers                                                *)
(* ---------------------------------------------------------------- *)

(** The state of a handler object: its flag and its [processing] set. *)
Record handler := {
  dry_run : bool;
  processing : gset str
}.

(** A [FileCreatedEvent] or [DirCreatedEvent]. *)
Record event := {
  src_path : Path;
  is_directory : bool
}.

Definition processing_add (nm : str) (self : handler) : handler :=
  {| dry_run := dry_run self; processing := {[nm]} ∪ processing self |}.

Definition processing_discard (nm : str) (self : handler) : handler :=
  {| dry_run := dry_run self; processing := processing self ∖ {[nm]} |}.

(** [on_created] of [NeedsActionHandler] and of [ApprovalHandler], which
    differ in the method [handle] they call.  The handler object is
    returned as the call leaves it, with what the call came to. *)
Definition on_created (handle : handler -> Path -> M unit)
    (self : handler) (ev : event) (w : world) : handler * outcome unit :=
  if is_directory ev then (self, Ok tt w)
  else
    let src := src_path ev in
    if negb (bool_decide (suffix src = py ".md")) then (self, Ok tt w)
    else if bool_decide (name src ∈ processing self) then (self, Ok tt w)
    else
      let self := processing_add (name src) self in
      (* try: ... finally: *)
      let r := handle self src w in
      (processing_discard (name src) self, r).

Definition _handle_new_task (self : handler) (src : Path) : M unit :=
  do _ <- logger (LogNewTask (name src));
  do f <- get_files;
  if negb (exists_ f src) then logger (LogVanished (name src))
  else
    do in_progress_file <- move_file src (folder "In_Progress") [];
    do success <- invoke_claude in_progress_file (dry_run self);
    do f <- get_files;
    if success then
      if exists_ f in_progress_file then
        logger (LogRemains (name in_progress_file))
      else ret tt
    else
      if exists_ f in_progress_file then
        do _ <- move_to_error in_progress_file (folder "Logs");
        ret tt
      else ret tt.

Definition NeedsActionHandler_on_created := on_created _handle_new_task.

Definition _log_approval (approved_file : Path) : M unit :=
  do ts <- datetime_now;
  let log_entry := lines [
    [py "---"];
    [py "type: approval_log"];
    [py "approved_file: "; [DQUOTE]; name approved_file; [DQUOTE]];
    [py "approved_at: "; iso ts];
    [py "---"];
    [];
    [py "## Approval Received"];
    [];
    [py "**File:** "; name approved_file];
    [py "**Approved at:** "; human ts] ] in
  let log_file :=
    folder "Logs" // (py "APPROVED_" ++ stamp ts ++ py "_"
                      ++ stem approved_file ++ py ".md") in
  lift_fs (write_text log_file log_entry).

Definition _create_failure_notification (approved_file : Path)
    (meta : gmap str str) : M unit :=
  do ts <- datetime_now;
  let action_type := get meta "action_type" (py "unknown") in
  let notification := lines [
    [py "---"];
    [py "type: action_failure_alert"];
    [py "original_file: "; [DQUOTE]; name approved_file; [DQUOTE]];
    [py "action_type: "; action_type];
    [py "failed_at: "; iso ts];
    [py "priority: high"];
    [py "status: pending"];
    [py "---"];
    [];
    [py "## Action Execution Failed"];
    [];
    [py "The approved action **"; action_type;
     py "** could not be executed."];
    [];
    [py "**Original file:** `Approved/"; name approved_file; py "`"];
    [py "**Failed at:** "; human ts];
    [];
    [py "## Suggested Actions"];
    [];
    [py "- [ ] Check `Logs/ACTION_FAILED_*.md` for error details"];
    [py "- [ ] Verify the MCP server is running (`GET http://127.0.0.1:3000/health`)"];
    [py "- [ ] Fix the issue and move the file back to `Approved/` to retry"];
    [py "- [ ] Or execute the action manually and move to `Done/`"] ] in
  let notif_file :=
    folder "Needs_Action" // (py "ALERT_FAILED_" ++ stamp ts ++ py "_"
                              ++ stem approved_file ++ py ".md") in
  lift_fs (write_text notif_file notification).

Definition _handle_approval (self : handler) (approved_file : Path)
  : M unit :=
  do _ <- logger (LogApprovalReceived (name approved_file));
  do f <- get_files;
  if negb (exists_ f approved_file) then
    logger (LogApprovedVanished (name approved_file))
  else
    do _ <- _log_approval approved_file;
    do meta <- try_except (parse_frontmatter approved_file)
                 (do _ <- logger (LogParseFailed (name approved_file));
                  ret ∅);
    let action_type := lower (strip (get meta "action_type" [])) in
    do success <-
      (if nonempty action_type then
         execute_action approved_file meta (dry_run self)
       else ret true);
    do f <- get_files;
    if success && exists_ f approved_file then
      do _ <- move_file approved_file (folder "Done") [];
      ret tt
    else if negb success && exists_ f approved_file then
      do _ <- logger LogStaysForRetry;
      _create_failure_notification approved_file meta
    else ret tt.

Definition ApprovalHandler_on_created := on_created _handle_approval.

Definition RejectionHandler_on_created (ev : event) : M unit :=
  if is_directory ev then ret tt
  else
    let src := src_path ev in
    if negb (bool_decide (suffix src = py ".md")) then ret tt
    else
      do _ <- logger (LogRejection (name src));
      do ts <- datetime_now;
      let log_entry := lines [
        [py "---"];
        [py "type: rejection_log"];
        [py "rejected_file: "; [DQUOTE]; name src; [DQUOTE]];
        [py "rejected_at: "; iso ts];
        [py "---"];
        [];
        [py "## Rejection Recorded"];
        [];
        [py "**File:** "; name src];
        [py "**Rejected at:** "; human ts];
        [py "**Reason:** (CEO to fill in)"] ] in
      let log_file :=
        folder "Logs" // (py "REJECTED_" ++ stamp ts ++ py "_"
                          ++ stem src ++ py ".md") in
      lift_fs (write_text log_file log_entry).

(* ---------------------------------------------------------------- *)
(** ** Startup: files already sitting in Needs_Action                *)
(* ---------------------------------------------------------------- *)

Definition process_backlog (dry : bool) : M unit :=
  do f <- get_files;
  let backlog := sorted_glob_md (folder "Needs_Action") f in
  match backlog with
  | [] => logger LogNoBacklog
  | _ =>
      do _ <- logger (LogBacklog (length backlog));
      let handler := {| dry_run := dry; processing := ∅ |} in
      foldr (fun task_file k =>
               do _ <- _handle_new_task handler task_file; k)
            (ret tt) backlog
  end.

(* ---------------------------------------------------------------- *)
(** ** Main                                                          *)
(* ---------------------------------------------------------------- *)

Record args := {
  arg_dry_run : bool;
  arg_skip_backlog : bool
}.

(** The observer thread: the events of the three watched folders, one
    after the other, each given to the handler scheduled on the folder
    the path lies in.  An error raised by a handler ends the thread. *)
Fixpoint observer (needs_handler approval_handler : handler)
    (events : list event) (w : world) : outcome unit :=
  match events with
  | [] => Ok tt w
  | ev :: events' =>
      if bool_decide (parent (src_path ev) = folder "Needs_Action") then
        match NeedsActionHandler_on_created needs_handler ev w with
        | (needs_handler', Ok _ w') =>
            observer needs_handler' approval_handler events' w'
        | (_, Raise e w') => Raise e w'
        end
      else if bool_decide (parent (src_path ev) = folder "Approved") then
        match ApprovalHandler_on_created approval_handler ev w with
        | (approval_handler', Ok _ w') =>
            observer needs_handler approval_handler' events' w'
        | (_, Raise e w') => Raise e w'
        end
      else if bool_decide (parent (src_path ev) = folder "Rejected") then
        match RejectionHandler_on_created ev w with
        | Ok _ w' => observer needs_handler approval_handler events' w'
        | Raise e w' => Raise e w'
        end
      else observer needs_handler approval_handler events' w
  end.

(** [main] for a vault that exists, with the events the observer
    delivers until it is stopped. *)
Definition main (a : args) (events : list event) : M unit :=
  do _ <- ensure_folders;
  do _ <- (if arg_skip_backlog a then ret tt
           else process_backlog (arg_dry_run a));
  observer {| dry_run := arg_dry_run a; processing := ∅ |}
           {| dry_run := arg_dry_run a; processing := ∅ |}
           events.

End Orchestrator.

(** [str.lower] on the ASCII letters; other code points are left as they
    are.  It serves to run the definitions on concrete documents. *)
Definition ascii_lower (s : str) : str :=
  (fun c => if (65 <=? c) && (c <=? 90) then c + 32 else c) <$> s.

(* ================================================================== *)
(** * The codec contract of the specification                           *)
(* ================================================================== *)

(** The pair (header, body) of the contract [parse], read off the mapping
    that [parse_frontmatter] returns: the body is the binding of the
    reserved key, the header is every other binding. *)
Definition parse (text : str) : gmap str str * str :=
  (delete BODY_KEY (parse_text text),
   default [] (parse_text text !! BODY_KEY)).

(** Modelled from the spec: the serializer of the Metadata Codec, which the
    repository does not contain.  A delimiter line of three hyphens, one
    [key: value] line for each binding of the header, a second delimiter
    line, then the body. *)
Definition serialize (H : gmap str str) (B : str) : str :=
  py "---" ++ [NL]
  ++ concat ((fun kv => kv.1 ++ py ": " ++ kv.2 ++ [NL]) <$> map_to_list H)
  ++ py "---" ++ [NL] ++ B.

(* ================================================================== *)
(** * Vocabulary of the statements                                      *)
(* ================================================================== *)



(** A header line binds the key [k] if it has an entry for it. *)
Definition binds (k : str) (l : str) : Prop :=
  exists v, header_entry l = Some (k, v).

(** The name that [move_file] tries at the turn of the loop where the
    counter is [k]. *)
Definition candidate (src dest_dir : Path) (k : nat) : Path :=
  dest_dir // (stem src ++ py "_" ++ str_of_nat k ++ suffix src).

(** A vault with two records of the same name in two folders. *)
Definition two_reports_world : world :=
  {| files := {[ folder "Needs_Action" := Dir;
                 folder "Approved" := Dir;
                 folder "Needs_Action" // py "report.md" := File (Text (py "first"));
                 folder "Approved" // py "report.md" := File (Text (py "second")) ]};
     sent := []; ticks := 0; log := [] |}.

(** A clock that stands still, a [claude] subprocess that fails and leaves
    the vault as it is, and an email server that cannot be reached. *)
Definition noon : datetime :=
  {| stamp := py "20260101_120000";
     iso := py "2026-01-01T12:00:00";
     human := py "2026-01-01 12:00:00" |}.

Definition still_clock (n : nat) : datetime := noon.

Definition failing_claude (task_file : Path) (f : fs) : fs * bool := (f, false).

Definition unreachable (r : request) : http_outcome :=
  URLError (py "Connection refused").



(** The same vault without the earlier batch. *)
Definition one_task_world : world :=
  {| files := {[ folder "Needs_Action" := Dir;
                 folder "In_Progress" := Dir;
                 folder "Logs" := Dir;
                 folder "Needs_Action" // py "a.md" := File (Text (py "new task")) ]};
     sent := []; ticks := 0; log := [] |}.

(** A handler object that is not in dry-run mode and holds no name. *)
Definition live_handler : handler := {| dry_run := false; processing := ∅ |}.

(** The batch directory of a failure at the time [ts]. *)
Definition error_dir (logs_dir : Path) (ts : datetime) : Path :=
  logs_dir // (py "Error_" ++ stamp ts).


(** The fields of a send-email directive as the executor reads them, the
    validation it applies to them, its test on the address of the email
    server, and the payload it posts. *)
Definition email_to (meta : gmap str str) : str := strip (get meta "to" []).

Definition email_subject (meta : gmap str str) : str :=
  strip (get meta "subject" []).

Definition email_body (meta : gmap str str) : str :=
  if nonempty (strip (get meta "body" [])) then strip (get meta "body" [])
  else strip (get meta "__body__" []).

Definition email_valid (meta : gmap str str) : bool :=
  nonempty (email_to meta) && nonempty (email_subject meta)
  && nonempty (email_body meta) && contains [AT] (email_to meta).

Definition loopback_only (url : str) : bool :=
  contains (py "127.0.0.1") url || contains (py "localhost") url.

Definition email_payload (url : str) (meta : gmap str str) : request :=
  {| req_url := url; req_to := email_to meta;
     req_subject := email_subject meta; req_body := email_body meta;
     req_threadId :=
       if nonempty (strip (get meta "threadId" []))
       then Some (strip (get meta "threadId" [])) else None |}.

(** Code that issues no request. *)
Definition keeps_sent {A} (m : M A) : Prop :=
  forall w, sent (world_of (m w)) = sent w.

(** Directives: a complete one, one without recipient, one with a
    recipient that is no address. *)
Definition alice_meta : gmap str str :=
  {[ py "action_type" := py "send_email"; py "to" := py "alice@example.com";
     py "subject" := py "Hi"; py "body" := py "Report attached" ]}.

Definition no_to_meta : gmap str str :=
  {[ py "action_type" := py "send_email";
     py "subject" := py "Missing recipient";
     py "body" := py "This should fail validation." ]}.

Definition bad_to_meta : gmap str str :=
  {[ py "action_type" := py "send_email"; py "to" := py "not-an-email";
     py "subject" := py "Bad address"; py "body" := py "This should also fail." ]}.

(** A vault with the stage folders and nothing else. *)
Definition empty_vault : world :=
  {| files := {[ folder "Needs_Action" := Dir; folder "Approved" := Dir;
                 folder "Done" := Dir; folder "Logs" := Dir ]};
     sent := []; ticks := 0; log := [] |}.



Definition normalized_action_type (lower : str -> str) (meta : gmap str str)
  : str :=
  lower (strip (get meta "action_type" [])).




(** The entries of the folder Logs whose name starts with [tag], and the
    entries of Needs_Action whose name starts with [tag]. *)
Definition entries (dir : string) (tag : string) (f : fs) : list Path :=
  filter (fun p => parent p = folder dir /\ startswith (py tag) (name p) = true)
         (map_to_list f).*1.

(** A vault with an approved send-email directive that names no recipient
    (the document of the end-to-end test of the repository), and one with
    an approved record that names no action. *)
Definition bad_email_file : Path := folder "Approved" // py "APPROVE_bad_email.md".

Definition bad_email_world : world :=
  {| files := {[ folder "Needs_Action" := Dir; folder "Approved" := Dir;
                 folder "Done" := Dir; folder "Logs" := Dir;
                 bad_email_file :=
                   File (Text (py "---" ++ [NL]
                               ++ py "action_type: send_email" ++ [NL]
                               ++ py "subject: " ++ [DQUOTE]
                               ++ py "Missing recipient" ++ [DQUOTE] ++ [NL]
                               ++ py "body: This should fail validation."
                               ++ [NL] ++ py "---" ++ [NL])) ]};
     sent := []; ticks := 0; log := [] |}.

Definition plain_note_file : Path := folder "Approved" // py "note.md".

Definition plain_note_world : world :=
  {| files := {[ folder "Needs_Action" := Dir; folder "Approved" := Dir;
                 folder "Done" := Dir; folder "Logs" := Dir;
                 plain_note_file :=
                   File (Text (py "---" ++ [NL] ++ py "type: note" ++ [NL]
                               ++ py "---" ++ [NL] ++ py "Approved as is."
                               ++ [NL])) ]};
     sent := []; ticks := 0; log := [] |}.

(** The names of the records whose handling by [_handle_new_task] the log
    shows, the earliest first; a log record that shows no such handling;
    code in whose course no such handling begins. *)
Definition new_task_name (r : logrec) : option str :=
  match r with
  | LogNewTask nm => Some nm
  | _ => None
  end.

Definition detected (l : list logrec) : list str :=
  reverse (omap new_task_name l).

Definition quiet (r : logrec) : Prop := new_task_name r = None.

Definition unseen {A} (m : M A) : Prop :=
  forall w, detected (log (world_of (m w))) = detected (log w).


(** Startup arguments with and without the sweep of the backlog. *)
Definition with_sweep : args := {| arg_dry_run := false; arg_skip_backlog := false |}.


(** A vault with three records in Needs_Action. *)
Definition three_tasks_world : world :=
  {| files := {[ folder "Needs_Action" := Dir;
                 folder "Needs_Action" // py "b.md" := File (Text (py "second"));
                 folder "Needs_Action" // py "c.md" := File (Text (py "third"));
                 folder "Needs_Action" // py "a.md" := File (Text (py "first")) ]};
     sent := []; ticks := 0; log := [] |}.



(** A document with a header line for the reserved key. *)
Definition body_key_doc : str :=
  py "---" ++ [NL] ++ py "type: note" ++ [NL] ++ py "__body__: mine" ++ [NL]
  ++ py "---" ++ [NL] ++ py "  the text  " ++ [NL].

(** A document with a blank line, a comment and a line without a colon in
    its header. *)
Definition untidy_doc : str :=
  py "---" ++ [NL] ++ py "type: email" ++ [NL] ++ [NL] ++ py "# a comment"
  ++ [NL] ++ py "no separator here" ++ [NL] ++ py "from: 'bob'" ++ [NL]
  ++ py "---" ++ [NL] ++ [NL] ++ py "Hello " ++ [NL].

(** A key and a value that a header line carries unchanged: trimmed, on
    one line, the key without a colon, not a comment, not opening with the
    delimiter and not the reserved key, the value not wrapped in quotes. *)
Definition no_linebreak (s : str) : Prop :=
  Forall (fun c => is_linebreak c = false) s.

Definition clean_key (k : str) : Prop :=
  strip k = k /\ (COLON ∉ k) /\ no_linebreak k /\ (head k <> Some HASH)
  /\ ¬ (py "---" `prefix_of` k) /\ k <> BODY_KEY.

Definition clean_value (v : str) : Prop :=
  strip v = v /\ no_linebreak v /\ unquote v = v.

(** The line that the serializer writes for a binding, without its line
    feed. *)
Definition header_text (kv : str * str) : str := kv.1 ++ py ": " ++ kv.2.

(** A line feed and three hyphens: where the second delimiter begins. *)
Definition DELIM : str := NL :: py "---".

(** The second delimiter begins nowhere inside [s] when [s] is followed
    by [t]. *)
Definition delim_free (s t : str) : Prop :=
  forall m1 m2, s = m1 ++ m2 -> m2 <> [] -> ¬ (DELIM `prefix_of` (m2 ++ t)).

(** A header of one binding. *)
Definition email_header : gmap str str := {[ py "type" := py "email" ]}.
(** The document format in the words of the specification (sections 4.1
    and 6): the text begins with a delimiter line, a line that consists
    solely of three hyphens; a header block follows, then a second
    delimiter line, then the body.  [spec_split] gives the lines of the
    header block and the body of a text of this shape. *)
Fixpoint split_nl (s : str) : list str :=
  match s with
  | [] => [[]]
  | c :: s' =>
      if c =? NL then [] :: split_nl s'
      else
        match split_nl s' with
        | l :: ls => (c :: l) :: ls
        | [] => [[c]]
        end
  end.

Definition spec_split (text : str) : option (list str * str) :=
  match split_nl text with
  | l0 :: ls =>
      if bool_decide (l0 = py "---") then
        match list_find (fun l => l = py "---") ls with
        | Some (i, _) => Some (take i ls, join [NL] (drop (S i) ls))
        | None => None
        end
      else None
  | [] => None
  end.



(** A line of white space only. *)
Definition blank (l : str) : bool := forallb is_space l.

(** The lines of a header block that follow its first line that is not
    blank; [None] when every line is blank. *)
Fixpoint after_blank (hdr : list str) : option (list str) :=
  match hdr with
  | [] => None
  | l :: ls => if blank l then after_blank ls else Some ls
  end.

(** A header block of plain lines: no line holds a line break other than
    the line feeds that separate the lines, some line is not blank, and no
    line after the first such line begins with three hyphens. *)
Definition plain_header (hdr : list str) : bool :=
  forallb (fun l => forallb (fun c => negb (is_linebreak c)) l) hdr
  && match after_blank hdr with
     | Some rest => forallb (fun l => negb (startswith (py "---") l)) rest
     | None => false
     end.

(** A vault whose only record, [doc_file], holds the text [s]. *)
Definition doc_file : Path := folder "Approved" // py "doc.md".

Definition doc_world (s : str) : world :=
  {| files := {[ folder "Approved" := Dir; doc_file := File (Text s) ]};
     sent := []; ticks := 0; log := [] |}.

(** A document whose header block is empty. *)
Definition empty_header_doc : str :=
  py "---" ++ [NL] ++ py "---" ++ [NL] ++ py "Hello" ++ [NL].

(** A document with a blank header block and a body that holds a line of
    three hyphens. *)
Definition blank_header_doc : str :=
  py "---" ++ [NL] ++ [NL] ++ py "---" ++ [NL] ++ py "A" ++ [NL]
  ++ py "---" ++ [NL] ++ py "B".

(** A document with a header line that begins with three hyphens. *)
Definition hyphen_line_doc : str :=
  py "---" ++ [NL] ++ py "to: a" ++ [NL] ++ py "---x" ++ [NL] ++ py "cc: b"
  ++ [NL] ++ py "---" ++ [NL] ++ py "Body" ++ [NL].

(** A document with a form feed inside a header line. *)
Definition form_feed_doc : str :=
  py "---" ++ [NL] ++ py "a: b" ++ [12] ++ py "__body__: x" ++ [NL]
  ++ py "---" ++ [NL] ++ py "B".










(** A vault where Needs_Action holds a directory whose name ends in .md,
    and the event of its creation. *)
Definition bundle_dir : Path := folder "Needs_Action" // py "bundle.md".

Definition bundle_world : world :=
  {| files := {[ folder "Needs_Action" := Dir;
                 bundle_dir := Dir;
                 bundle_dir // py "part.txt" := File (Text (py "attachment")) ]};
     sent := []; ticks := 0; log := [] |}.


(** A subprocess that succeeds and files the record under Done itself. *)
Definition filing_claude (task_file : Path) (f : fs) : fs * bool :=
  match f !! task_file with
  | Some n => (<[folder "Done" // name task_file := n]> (delete task_file f), true)
  | None => (f, true)
  end.





(** The mapping that [_handle_approval] works with for a record of the
    content [c]: that of the parser, or the empty one when the record
    cannot be decoded. *)
Definition approved_meta (c : content) : gmap str str :=
  match c with
  | Text s => parse_text (universal_newlines s)
  | Undecodable => ∅
  end.

(** Code that issues at most one request, and only one that [ok] holds
    of. *)
Definition sends_only {A} (ok : request -> Prop) (m : M A) : Prop :=
  forall w,
    sent (world_of (m w)) = sent w
    \/ exists r, ok r /\ sent (world_of (m w)) = r :: sent w.


(** A vault where the name of the folder Logs is taken by a regular
    file. *)
Definition blocked_world : world :=
  {| files := {[ folder "Logs" := File (Text (py "not a folder")) ]};
     sent := []; ticks := 0; log := [] |}.



Definition created (p : Path) : event := {| src_path := p; is_directory := false |}.

(** A request that the approval handler may issue: outside dry-run mode,
    to an address that passes the loopback test, the payload of a mapping
    that passes the validation and whose action type, trimmed and in
    lower case, is send_email. *)
Definition approval_request (lower : str -> str) (url : str) (dry : bool)
    (r : request) : Prop :=
  dry = false /\ loopback_only url = true
  /\ exists meta,
       email_valid meta = true
       /\ normalized_action_type lower meta = py "send_email"
       /\ r = email_payload url meta.

(** The events of the folder Approved, and the events of Needs_Action that
    the handler of new tasks does not ignore. *)
Definition approved_event (ev : event) : Prop :=
  parent (src_path ev) = folder "Approved".

Definition task_event (ev : event) : Prop :=
  parent (src_path ev) = folder "Needs_Action"
  /\ is_directory ev = false /\ suffix (src_path ev) = py ".md".

(** An event that every handler ignores. *)
Definition ignored_event (ev : event) : Prop :=
  is_directory ev = true \/ suffix (src_path ev) <> py ".md".

(** A vault with an approved send-email directive that passes the
    validation, and startup arguments for a dry run. *)
Definition alice_file : Path := folder "Approved" // py "A.md".

Definition alice_world : world :=
  {| files := {[ folder "Needs_Action" := Dir; folder "Approved" := Dir;
                 folder "Done" := Dir; folder "Logs" := Dir;
                 alice_file :=
                   File (Text (py "---" ++ [NL]
                               ++ py "action_type: send_email" ++ [NL]
                               ++ py "to: alice@example.com" ++ [NL]
                               ++ py "subject: Hi" ++ [NL]
                               ++ py "body: Report attached" ++ [NL]
                               ++ py "---" ++ [NL])) ]};
     sent := []; ticks := 0; log := [] |}.

Definition dry_args : args := {| arg_dry_run := true; arg_skip_backlog := false |}.



(** A key as the orchestrator writes them in a header line: trimmed, not
    empty, on one line, without a colon, and opening with neither a hash
    sign nor a hyphen. *)
Definition written_key (k : str) : Prop :=
  strip k = k /\ k <> [] /\ (COLON ∉ k) /\ head k <> Some HASH
  /\ head k <> Some 45 /\ no_linebreak k.

(** A vault with a record in Needs_Action whose whole name is [.md]. *)
Definition bare_md_file : Path := folder "Needs_Action" // py ".md".

Definition bare_md_world : world :=
  {| files := {[ folder "Needs_Action" := Dir;
                 bare_md_file := File (Text (py "a task")) ]};
     sent := []; ticks := 0; log := [] |}.

(** The event that the observer delivers for the creation of the entry
    [p] of the vault [f]. *)
Definition event_of (f : fs) (p : Path) : event :=
  {| src_path := p; is_directory := bool_decide (f !! p = Some Dir) |}.

(* ================================================================== *)
(** * Facts about strings                                               *)
(* ================================================================== *)

Section StringFacts.
Implicit Types s r m : str.

Lemma lstrip_suffix s : lstrip s `suffix_of` s.
Proof.
  induction s as [|c s IH]; simpl; [done|].
  destruct (is_space c); [|done].
  by apply suffix_cons_r.
Qed.

Lemma lstrip_head s c r : lstrip s = c :: r -> is_space c = false.
Proof.
  induction s as [|d s IH]; simpl; [done|].
  destruct (is_space d) eqn:Hd; [done|]. by intros [= <- _].
Qed.

Lemma lstrip_cons_id c s : is_space c = false -> lstrip (c :: s) = c :: s.
Proof. simpl. by intros ->. Qed.

Lemma lstrip_spaces ws s :
  forallb is_space ws = true -> lstrip (ws ++ s) = lstrip s.
Proof.
  induction ws as [|c ws IH]; simpl; [done|].
  intros [-> ?]%andb_true_iff. auto.
Qed.

Lemma lstrip_idem s : lstrip (lstrip s) = lstrip s.
Proof.
  destruct (lstrip s) as [|c r] eqn:E; [done|].
  apply lstrip_cons_id. by eapply lstrip_head.
Qed.

Lemma rstrip_prefix s : rstrip s `prefix_of` s.
Proof.
  unfold rstrip. destruct (lstrip_suffix (reverse s)) as [k Hk].
  exists (reverse k).
  rewrite <- (reverse_involutive s), Hk at 1. by rewrite reverse_app.
Qed.

Lemma rstrip_snoc_id s c : is_space c = false -> rstrip (s ++ [c]) = s ++ [c].
Proof.
  intros Hc. unfold rstrip. rewrite reverse_snoc, lstrip_cons_id by done.
  by rewrite reverse_cons, reverse_involutive.
Qed.

Lemma rstrip_nil : rstrip [] = [].
Proof. done. Qed.

Lemma rstrip_last s r c : rstrip s = r ++ [c] -> is_space c = false.
Proof.
  unfold rstrip. intros E.
  apply (f_equal reverse) in E. rewrite reverse_involutive, reverse_snoc in E.
  by eapply lstrip_head.
Qed.

Lemma rstrip_spaces s ws :
  forallb is_space ws = true -> rstrip (s ++ ws) = rstrip s.
Proof.
  intros H. unfold rstrip. rewrite reverse_app, lstrip_spaces; [done|].
  rewrite forallb_forall in *. intros c Hc. apply H.
  rewrite <- list_elem_of_In in Hc. rewrite elem_of_reverse in Hc.
  by rewrite <- list_elem_of_In.
Qed.

(** The characters of [strip s] are characters of [s]. *)
Lemma strip_elem s c : c ∈ strip s -> c ∈ s.
Proof.
  unfold strip. intros H.
  destruct (rstrip_prefix (lstrip s)) as [k Hk].
  destruct (lstrip_suffix s) as [k' Hk'].
  rewrite Hk', Hk. set_solver.
Qed.

Lemma strip_head s c r : strip s = c :: r -> is_space c = false.
Proof.
  unfold strip. intros E.
  destruct (rstrip_prefix (lstrip s)) as [k Hk].
  rewrite E in Hk. simpl in Hk. by eapply lstrip_head.
Qed.

Lemma strip_last s r c : strip s = r ++ [c] -> is_space c = false.
Proof. apply rstrip_last. Qed.

(** A string that [strip] leaves alone is empty or has a first and a last
    character that are not white space, and conversely. *)
Lemma strip_id_nil : strip [] = [].
Proof. done. Qed.

Lemma strip_id_ends c m d :
  is_space c = false -> is_space d = false ->
  strip (c :: m ++ [d]) = c :: m ++ [d].
Proof.
  intros Hc Hd. unfold strip. rewrite lstrip_cons_id by done.
  by apply (rstrip_snoc_id (c :: m)).
Qed.

Lemma strip_id_single c : is_space c = false -> strip [c] = [c].
Proof.
  intros Hc. unfold strip. rewrite lstrip_cons_id by done.
  by apply (rstrip_snoc_id []).
Qed.

Lemma strip_idem s : strip (strip s) = strip s.
Proof.
  destruct (strip s) as [|c r] eqn:E; [done|].
  pose proof (strip_head _ _ _ E) as Hc.
  destruct (decide (r = [])) as [->|Hr]; [by apply strip_id_single|].
  destruct (exists_last Hr) as (m & d & ->).
  apply strip_id_ends; [done|].
  by apply (strip_last s (c :: m) d).
Qed.

(** White space on either side does not change [strip]. *)
Lemma strip_lstrip s : strip (lstrip s) = strip s.
Proof. unfold strip. by rewrite lstrip_idem. Qed.

Lemma strip_spaces_l ws s :
  forallb is_space ws = true -> strip (ws ++ s) = strip s.
Proof. intros H. unfold strip. by rewrite lstrip_spaces. Qed.

Lemma find_char_None c s : find_char c s = None <-> c ∉ s.
Proof.
  induction s as [|d s IH]; simpl.
  - split; [|done]. intros _. apply not_elem_of_nil.
  - destruct (N.eqb_spec d c) as [->|Hne].
    + split; [done|]. intros H. destruct H. left.
    + rewrite fmap_None, IH, not_elem_of_cons.
      split; [intros ?; split; [congruence|done] | by intros [_ ?]].
Qed.

Lemma find_char_app c k r :
  c ∉ k -> find_char c (k ++ c :: r) = Some (length k).
Proof.
  induction k as [|d k IH]; simpl; intros Hk.
  - by rewrite N.eqb_refl.
  - apply not_elem_of_cons in Hk as [Hne Hk].
    destruct (N.eqb_spec d c); [congruence|]. by rewrite IH.
Qed.

Lemma startswith_prefix pre s :
  startswith pre s = true <-> pre `prefix_of` s.
Proof.
  revert s. induction pre as [|c pre IH]; intros [|d s]; simpl.
  - split; [intros; apply prefix_nil | done].
  - split; [intros; apply prefix_nil | done].
  - split; [done|]. intros H. by apply prefix_nil_not in H.
  - rewrite andb_true_iff, IH, N.eqb_eq. split.
    + intros [-> ?]. by apply prefix_cons.
    + intros H. split; [by eapply prefix_cons_inv_1|by eapply prefix_cons_inv_2].
Qed.

Lemma contains_elem c s : contains [c] s = true <-> c ∈ s.
Proof.
  induction s as [|d s IH]; simpl.
  - split; [done|]. intros H. by apply elem_of_nil in H.
  - rewrite orb_true_iff, andb_true_iff, IH, elem_of_cons, N.eqb_eq.
    split; (intros [H|H]; [left|by right]); [by destruct H|].
    split; [done|by destruct s].
Qed.
End StringFacts.

(* ================================================================== *)
(** * Facts about the matcher                                           *)
(* ================================================================== *)

Section ReFacts.
Context {A : Type}.
Implicit Types (k : str -> str -> option A) (s r m : str).

Lemma lit_app l (k : str -> option A) r : Re.lit l k (l ++ r) = k r.
Proof.
  induction l as [|c l IH]; simpl; [done|]. by rewrite N.eqb_refl.
Qed.

Lemma lit_Some l (k : str -> option A) s a :
  Re.lit l k s = Some a -> exists r, s = l ++ r /\ k r = Some a.
Proof.
  revert s. induction l as [|c l IH]; intros s; simpl.
  - intros H. by exists s.
  - destruct s as [|d s]; [done|].
    destruct (N.eqb_spec c d) as [->|]; [|done].
    intros (r & -> & Hr)%IH. by exists r.
Qed.

Lemma lit_mismatch l (k : str -> option A) s :
  ¬ l `prefix_of` s -> Re.lit l k s = None.
Proof.
  intros Hn. destruct (Re.lit l k s) as [a|] eqn:E; [|done].
  apply lit_Some in E as (r & -> & _). destruct Hn. by exists r.
Qed.





(** The lazy group ends at the first place where the rest of the pattern
    succeeds. *)
Lemma lazy_first p k m r a :
  forallb p m = true ->
  (forall m1 m2, m = m1 ++ m2 -> m2 <> [] -> k m1 (m2 ++ r) = None) ->
  k m r = Some a ->
  Re.lazy p k (m ++ r) = Some a.
Proof.
  revert k. induction m as [|c m IH]; intros k Hp Hearly Hk.
  - simpl. destruct r; simpl; by rewrite Hk.
  - simpl in Hp. apply andb_true_iff in Hp as [Hc Hp].
    pose proof (Hearly [] (c :: m) eq_refl ltac:(done)) as H0.
    simpl in *. rewrite H0, Hc.
    apply IH; [done| |done].
    intros m1 m2 -> Hm2. by apply (Hearly (c :: m1) m2).
Qed.

Lemma opt_Some c (k : str -> option A) s a :
  Re.opt c k s = Some a ->
  k s = Some a \/ exists s', s = c :: s' /\ k s' = Some a.
Proof.
  destruct s as [|d s]; simpl; [by left|].
  destruct (N.eqb_spec d c) as [->|]; [|by left].
  destruct (k s) eqn:E; [|by left]. intros [= ->]. right. by exists s.
Qed.

Lemma opt_total c (k : str -> option A) s :
  (forall r, is_Some (k r)) -> is_Some (Re.opt c k s).
Proof.
  intros Hk. destruct s as [|d s]; simpl; [done|].
  destruct (d =? c); [|done]. destruct (k s) eqn:E; [done|].
  destruct (Hk s) as [? ?]. congruence.
Qed.

Lemma greedy_total p k s :
  (forall m r, is_Some (k m r)) -> is_Some (Re.greedy p k s).
Proof.
  revert k. induction s as [|c s IH]; intros k Hk; simpl; [done|].
  destruct (p c); [|done]. by destruct (Re.greedy p _ s).
Qed.

(** A greedy group of any characters before the end of the pattern takes
    all the text. *)
Lemma greedy_any_all (f : str -> A) s :
  Re.greedy Re.any (fun g _ => Some (f g)) s = Some (f s).
Proof.
  revert f. induction s as [|c s IH]; intros f; simpl; [done|].
  by rewrite (IH (fun g => f (c :: g))).
Qed.
End ReFacts.

Lemma forallb_any m : forallb Re.any m = true.
Proof. by induction m. Qed.

(** The part of the pattern after the second delimiter never fails, and
    its group is the text left without its leading white space. *)
Lemma frontmatter_tail_gen (g1 : str) (k : str -> str -> option (str * str)) s :
  (forall m r, k m r
     = Re.opt NL (Re.greedy Re.any (fun g2 _ => Some (g1, g2))) r) ->
  Re.greedy is_space k s = Some (g1, lstrip s).
Proof.
  revert k. induction s as [|c s IH]; intros k Hk; simpl.
  - by rewrite Hk.
  - destruct (is_space c) eqn:Hc.
    + rewrite (IH (fun m r => k (c :: m) r)); [done|]. intros m r. apply Hk.
    + rewrite Hk. unfold Re.opt.
      destruct (N.eqb_spec c NL) as [->|]; [done|].
      by rewrite (greedy_any_all (fun g => (g1, g))).
Qed.

Lemma frontmatter_tail (g1 s : str) :
  Re.greedy is_space (fun _ : str =>
     Re.opt NL (Re.greedy Re.any (fun g2 _ => Some (g1, g2)))) s
  = Some (g1, lstrip s).
Proof. by apply frontmatter_tail_gen. Qed.



(* ================================================================== *)
(** * The frontmatter parser                                            *)
(* ================================================================== *)

Section ParserFacts.
Implicit Types (meta : gmap str str) (line l : str) (ls : list str).

Lemma header_entry_blank l : strip l = [] -> header_entry l = None.
Proof. unfold header_entry. by intros ->. Qed.





(** No turn of the loop removes a binding. *)
Lemma header_line_keeps meta l k :
  is_Some (meta !! k) -> is_Some (header_line meta l !! k).
Proof.
  unfold header_line. destruct (header_entry l) as [[key value]|]; [|done].
  intros H. destruct (decide (key = k)) as [->|].
  - rewrite lookup_insert_eq. by eexists.
  - by rewrite lookup_insert_ne.
Qed.

Lemma header_lines_keep ls meta k :
  is_Some (meta !! k) -> is_Some (foldl header_line meta ls !! k).
Proof.
  revert meta. induction ls as [|l ls IH]; intros meta H; simpl; [done|].
  by apply IH, header_line_keeps.
Qed.

Lemma header_line_other meta l k :
  ¬ binds k l -> header_line meta l !! k = meta !! k.
Proof.
  unfold header_line, binds.
  destruct (header_entry l) as [[key value]|]; [|done].
  intros H. apply lookup_insert_ne. intros ->. apply H. by eexists.
Qed.

Lemma header_lines_other ls meta k :
  Forall (fun l => ¬ binds k l) ls ->
  foldl header_line meta ls !! k = meta !! k.
Proof.
  revert meta. induction ls as [|l ls IH]; intros meta H; simpl; [done|].
  inversion_clear H. rewrite IH by done. by apply header_line_other.
Qed.

(** The last line that binds a key decides its value. *)
Lemma header_lines_last ls1 l ls2 meta k v :
  header_entry l = Some (k, v) ->
  Forall (fun l => ¬ binds k l) ls2 ->
  foldl header_line meta (ls1 ++ l :: ls2) !! k = Some v.
Proof.
  intros Hl H2. rewrite foldl_app. simpl.
  rewrite header_lines_other by done.
  unfold header_line. rewrite Hl. apply lookup_insert_eq.
Qed.
End ParserFacts.

Lemma parse_text_has_body text : is_Some (parse_text text !! BODY_KEY).
Proof.
  unfold parse_text. destruct (Re.frontmatter text) as [[yaml body]|].
  - apply header_lines_keep. rewrite lookup_singleton_eq. by eexists.
  - rewrite lookup_singleton_eq. by eexists.
Qed.

(** A decidable test that no line of a header binds a key. *)
Lemma not_binds_check (k : str) (ls : list str) :
  forallb (fun l => bool_decide (fst <$> header_entry l <> Some k)) ls = true ->
  Forall (fun l => ¬ binds k l) ls.
Proof.
  induction ls as [|l ls IH]; [constructor|].
  cbn [forallb]. intros [Hl Hls]%andb_true_iff. constructor; [|by apply IH].
  intros [v Hv]. apply (bool_decide_eq_true_1 _ Hl). by rewrite Hv.
Qed.

(* ================================================================== *)
(** * Serialized documents                                              *)
(* ================================================================== *)

Section RoundTrip.
Implicit Types (k v l s t : str) (ls : list str).

Lemma lstrip_clean_line k x : clean_key k -> lstrip (k ++ COLON :: x) = k ++ COLON :: x.
Proof.
  intros (Hk & _). destruct k as [|c k]; [done|].
  apply lstrip_cons_id. by apply (strip_head (c :: k) c k).
Qed.

(** The line of a binding, trimmed: the key, a colon, and what [strip]
    turns into the value. *)
Lemma strip_header_text k v :
  clean_key k -> clean_value v ->
  exists t, strip (header_text (k, v)) = k ++ COLON :: t /\ strip t = v.
Proof.
  intros Hk (Hv & _). unfold header_text, strip. cbn [fst snd].
  change (py ": ") with [COLON; 32].
  change (k ++ [COLON; 32] ++ v) with (k ++ COLON :: (32 :: v)).
  rewrite lstrip_clean_line by done.
  destruct (decide (v = [])) as [->|Hne].
  - exists []. split; [|done].
    change (k ++ [COLON; 32]) with (k ++ [COLON] ++ [32]).
    rewrite app_assoc, rstrip_spaces by done. by apply rstrip_snoc_id.
  - destruct (exists_last Hne) as (v' & d & ->). exists (32 :: v' ++ [d]).
    split.
    + change (k ++ COLON :: 32 :: v' ++ [d])
        with (k ++ (COLON :: 32 :: v') ++ [d]).
      rewrite app_assoc. apply rstrip_snoc_id.
      by apply (strip_last (v' ++ [d]) v' d).
    + exact (eq_trans (strip_spaces_l [32] (v' ++ [d]) eq_refl) Hv).
Qed.

Lemma header_entry_header_text k v :
  clean_key k -> clean_value v -> header_entry (header_text (k, v)) = Some (k, v).
Proof.
  intros Hk Hv. destruct (strip_header_text k v Hk Hv) as (t & Ht & Hs).
  unfold header_entry. rewrite Ht.
  destruct Hk as (Hk1 & Hk2 & _ & Hk4 & _). destruct Hv as (_ & _ & Hv3).
  assert (find_char COLON (k ++ COLON :: t) = Some (length k)) as Hf
    by by apply find_char_app.
  assert (drop (S (length k)) (k ++ COLON :: t) = t) as Hd
    by (clear; by induction k).
  cbv zeta. rewrite Hf, take_app_length, Hd, Hk1, Hs, Hv3.
  destruct k as [|c k]; [done|]. cbn [app].
  destruct (N.eqb_spec c HASH) as [->|_]; done.
Qed.

Lemma header_text_no_linebreak k v :
  clean_key k -> clean_value v -> no_linebreak (header_text (k, v)).
Proof.
  intros (_ & _ & Hk & _) (_ & Hv & _). unfold header_text, no_linebreak.
  simpl. apply Forall_app. split; [done|]. by repeat constructor.
Qed.

Lemma header_text_no_delim k v t :
  clean_key k -> ¬ (py "---" `prefix_of` (header_text (k, v) ++ NL :: t)).
Proof.
  intros (_ & _ & _ & _ & Hk & _) H. apply Hk. clear Hk.
  unfold header_text in H. cbn [fst snd] in H.
  change (py "---") with [45; 45; 45] in *.
  change (py ": ") with [COLON; 32] in H.
  destruct k as [|c1 [|c2 [|c3 k]]]; cbn [app] in H.
  - by apply prefix_cons_inv_1 in H.
  - apply prefix_cons_inv_2 in H. by apply prefix_cons_inv_1 in H.
  - do 2 apply prefix_cons_inv_2 in H. by apply prefix_cons_inv_1 in H.
  - pose proof (prefix_cons_inv_1 _ _ _ _ H) as <-.
    apply prefix_cons_inv_2 in H.
    pose proof (prefix_cons_inv_1 _ _ _ _ H) as <-.
    apply prefix_cons_inv_2 in H.
    pose proof (prefix_cons_inv_1 _ _ _ _ H) as <-.
    do 3 apply prefix_cons. apply prefix_nil.
Qed.

(** [splitlines] finds the lines again. *)
Lemma splitlines_line l s :
  no_linebreak l -> splitlines (l ++ NL :: s) = l :: splitlines s.
Proof.
  induction 1 as [|c l Hc Hl IH]; simpl.
  - by destruct s.
  - by rewrite Hc, IH.
Qed.

Lemma splitlines_single l : l <> [] -> no_linebreak l -> splitlines l = [l].
Proof.
  intros Hne H. induction H as [|c l Hc Hl IH]; [done|]. simpl. rewrite Hc.
  destruct l as [|d l]; [done|]. by rewrite IH.
Qed.

Lemma splitlines_join ls :
  Forall (fun l => l <> [] /\ no_linebreak l) ls ->
  splitlines (join [NL] ls) = ls.
Proof.
  induction 1 as [|l ls [Hne Hl] Hls IH]; [done|]. simpl.
  destruct ls as [|l' ls]; [by apply splitlines_single|].
  change (l ++ [NL] ++ join [NL] (l' :: ls))
    with (l ++ NL :: join [NL] (l' :: ls)).
  by rewrite splitlines_line, IH.
Qed.

Lemma concat_lines ls :
  ls <> [] -> concat ((fun l => l ++ [NL]) <$> ls) = join [NL] ls ++ [NL].
Proof.
  induction ls as [|l ls IH]; [done|]. intros _.
  rewrite fmap_cons. cbn [concat].
  destruct ls as [|l' ls]; [simpl; by rewrite app_nil_r|].
  rewrite IH by done.
  change (join [NL] (l :: l' :: ls)) with (l ++ [NL] ++ join [NL] (l' :: ls)).
  by rewrite <- !app_assoc.
Qed.

Lemma delim_free_nil t : delim_free [] t.
Proof. intros m1 m2 H Hne. symmetry in H. by apply app_eq_nil in H as [_ ?]. Qed.

Lemma delim_free_cons c s t : c <> NL -> delim_free s t -> delim_free (c :: s) t.
Proof.
  intros Hc Hs [|d m1] m2; simpl.
  - intros <- _ H. by apply prefix_cons_inv_1 in H.
  - intros [= <- ->] Hne. by apply (Hs m1 m2).
Qed.

Lemma delim_free_nl s t :
  delim_free s t -> ¬ (py "---" `prefix_of` (s ++ t)) -> delim_free (NL :: s) t.
Proof.
  intros Hs Hn [|d m1] m2; simpl.
  - intros <- _ H. by apply prefix_cons_inv_2 in H.
  - intros [= <- ->] Hne. by apply (Hs m1 m2).
Qed.

Lemma delim_free_app l s t :
  no_linebreak l -> delim_free s t -> delim_free (l ++ s) t.
Proof.
  induction 1 as [|c l Hc Hl IH]; [done|]. intros Hs. simpl.
  apply delim_free_cons; [|by apply IH]. by intros ->.
Qed.

Lemma delim_free_join ls t :
  Forall (fun l => no_linebreak l /\ forall x, ¬ (py "---" `prefix_of` (l ++ NL :: x))) ls ->
  delim_free (join [NL] ls) (NL :: t).
Proof.
  induction 1 as [|l ls [Hl Hd] Hls IH]; [apply delim_free_nil|]. simpl.
  destruct ls as [|l' ls].
  - rewrite <- (app_nil_r l). apply delim_free_app; [done|apply delim_free_nil].
  - apply delim_free_app; [done|]. apply delim_free_nl; [done|].
    inversion_clear Hls as [|? ? [_ Hd'] _]. simpl.
    destruct ls as [|l'' ls]; [apply Hd'|].
    rewrite <- app_assoc. apply Hd'.
Qed.

Lemma greedy_space_nl {A} (K : str -> option A) c s :
  is_space c = false ->
  Re.greedy is_space (fun _ => Re.lit [NL] K) (NL :: c :: s) = K (c :: s).
Proof.
  intros Hc. cbn [Re.greedy]. change (is_space NL) with true. cbn iota.
  rewrite Hc. cbn [Re.lit]. rewrite N.eqb_refl.
  destruct (N.eqb_spec NL c) as [<-|]; done.
Qed.

(** The pattern on a delimiter line, a block that opens with a visible
    character and holds no second delimiter, a delimiter, and a rest. *)
Lemma frontmatter_block c block rest :
  is_space c = false ->
  delim_free (c :: block) (DELIM ++ rest) ->
  Re.frontmatter (py "---" ++ [NL] ++ (c :: block) ++ DELIM ++ rest)
  = Some (c :: block, lstrip rest).
Proof.
  intros Hc Hfree. unfold Re.frontmatter. rewrite lit_app.
  change ([NL] ++ (c :: block) ++ DELIM ++ rest)
    with (NL :: c :: (block ++ DELIM ++ rest)).
  rewrite greedy_space_nl by done.
  change (c :: block ++ DELIM ++ rest) with ((c :: block) ++ DELIM ++ rest).
  apply lazy_first.
  - apply forallb_any.
  - intros m1 m2 E Hne. apply lit_mismatch. by apply (Hfree m1 m2).
  - unfold DELIM. rewrite lit_app. apply frontmatter_tail.
Qed.

(** The loop over the lines of clean bindings inserts each binding. *)
Lemma header_lines_insert (kvs : list (str * str)) (meta : gmap str str) :
  Forall (fun kv => clean_key kv.1 /\ clean_value kv.2) kvs ->
  foldl header_line meta (header_text <$> kvs)
  = foldl (fun m kv => <[kv.1 := kv.2]> m) meta kvs.
Proof.
  intros H. revert meta.
  induction H as [|[k v] kvs [Hk Hv] _ IH]; intros meta; [done|]. simpl.
  rewrite <- IH. f_equal. unfold header_line.
  by rewrite header_entry_header_text.
Qed.

Lemma foldl_insert_list_to_map (kvs : list (str * str)) (meta : gmap str str) :
  NoDup kvs.*1 ->
  foldl (fun m kv => <[kv.1 := kv.2]> m) meta kvs = list_to_map kvs ∪ meta.
Proof.
  revert meta. induction kvs as [|[k v] kvs IH]; intros meta Hnd; simpl.
  - by rewrite (left_id_L ∅ (∪)).
  - inversion_clear Hnd as [|? ? Hk Hnd']. rewrite IH by done.
    rewrite <- insert_union_l.
    by rewrite <- insert_union_r by by apply not_elem_of_list_to_map_1.
Qed.
End RoundTrip.

Lemma header_text_head k v :
  clean_key k -> exists c r, header_text (k, v) = c :: r /\ is_space c = false.
Proof.
  intros (Hk & _). unfold header_text. cbn [fst snd].
  destruct k as [|c k].
  - by exists COLON, (32 :: v).
  - exists c, (k ++ py ": " ++ v). split; [done|].
    by apply (strip_head (c :: k) c k).
Qed.

Lemma header_text_nonempty k v : header_text (k, v) <> [].
Proof. unfold header_text. cbn [fst snd]. by destruct k. Qed.

(** The text of a serialized document: the delimiter, the lines of the
    bindings joined by line feeds, the second delimiter, the body. *)
Lemma serialize_text (H : gmap str str) (B : str) :
  H <> ∅ ->
  serialize H B
  = py "---" ++ [NL] ++ join [NL] (header_text <$> map_to_list H)
    ++ DELIM ++ [NL] ++ B.
Proof.
  intros Hne. unfold serialize.
  assert ((fun kv : str * str => kv.1 ++ py ": " ++ kv.2 ++ [NL]) <$> map_to_list H
          = (fun l => l ++ [NL]) <$> (header_text <$> map_to_list H)) as ->.
  { rewrite <- list_fmap_compose. apply list_fmap_ext. intros _ [k v] _.
    unfold header_text. simpl. by rewrite <- !app_assoc. }
  rewrite concat_lines.
  - unfold DELIM. by rewrite <- !app_assoc.
  - intros E. apply fmap_nil_inv in E. by apply map_to_list_empty_iff in E.
Qed.

(** C7, as the claim states it, fails: a body that ends in a line feed
    does not come back. *)
Lemma codec_round_trip_fails :
  parse (serialize email_header (py "Hello" ++ [NL]))
  <> (email_header, py "Hello" ++ [NL]).
Proof.
  intros H. apply (f_equal snd) in H. vm_compute in H. discriminate H.
Qed.

(** C7, amended.  For a header that is not empty and whose keys and
    values are clean, and for any body, parsing the serialized document
    gives back the header, and the body without its leading and trailing
    white space. *)
Theorem codec_round_trip (H : gmap str str) (B : str) :
  H <> ∅ ->
  map_Forall (fun k v => clean_key k /\ clean_value v) H ->
  parse (serialize H B) = (H, strip B).
Proof.
  intros Hne Hclean.
  assert (Forall (fun kv => clean_key kv.1 /\ clean_value kv.2) (map_to_list H))
    as Hkvs.
  { apply map_Forall_to_list in Hclean. eapply Forall_impl; [done|].
    by intros [k v]. }
  assert (H !! BODY_KEY = None) as Hbody.
  { destruct (H !! BODY_KEY) as [v|] eqn:E; [|done].
    destruct (Hclean _ _ E) as [(_ & _ & _ & _ & _ & Hk) _]. done. }
  assert (parse_text (serialize H B) = H ∪ {[ BODY_KEY := strip B ]}) as Hp.
  { rewrite serialize_text by done.
    destruct (map_to_list H) as [|[k v] kvs] eqn:Ekvs.
    { by apply map_to_list_empty_iff in Ekvs. }
    pose proof Hkvs as Hkvs'. inversion_clear Hkvs' as [|? ? [Hk Hv] Hrest].
    destruct (header_text_head k v Hk) as (c & r & Ec & Hc).
    assert (exists block, join [NL] (header_text <$> (k, v) :: kvs) = c :: block)
      as [block Eb].
    { rewrite fmap_cons. cbn [join]. rewrite Ec.
      destruct (header_text <$> kvs); by eexists. }
    unfold parse_text. rewrite Eb.
    rewrite frontmatter_block; [|done|].
    - rewrite <- Eb. rewrite splitlines_join.
      + rewrite header_lines_insert by done.
        rewrite foldl_insert_list_to_map.
        * rewrite <- Ekvs, list_to_map_to_list.
          change (lstrip ([NL] ++ B)) with (lstrip B). by rewrite strip_lstrip.
        * rewrite <- Ekvs. apply NoDup_fst_map_to_list.
      + apply Forall_fmap. eapply Forall_impl; [exact Hkvs|].
        intros [k' v'] [Hk' Hv']. split.
        * apply header_text_nonempty.
        * by apply header_text_no_linebreak.
    - rewrite <- Eb. unfold DELIM. cbn [app].
      apply delim_free_join. apply Forall_fmap.
      eapply Forall_impl; [exact Hkvs|]. intros [k' v'] [Hk' Hv']. split.
      + by apply header_text_no_linebreak.
      + intros tl. by apply header_text_no_delim. }
  unfold parse. rewrite Hp. f_equal.
  - rewrite delete_union, delete_singleton_eq, (right_id_L ∅ (∪)).
    by apply delete_id.
  - rewrite lookup_union_r by done. by rewrite lookup_singleton_eq.
Qed.

Lemma codec_round_trip_witness :
  parse (serialize email_header (py "Hello" ++ [NL])) = (email_header, py "Hello").
Proof.
  apply (codec_round_trip email_header (py "Hello" ++ [NL])).
  - intros E. apply (f_equal (fun m => m !! py "type")) in E. discriminate E.
  - apply map_Forall_singleton. repeat split; try reflexivity.
    + apply find_char_None. reflexivity.
    + by repeat constructor.
    + discriminate.
    + intros [tl Htl]. discriminate Htl.
    + discriminate.
    + by repeat constructor.
Defined.

(* ================================================================== *)
(** * The parser on documents of the shape of the specification          *)
(* ================================================================== *)

Section ShapedDocuments.
Implicit Types (s t block tail W V X : str) (meta : gmap str str).

Lemma lstrip_decompose s :
  exists ws, s = ws ++ lstrip s /\ forallb is_space ws = true.
Proof.
  induction s as [|c s (ws & Hs & Hws)]; [by exists []|]. simpl.
  destruct (is_space c) eqn:Ec.
  - exists (c :: ws). simpl. rewrite Ec, Hws. split; [by rewrite <- Hs|done].
  - by exists [].
Qed.

Lemma lstrip_all_space ws : forallb is_space ws = true -> lstrip ws = [].
Proof. intros H. rewrite <- (app_nil_r ws). by rewrite lstrip_spaces. Qed.

Lemma strip_all_space ws : forallb is_space ws = true -> strip ws = [].
Proof. intros H. unfold strip. by rewrite lstrip_all_space. Qed.

(** A text with a character that is not white space begins with white
    space followed by such a character. *)
Lemma nonspace_decompose s c :
  c ∈ s -> is_space c = false ->
  exists W d T, s = W ++ d :: T /\ forallb is_space W = true /\ is_space d = false.
Proof.
  intros Hin Hc. destruct (lstrip_decompose s) as (W & Hs & HW).
  destruct (lstrip s) as [|d T] eqn:E.
  - rewrite app_nil_r in Hs. subst s. exfalso.
    rewrite forallb_forall in HW. apply list_elem_of_In in Hin.
    specialize (HW c Hin). congruence.
  - exists W, d, T. split; [done|]. split; [done|]. by apply (lstrip_head s d T).
Qed.



Section Greedy.
Context {A : Type}.

(** The greedy run of white space before a line feed: among the line
    feeds of the run, the last one is tried first. *)
Lemma greedy_no_nl (k : str -> str -> option A) (K : str -> option A) V c X :
  (forall m r, k m r = Re.lit [NL] K r) ->
  forallb is_space V = true -> (NL ∉ V) -> is_space c = false ->
  Re.greedy is_space k (V ++ c :: X) = None.
Proof.
  intros Hk HV Hnl Hc. revert k Hk.
  induction V as [|d V IH]; intros k Hk; cbn [app Re.greedy].
  - rewrite Hc, Hk. cbn [Re.lit].
    destruct (NL =? c) eqn:E; [|done]. apply N.eqb_eq in E as <-. done.
  - cbn [forallb] in HV. apply andb_true_iff in HV as [Hd HV].
    apply not_elem_of_cons in Hnl as [Hne Hnl]. rewrite Hd.
    rewrite (IH HV Hnl); [|intros m r; by rewrite Hk].
    rewrite Hk. cbn [Re.lit].
    destruct (NL =? d) eqn:E; [|done]. by apply N.eqb_eq in E.
Qed.

Lemma greedy_last_nl (k : str -> str -> option A) (K : str -> option A)
    U V c X a :
  (forall m r, k m r = Re.lit [NL] K r) ->
  forallb is_space (U ++ NL :: V) = true -> (NL ∉ V) -> is_space c = false ->
  K (V ++ c :: X) = Some a ->
  Re.greedy is_space k (U ++ NL :: V ++ c :: X) = Some a.
Proof.
  intros Hk HUV Hnl Hc HK. revert k Hk.
  induction U as [|d U IH]; intros k Hk; cbn [app Re.greedy].
  - change (is_space NL) with true. cbv iota.
    cbn [app forallb] in HUV.
    rewrite (greedy_no_nl _ K V c X); [|intros m r; by rewrite Hk|done..].
    rewrite Hk. cbn [Re.lit]. by rewrite N.eqb_refl.
  - cbn [app forallb] in HUV. apply andb_true_iff in HUV as [Hd HUV].
    rewrite Hd. rewrite (IH HUV); [done|]. intros m r. by rewrite Hk.
Qed.
End Greedy.
End ShapedDocuments.

Section SpecShape.
Implicit Types (s t l tail body : str) (ls hdr rest blanks : list str)
  (meta : gmap str str).

Lemma join_cons_concat l ls :
  join [NL] (l :: ls) = l ++ concat ((fun x => NL :: x) <$> ls).
Proof.
  revert l. induction ls as [|l' ls IH]; intros l.
  - simpl. by rewrite app_nil_r.
  - change (join [NL] (l :: l' :: ls)) with (l ++ [NL] ++ join [NL] (l' :: ls)).
    rewrite IH. by rewrite fmap_cons.
Qed.

Lemma split_nl_join s : join [NL] (split_nl s) = s.
Proof.
  induction s as [|c s IH]; [done|]. cbn [split_nl].
  destruct (N.eqb_spec c NL) as [->|Hc].
  - destruct (split_nl s) as [|l ls] eqn:E; [by subst|].
    rewrite join_cons_concat. cbn [app fmap list_fmap concat].
    rewrite join_cons_concat in IH. cbn. by rewrite IH.
  - destruct (split_nl s) as [|l ls] eqn:E; [by subst|].
    rewrite join_cons_concat in *. cbn [app]. by rewrite IH.
Qed.

(** A text of the shape of the specification, written out. *)
Lemma spec_split_Some text hdr body :
  spec_split text = Some (hdr, body) ->
  exists tail,
    text = py "---" ++ concat ((fun x => NL :: x) <$> hdr) ++ DELIM ++ tail
    /\ (tail = [] /\ body = [] \/ tail = NL :: body).
Proof.
  unfold spec_split. intros H.
  pose proof (split_nl_join text) as Ht.
  destruct (split_nl text) as [|l0 ls]; [done|].
  destruct (bool_decide_reflect (l0 = py "---")) as [->|]; [|done].
  destruct (list_find _ ls) as [[i x]|] eqn:Ef; [|done].
  injection H as <- <-.
  apply list_find_Some in Ef as (Hi & -> & _).
  rewrite <- (take_drop_middle ls i _ Hi) in Ht at 1.
  rewrite join_cons_concat, fmap_app, concat_app, fmap_cons in Ht.
  cbn [concat] in Ht.
  exists (concat ((fun x => NL :: x) <$> drop (S i) ls)). split.
  - by rewrite <- Ht.
  - destruct (drop (S i) ls) as [|b B]; [by left|right].
    by rewrite join_cons_concat.
Qed.

Lemma after_blank_Some hdr rest :
  after_blank hdr = Some rest ->
  exists blanks l,
    hdr = blanks ++ l :: rest /\ Forall (fun b => blank b = true) blanks
    /\ blank l = false.
Proof.
  revert rest. induction hdr as [|l hdr IH]; intros rest; [done|]. simpl.
  destruct (blank l) eqn:El.
  - intros (blanks & l' & -> & Hb & Hl)%IH.
    exists (l :: blanks), l'. split; [done|]. split; [by constructor|done].
  - intros [= <-]. exists [], l. split; [done|]. split; [constructor|done].
Qed.

Lemma plain_header_inv hdr :
  plain_header hdr = true ->
  Forall no_linebreak hdr
  /\ exists blanks l rest,
       hdr = blanks ++ l :: rest /\ Forall (fun b => blank b = true) blanks
       /\ blank l = false
       /\ Forall (fun r => ¬ (py "---" `prefix_of` r)) rest.
Proof.
  unfold plain_header. intros [H1 H2]%andb_true_iff. split.
  - apply Forall_forall. intros l Hl. apply Forall_forall. intros c Hc.
    rewrite forallb_forall in H1. apply list_elem_of_In in Hl.
    specialize (H1 l Hl). rewrite forallb_forall in H1.
    apply list_elem_of_In in Hc. specialize (H1 c Hc).
    by apply negb_true_iff in H1.
  - destruct (after_blank hdr) as [rest|] eqn:E; [|done].
    apply after_blank_Some in E as (blanks & l & -> & Hb & Hl).
    exists blanks, l, rest. split; [done|]. split; [done|]. split; [done|].
    apply Forall_forall. intros r Hr. rewrite forallb_forall in H2.
    apply list_elem_of_In in Hr. specialize (H2 r Hr).
    apply negb_true_iff in H2. intros Hp. apply startswith_prefix in Hp.
    congruence.
Qed.

Lemma no_linebreak_nl l : no_linebreak l -> NL ∉ l.
Proof.
  intros H Hin. unfold no_linebreak in H. rewrite Forall_forall in H.
  by specialize (H NL Hin).
Qed.

(** A line that does not begin with three hyphens does not begin with
    them when a line feed and more text follow it. *)
Lemma line_no_hyphens l x :
  (NL ∉ l) -> ¬ (py "---" `prefix_of` l) -> ¬ (py "---" `prefix_of` (l ++ NL :: x)).
Proof.
  intros Hnl Hl [t Ht].
  destruct l as [|a [|b [|c l]]]; cbn in Ht.
  - by injection Ht.
  - by injection Ht.
  - by injection Ht.
  - injection Ht as -> -> -> _. apply Hl. by exists l.
Qed.

Lemma delim_free_lines l rest t :
  Forall no_linebreak (l :: rest) ->
  Forall (fun r => ¬ (py "---" `prefix_of` r)) rest ->
  delim_free (join [NL] (l :: rest)) (NL :: t).
Proof.
  intros Hnl Hr. inversion_clear Hnl as [|? ? Hl Hrest].
  destruct rest as [|r rest].
  - simpl. rewrite <- (app_nil_r l).
    apply delim_free_app; [done|apply delim_free_nil].
  - change (join [NL] (l :: r :: rest)) with (l ++ NL :: join [NL] (r :: rest)).
    apply delim_free_app; [done|]. apply delim_free_nl.
    + apply delim_free_join. apply Forall_forall. intros x Hx.
      rewrite Forall_forall in Hrest, Hr. split; [by apply Hrest|].
      intros y. apply line_no_hyphens; [|by apply Hr].
      apply no_linebreak_nl. by apply Hrest.
    + inversion_clear Hr as [|? ? Hr1 _]. inversion_clear Hrest as [|? ? Hn1 _].
      destruct rest as [|r' rest].
      * simpl. apply line_no_hyphens; [by apply no_linebreak_nl|done].
      * change (join [NL] (r :: r' :: rest))
          with (r ++ NL :: join [NL] (r' :: rest)).
        rewrite <- app_assoc. cbn [app].
        apply line_no_hyphens; [by apply no_linebreak_nl|done].
Qed.

Lemma blank_lines_space blanks :
  Forall (fun b => blank b = true) blanks ->
  forallb is_space (concat ((fun x => NL :: x) <$> blanks)) = true.
Proof.
  induction 1 as [|b blanks Hb _ IH]; [done|].
  rewrite fmap_cons. cbn [concat app forallb].
  change (is_space NL) with true. cbn [andb].
  rewrite forallb_app. unfold blank in Hb. by rewrite Hb, IH.
Qed.

Lemma header_line_blank meta b : blank b = true -> header_line meta b = meta.
Proof.
  intros Hb. unfold header_line.
  by rewrite header_entry_blank by (by apply strip_all_space).
Qed.

Lemma header_lines_blank meta blanks ls :
  Forall (fun b => blank b = true) blanks ->
  foldl header_line meta (blanks ++ ls) = foldl header_line meta ls.
Proof.
  intros H. revert meta. induction H as [|b blanks Hb _ IH]; intros meta; [done|].
  cbn [app foldl]. by rewrite header_line_blank, IH.
Qed.

(** The loop over the lines that [splitlines] finds in a block of lines
    without other line breaks is the loop over these lines. *)
Lemma header_lines_splitlines meta ls :
  Forall no_linebreak ls ->
  foldl header_line meta (splitlines (join [NL] ls)) = foldl header_line meta ls.
Proof.
  intros H. revert meta. induction H as [|l ls Hl Hls IH]; intros meta; [done|].
  destruct ls as [|l' ls].
  - cbn [join]. destruct l as [|c l]; [done|].
    by rewrite splitlines_single.
  - change (join [NL] (l :: l' :: ls)) with (l ++ NL :: join [NL] (l' :: ls)).
    rewrite splitlines_line by done. cbn [foldl]. apply IH.
Qed.

(** The pattern on a text of the shape of the specification with a plain
    header block. *)
Lemma frontmatter_plain blanks l rest tail :
  Forall (fun b => blank b = true) blanks -> blank l = false ->
  Forall no_linebreak (l :: rest) ->
  Forall (fun r => ¬ (py "---" `prefix_of` r)) rest ->
  Re.frontmatter
    (py "---" ++ concat ((fun x => NL :: x) <$> (blanks ++ l :: rest))
     ++ DELIM ++ tail)
  = Some (join [NL] (l :: rest), lstrip tail).
Proof.
  intros Hb Hl Hnl Hr.
  rewrite fmap_app, concat_app, fmap_cons. cbn [concat].
  set (U := concat ((fun x => NL :: x) <$> blanks)).
  assert (exists c, c ∈ l /\ is_space c = false) as (c & Hc & Hsp).
  { unfold blank in Hl. clear -Hl. induction l as [|d l IH]; [done|].
    cbn [forallb] in Hl. destruct (is_space d) eqn:Ed.
    - destruct (IH Hl) as (c & ? & ?). exists c. split; [by right|done].
    - exists d. split; [by left|done]. }
  destruct (nonspace_decompose l c Hc Hsp) as (W & d & T & El & HW & Hd).
  assert (NL ∉ W) as HnlW.
  { intros Hin. inversion_clear Hnl as [|? ? Hnl1 _].
    apply (no_linebreak_nl _ Hnl1). rewrite El. apply elem_of_app. by left. }
  pose proof (delim_free_lines l rest (py "---" ++ tail) Hnl Hr) as Hfree.
  replace (U ++ (NL :: l) ++ concat ((fun x => NL :: x) <$> rest))
    with (U ++ NL :: join [NL] (l :: rest))
    by (by rewrite join_cons_concat).
  set (yaml := join [NL] (l :: rest)) in *.
  assert (exists X, yaml = W ++ d :: X) as [X EX].
  { unfold yaml. rewrite join_cons_concat, El. eexists.
    by rewrite <- app_assoc. }
  unfold Re.frontmatter. rewrite lit_app.
  replace ((U ++ NL :: yaml) ++ DELIM ++ tail)
    with (U ++ NL :: W ++ d :: (X ++ DELIM ++ tail)).
  2:{ rewrite EX. rewrite <- !app_assoc. cbn [app]. by rewrite <- !app_assoc. }
  eapply greedy_last_nl; [done| |done|done|].
  { rewrite forallb_app. unfold U. rewrite blank_lines_space by done.
    cbn [forallb andb]. change (is_space NL) with true. by rewrite HW. }
  replace (W ++ d :: X ++ DELIM ++ tail) with (yaml ++ DELIM ++ tail)
    by (rewrite EX, <- app_assoc; done).
  apply lazy_first.
  - apply forallb_any.
  - intros m1 m2 E Hne. apply lit_mismatch. by apply (Hfree m1 m2).
  - unfold DELIM. rewrite lit_app. apply frontmatter_tail.
Qed.

(** On a text of the shape of the specification with a plain header
    block the parser reads the lines of the header block over the body
    without the white space around it. *)
Lemma parse_text_plain text hdr body :
  spec_split text = Some (hdr, body) -> plain_header hdr = true ->
  parse_text text = foldl header_line {[ BODY_KEY := strip body ]} hdr.
Proof.
  intros (tail & -> & Htail)%spec_split_Some
         (Hnl & blanks & l & rest & -> & Hb & Hl & Hr)%plain_header_inv.
  apply Forall_app in Hnl as [Hnlb Hnl].
  unfold parse_text. rewrite frontmatter_plain by done.
  rewrite header_lines_splitlines by done.
  rewrite header_lines_blank by done.
  rewrite strip_lstrip.
  destruct Htail as [[-> ->] | ->]; [done|].
  by rewrite (strip_spaces_l [NL] body eq_refl : strip (NL :: body) = strip body).
Qed.


End SpecShape.

Lemma parse_frontmatter_text p w s :
  files w !! p = Some (File (Text s)) ->
  parse_frontmatter p w = Ok (parse_text (universal_newlines s)) w.
Proof. intros Hp. unfold parse_frontmatter, read_text. by rewrite Hp. Qed.

(** C10, as the claim states it, fails.  A document with an empty header
    block has the two delimiter lines, yet the reserved key is bound to
    the whole document, delimiters included.  With a blank header block
    and a line of three hyphens in the body, the key is bound to what
    follows that line.  A header line that begins with three hyphens ends
    the header block, and the key is bound to what follows the hyphens on
    that line.  A form feed inside a header line breaks the line in two,
    and the second half binds the key. *)
Lemma body_key_not_stripped_body :
  (spec_split empty_header_doc = Some ([], py "Hello" ++ [NL])
   /\ parse_frontmatter doc_file (doc_world empty_header_doc)
      = Ok {[ BODY_KEY := empty_header_doc ]} (doc_world empty_header_doc))
  /\ (spec_split blank_header_doc
      = Some ([[]], py "A" ++ [NL] ++ py "---" ++ [NL] ++ py "B")
      /\ exists meta,
           parse_frontmatter doc_file (doc_world blank_header_doc)
           = Ok meta (doc_world blank_header_doc)
           /\ meta !! BODY_KEY = Some (py "B"))
  /\ (spec_split hyphen_line_doc
      = Some ([py "to: a"; py "---x"; py "cc: b"], py "Body" ++ [NL])
      /\ exists meta,
           parse_frontmatter doc_file (doc_world hyphen_line_doc)
           = Ok meta (doc_world hyphen_line_doc)
           /\ meta !! BODY_KEY
              = Some (py "x" ++ [NL] ++ py "cc: b" ++ [NL] ++ py "---"
                      ++ [NL] ++ py "Body")
           /\ meta !! py "cc" = None)
  /\ (spec_split form_feed_doc
      = Some ([py "a: b" ++ [12] ++ py "__body__: x"], py "B")
      /\ ¬ binds BODY_KEY (py "a: b" ++ [12] ++ py "__body__: x")
      /\ exists meta,
           parse_frontmatter doc_file (doc_world form_feed_doc)
           = Ok meta (doc_world form_feed_doc)
           /\ meta !! BODY_KEY = Some (py "x")).
Proof.
  split; [|split; [|split]].
  - split; [by vm_compute|].
    rewrite (parse_frontmatter_text _ _ empty_header_doc) by reflexivity.
    unfold parse_text.
    by replace (Re.frontmatter (universal_newlines empty_header_doc))
      with (@None (str * str)) by (by vm_compute).
  - split; [by vm_compute|]. eexists. split.
    + by apply (parse_frontmatter_text _ _ blank_header_doc).
    + by vm_compute.
  - split; [by vm_compute|]. eexists. split.
    + by apply (parse_frontmatter_text _ _ hyphen_line_doc).
    + split; by vm_compute.
  - split; [by vm_compute|]. split.
    + intros [v Hv]. by vm_compute in Hv.
    + eexists. split.
      * by apply (parse_frontmatter_text _ _ form_feed_doc).
      * by vm_compute.
Qed.

(** C10, amended.  For every file that holds text the parser returns a
    mapping that binds the reserved key [__body__].  When the text has
    the shape delimiter line, header block, delimiter line, body, with a
    header block of plain lines, the key is bound to the body without its
    leading and trailing white space if no header line binds the key, and
    to the value of the last header line that binds it otherwise. *)
Theorem parse_frontmatter_body_key (p : Path) (w : world) (s : str) :
  files w !! p = Some (File (Text s)) ->
  exists meta,
    parse_frontmatter p w = Ok meta w
    /\ is_Some (meta !! BODY_KEY)
    /\ forall hdr body,
         spec_split (universal_newlines s) = Some (hdr, body) ->
         plain_header hdr = true ->
         (Forall (fun l => ¬ binds BODY_KEY l) hdr ->
            meta !! BODY_KEY = Some (strip body))
         /\ (forall ls1 l ls2 v,
               hdr = ls1 ++ l :: ls2 ->
               header_entry l = Some (BODY_KEY, v) ->
               Forall (fun l => ¬ binds BODY_KEY l) ls2 ->
               meta !! BODY_KEY = Some v).
Proof.
  intros Hp. exists (parse_text (universal_newlines s)).
  split; [by apply parse_frontmatter_text|].
  split; [apply parse_text_has_body|].
  intros hdr body Hs Hplain. rewrite (parse_text_plain _ _ _ Hs Hplain). split.
  - intros Hno. rewrite header_lines_other by done. apply lookup_singleton_eq.
  - intros ls1 l ls2 v -> Hl H2. by apply header_lines_last.
Qed.

Lemma parse_frontmatter_body_key_witness :
  (exists meta,
     parse_frontmatter doc_file (doc_world untidy_doc)
     = Ok meta (doc_world untidy_doc)
     /\ meta !! BODY_KEY = Some (py "Hello"))
  /\ (exists meta,
        parse_frontmatter doc_file (doc_world body_key_doc)
        = Ok meta (doc_world body_key_doc)
        /\ meta !! BODY_KEY = Some (py "mine")).
Proof.
  split.
  - destruct (parse_frontmatter_body_key doc_file (doc_world untidy_doc)
                untidy_doc eq_refl) as (meta & Hrun & _ & H).
    exists meta. split; [exact Hrun|].
    destruct (H [py "type: email"; []; py "# a comment";
                 py "no separator here"; py "from: 'bob'"]
                ([NL] ++ py "Hello " ++ [NL]) eq_refl eq_refl) as [H1 _].
    apply H1. apply not_binds_check. vm_compute. reflexivity.
  - destruct (parse_frontmatter_body_key doc_file (doc_world body_key_doc)
                body_key_doc eq_refl) as (meta & Hrun & _ & H).
    exists meta. split; [exact Hrun|].
    destruct (H [py "type: note"; py "__body__: mine"]
                (py "  the text  " ++ [NL]) eq_refl eq_refl) as [_ H2].
    apply (H2 [py "type: note"] (py "__body__: mine") []); [done|done|].
    constructor.
Defined.




(* ================================================================== *)
(** * The file tree                                                     *)
(* ================================================================== *)

Section TreeFacts.
Implicit Types (f : fs) (p q d : Path) (n : node).

Lemma child_inj p q (a b : str) : p // a = q // b -> p = q /\ a = b.
Proof. unfold child. intros H. by apply app_inj_tail in H. Qed.

Lemma parent_child p (a : str) : parent (p // a) = p.
Proof.
  unfold parent, child. rewrite length_app. simpl.
  replace (pred (length p + 1)) with (length p) by lia.
  apply take_app_length.
Qed.


Lemma child_not_nil p (a : str) : p // a <> [].
Proof. unfold child. by destruct p. Qed.

Lemma exists_child f p (a : str) :
  exists_ f (p // a) = bool_decide (is_Some (f !! (p // a))).
Proof. unfold exists_, child. by destruct p. Qed.

Lemma exists_true f p : p <> [] -> exists_ f p = true <-> is_Some (f !! p).
Proof. destruct p; [done|]. intros _. simpl. apply bool_decide_eq_true. Qed.

Lemma exists_false f p : p <> [] -> exists_ f p = false <-> f !! p = None.
Proof.
  destruct p; [done|]. intros _. simpl.
  rewrite bool_decide_eq_false, <- eq_None_not_Some. done.
Qed.

Lemma is_dir_false_absent f p : p <> [] -> f !! p = None -> is_dir f p = false.
Proof.
  destruct p; [done|]. intros _ H. simpl. rewrite H.
  by apply bool_decide_eq_false.
Qed.

(** What [mkdir] with parents does: it keeps every node, it adds only
    directories, and these lie on the way to the directory asked for;
    afterwards all of that way is made of directories. *)
Lemma mkdir_from_keeps pre todo f f' p n :
  mkdir_from pre todo f = inr f' -> f !! p = Some n -> f' !! p = Some n.
Proof.
  revert pre f. induction todo as [|c todo IH]; intros pre f; simpl.
  - by intros [= <-].
  - destruct (f !! (pre // c)) as [[x|]|] eqn:E.
    + by destruct todo.
    + apply IH.
    + intros H Hp. eapply IH; [done|].
      rewrite lookup_insert_ne; [done|]. intros <-. congruence.
Qed.

Lemma mkdir_from_new pre todo f f' p n :
  mkdir_from pre todo f = inr f' -> f' !! p = Some n ->
  f !! p = Some n
  \/ (n = Dir /\ exists t1 t2, todo = t1 ++ t2 /\ t1 <> [] /\ p = pre ++ t1).
Proof.
  revert pre f. induction todo as [|c todo IH]; intros pre f; simpl.
  - intros [= <-]. by left.
  - destruct (f !! (pre // c)) as [[x|]|] eqn:E.
    + by destruct todo.
    + intros H Hp. destruct (IH _ _ H Hp) as [?|(-> & t1 & t2 & -> & Ht & ->)].
      * by left.
      * right. split; [done|]. exists (c :: t1), t2.
        unfold child. by rewrite <- app_assoc.
    + intros H Hp. destruct (IH _ _ H Hp) as [Hl|(-> & t1 & t2 & -> & Ht & ->)].
      * destruct (decide (pre // c = p)) as [<-|Hne].
        -- rewrite lookup_insert_eq in Hl. injection Hl as <-.
           right. split; [done|]. by exists [c], todo.
        -- rewrite lookup_insert_ne in Hl by done. by left.
      * right. split; [done|]. exists (c :: t1), t2.
        unfold child. by rewrite <- app_assoc.
Qed.

Lemma mkdir_from_dirs pre todo f f' t1 t2 :
  mkdir_from pre todo f = inr f' -> todo = t1 ++ t2 -> t1 <> [] ->
  f' !! (pre ++ t1) = Some Dir.
Proof.
  revert pre f t1. induction todo as [|c todo IH]; intros pre f t1; simpl.
  - intros _ E. symmetry in E. by apply app_eq_nil in E as [-> _].
  - intros H E Ht. destruct t1 as [|c' t1]; [done|]. injection E as <- ->.
    destruct (decide (t1 = [])) as [->|Hne].
    + destruct (f !! (pre // c)) as [[x|]|] eqn:E.
      * by destruct t2.
      * eapply mkdir_from_keeps; done.
      * eapply mkdir_from_keeps; [done|]. apply lookup_insert_eq.
    + rewrite (cons_middle c pre t1), app_assoc.
      destruct (f !! (pre // c)) as [[x|]|] eqn:E.
      * by destruct t1.
      * by eapply IH.
      * by eapply IH.
Qed.

Lemma mkdir_from_again pre todo f :
  (forall t1 t2, todo = t1 ++ t2 -> t1 <> [] -> f !! (pre ++ t1) = Some Dir) ->
  mkdir_from pre todo f = inr f.
Proof.
  revert pre. induction todo as [|c todo IH]; intros pre H; simpl; [done|].
  pose proof (H [c] todo eq_refl ltac:(done)) as Hc.
  change (pre ++ [c]) with (pre // c) in Hc. rewrite Hc. apply IH.
  intros t1 t2 -> Ht. unfold child. rewrite <- app_assoc.
  by apply (H (c :: t1) t2).
Qed.

Lemma mkdir_p_is_dir d f f' : mkdir_p d f = inr f' -> is_dir f' d = true.
Proof.
  unfold mkdir_p. intros H. destruct d as [|c d]; [done|]. simpl.
  apply bool_decide_eq_true.
  by apply (mkdir_from_dirs [] (c :: d) f f' (c :: d) []);
    [|rewrite app_nil_r|].
Qed.

(** A path one step below the directory asked for is not touched. *)
Lemma mkdir_p_child d (a : str) f f' :
  mkdir_p d f = inr f' -> f' !! (d // a) = f !! (d // a).
Proof.
  unfold mkdir_p. intros H.
  destruct (f' !! (d // a)) as [n|] eqn:E.
  - destruct (mkdir_from_new _ _ _ _ _ _ H E) as [?|(_ & t1 & t2 & -> & _ & Hp)];
      [done|].
    simpl in Hp. unfold child in Hp. apply (f_equal length) in Hp.
    rewrite !length_app in Hp. simpl in Hp. lia.
  - destruct (f !! (d // a)) as [n|] eqn:E'; [|done].
    pose proof (mkdir_from_keeps _ _ _ _ _ _ H E'). congruence.
Qed.

(** [shutil.move] of a regular file onto a free name in a directory. *)
Lemma shutil_move_file src d (a : str) f c :
  f !! src = Some (File c) -> is_dir f d = true -> f !! (d // a) = None ->
  shutil_move src (d // a) f = inr (<[d // a := File c]> (delete src f)).
Proof.
  intros Hsrc Hd Ha. unfold shutil_move.
  rewrite (is_dir_false_absent f (d // a)) by (done || apply child_not_nil).
  simpl. by rewrite parent_child, Hd, Hsrc.
Qed.
End TreeFacts.

(* ================================================================== *)
(** * Moving a record                                                   *)
(* ================================================================== *)

Section MoveFacts.
Implicit Types (f : fs) (src dest_dir dest p : Path) (w : world).

Lemma py_inj s1 s2 : py s1 = py s2 -> s1 = s2.
Proof.
  unfold py. intros H.
  rewrite <- (string_of_list_ascii_of_string s1),
          <- (string_of_list_ascii_of_string s2).
  f_equal. revert H.
  generalize (list_ascii_of_string s1) (list_ascii_of_string s2).
  induction l as [|a l IH]; intros [|b l']; try done.
  rewrite !fmap_cons. intros [= Hab Hl]. f_equal; [|by apply IH].
  rewrite <- (ascii_N_embedding a), <- (ascii_N_embedding b). by f_equal.
Qed.

Lemma str_of_nat_inj j k : str_of_nat j = str_of_nat k -> j = k.
Proof. unfold str_of_nat. intros H. apply py_inj in H. by apply (inj pretty). Qed.

Lemma candidate_inj src dest_dir j k :
  candidate src dest_dir j = candidate src dest_dir k -> j = k.
Proof.
  unfold candidate. intros H. apply child_inj in H as [_ H].
  apply app_inv_head in H. apply app_inv_head in H.
  apply app_inv_tail in H. by apply str_of_nat_inj.
Qed.

(** What the loop returns is free, and it is the first name or the
    first free candidate. *)
Lemma free_dest_sound fuel f src dest_dir dest counter d :
  free_dest fuel f src dest_dir dest counter = Some d ->
  exists_ f d = false
  /\ (d = dest
      \/ (exists_ f dest = true
          /\ exists k, (counter <= k)%nat /\ d = candidate src dest_dir k
             /\ forall j, (counter <= j < k)%nat ->
                  exists_ f (candidate src dest_dir j) = true)).
Proof.
  revert dest counter. induction fuel as [|fuel IH]; intros dest counter; [done|].
  simpl. destruct (exists_ f dest) eqn:E.
  - intros H. apply IH in H as [Hd Hor]. split; [done|]. right. split; [done|].
    destruct Hor as [->|(Hc & k & Hk & -> & Hj)].
    + exists counter. split; [lia|]. split; [done|]. intros j Hlt. lia.
    + exists k. split; [lia|]. split; [done|]. intros j Hlt.
      destruct (decide (j = counter)) as [->|]; [done|]. apply Hj. lia.
  - intros [= <-]. split; [done|]. by left.
Qed.

(** Distinct candidates cannot all exist: with more turns than there are
    candidates in the tree, the loop finds a free one. *)
Lemma free_candidate_enough (fuel : nat) f src dest_dir (X : gset Path)
    (k : nat) :
  (size X < fuel)%nat ->
  (forall j, (k <= j)%nat -> exists_ f (candidate src dest_dir j) = true ->
             candidate src dest_dir j ∈ X) ->
  is_Some (free_dest fuel f src dest_dir (candidate src dest_dir k) (S k)).
Proof.
  revert X k. induction fuel as [|fuel IH]; intros X k Hsize HX; [lia|].
  simpl. destruct (exists_ f (candidate src dest_dir k)) eqn:E; [|done].
  apply (IH (X ∖ {[candidate src dest_dir k]})).
  - assert (candidate src dest_dir k ∈ X) as Hin by (apply HX; [lia|done]).
    pose proof (size_difference X {[candidate src dest_dir k]}) as Hd.
    rewrite size_singleton in Hd.
    assert (size X <> 0)%nat.
    { intros H0. apply size_empty_inv in H0. set_solver. }
    rewrite Hd by set_solver. lia.
  - intros j Hj Hex. apply elem_of_difference. split; [apply HX; [lia|done]|].
    intros Heq%elem_of_singleton%candidate_inj. lia.
Qed.

Lemma free_dest_total f src dest_dir dest :
  is_Some (free_dest (S (S (size f))) f src dest_dir dest 1).
Proof.
  change (is_Some (if exists_ f dest
                   then free_dest (S (size f)) f src dest_dir
                          (candidate src dest_dir 1) 2
                   else Some dest)).
  destruct (exists_ f dest); [|done].
  apply (free_candidate_enough _ _ _ _ (dom f)).
  - rewrite size_dom. lia.
  - intros j _ H. apply elem_of_dom. apply exists_true; [|done].
    apply child_not_nil.
Qed.

(** One move of a regular file into a directory that can be made. *)
Lemma move_file_spec w src dest_dir prefix c f1 :
  files w !! src = Some (File c) ->
  mkdir_p dest_dir (files w) = inr f1 ->
  exists dest,
    move_file src dest_dir prefix w
    = Ok dest {| files := <[dest := File c]> (delete src f1);
                 sent := sent w; ticks := ticks w;
                 log := LogMoved (name src) dest :: log w |}
    /\ f1 !! dest = None
    /\ parent dest = dest_dir
    /\ (dest = dest_dir // (prefix ++ name src)
        \/ (is_Some (f1 !! (dest_dir // (prefix ++ name src)))
            /\ exists k, (1 <= k)%nat /\ dest = candidate src dest_dir k
               /\ forall j, (1 <= j < k)%nat ->
                    is_Some (f1 !! candidate src dest_dir j))).
Proof.
  intros Hsrc Hmk. unfold move_file, bind, lift_fs, get_files. rewrite Hmk.
  cbn [files set_files].
  destruct (free_dest_total f1 src dest_dir (dest_dir // (prefix ++ name src)))
    as [dest Hd].
  rewrite Hd. apply free_dest_sound in Hd as [Hfree Hor].
  assert (exists a, dest = dest_dir // a) as [a ->].
  { destruct Hor as [->|(_ & k & _ & -> & _)]; by eexists. }
  apply exists_false in Hfree; [|apply child_not_nil].
  exists (dest_dir // a). cbn [files set_files].
  rewrite (shutil_move_file src dest_dir a f1 c);
    [|by eapply mkdir_from_keeps|by eapply mkdir_p_is_dir|done].
  split; [done|]. split; [done|]. split; [apply parent_child|].
  destruct Hor as [?|(Hex & k & Hk & Hc & Hj)]; [by left|right].
  split; [by apply exists_true in Hex; [|apply child_not_nil]|].
  exists k. split; [done|]. split; [done|]. intros j Hjk.
  apply exists_true; [apply child_not_nil|by apply Hj].
Qed.
End MoveFacts.

(** C4.  A move of a regular file into a directory that can be made
    returns, with or without a prefix.  The name it moves to was free, so
    no node of the tree is replaced: every node but the source is as
    before, and the source content is at the new name.  The new name is
    the destination name when that is free, and otherwise the first
    candidate (stem, underscore, counter from one upwards, suffix) that is
    free.  Two distinct records moved one after the other into one
    directory therefore end as two distinct files, each with its own
    content. *)
Theorem move_file_never_overwrites :
  (forall w src dest_dir prefix c f1,
      files w !! src = Some (File c) ->
      mkdir_p dest_dir (files w) = inr f1 ->
      exists dest w',
        move_file src dest_dir prefix w = Ok dest w'
        /\ files w !! dest = None
        /\ files w' !! dest = Some (File c)
        /\ files w' !! src = None
        /\ (forall p n, p <> src -> files w !! p = Some n ->
                        files w' !! p = Some n)
        /\ (dest = dest_dir // (prefix ++ name src)
            \/ (is_Some (files w !! (dest_dir // (prefix ++ name src)))
                /\ exists k, (1 <= k)%nat /\ dest = candidate src dest_dir k
                   /\ forall j, (1 <= j < k)%nat ->
                        is_Some (files w !! candidate src dest_dir j))))
  /\ (forall w src1 src2 dest_dir prefix c1 c2 f1,
      src1 <> src2 ->
      files w !! src1 = Some (File c1) ->
      files w !! src2 = Some (File c2) ->
      mkdir_p dest_dir (files w) = inr f1 ->
      exists d1 w1 d2 w2,
        move_file src1 dest_dir prefix w = Ok d1 w1
        /\ move_file src2 dest_dir prefix w1 = Ok d2 w2
        /\ d1 <> d2
        /\ files w2 !! d1 = Some (File c1)
        /\ files w2 !! d2 = Some (File c2)
        /\ (forall p n, p <> src1 -> p <> src2 -> files w !! p = Some n ->
                        files w2 !! p = Some n)).
Proof.
  assert (forall w src dest_dir prefix c f1,
      files w !! src = Some (File c) ->
      mkdir_p dest_dir (files w) = inr f1 ->
      exists dest w',
        move_file src dest_dir prefix w = Ok dest w'
        /\ files w' = <[dest := File c]> (delete src f1)
        /\ f1 !! dest = None
        /\ files w !! dest = None
        /\ files w' !! dest = Some (File c)
        /\ files w' !! src = None
        /\ (forall p n, p <> src -> files w !! p = Some n ->
                        files w' !! p = Some n)
        /\ (dest = dest_dir // (prefix ++ name src)
            \/ (is_Some (files w !! (dest_dir // (prefix ++ name src)))
                /\ exists k, (1 <= k)%nat /\ dest = candidate src dest_dir k
                   /\ forall j, (1 <= j < k)%nat ->
                        is_Some (files w !! candidate src dest_dir j)))) as One.
  { intros w src dest_dir prefix c f1 Hsrc Hmk.
    destruct (move_file_spec w src dest_dir prefix c f1 Hsrc Hmk)
      as (dest & Hmove & Hfree & Hpar & Hor).
    pose proof (mkdir_from_keeps _ _ _ _ _ _ Hmk Hsrc) as Hsrc1.
    assert (dest <> src) as Hne by (intros ->; congruence).
    eexists dest, _. split; [exact Hmove|]. cbn [files].
    split; [done|]. split; [done|]. split.
    { destruct (files w !! dest) as [n|] eqn:E; [|done].
      pose proof (mkdir_from_keeps _ _ _ _ _ _ Hmk E). congruence. }
    split; [apply lookup_insert_eq|]. split.
    { rewrite lookup_insert_ne by done. apply lookup_delete_eq. }
    split.
    { intros p n Hp Hn. pose proof (mkdir_from_keeps _ _ _ _ _ _ Hmk Hn) as Hn1.
      rewrite lookup_insert_ne by (intros ->; congruence).
      by rewrite lookup_delete_ne. }
    destruct Hor as [?|(Hex & k & Hk & Hc & Hj)]; [by left|right].
    rewrite (mkdir_p_child _ _ _ _ Hmk) in Hex. split; [done|].
    exists k. split; [done|]. split; [done|]. intros j Hjk.
    unfold candidate. rewrite <- (mkdir_p_child _ _ _ _ Hmk). by apply Hj. }
  split.
  { intros w src dest_dir prefix c f1 Hsrc Hmk.
    destruct (One w src dest_dir prefix c f1 Hsrc Hmk)
      as (dest & w' & H1 & _ & _ & H2). by exists dest, w'. }
  intros w src1 src2 dest_dir prefix c1 c2 f1 Hne H1 H2 Hmk.
  destruct (One w src1 dest_dir prefix c1 f1 H1 Hmk)
    as (d1 & w1 & Hm1 & Hf1 & Hfree & Hfree1 & Hd1 & Hs1 & Hkeep1 & _).
  assert (mkdir_p dest_dir (files w1) = inr (files w1)) as Hmk1.
  { apply mkdir_from_again. intros t1 t2 E Ht.
    pose proof (mkdir_from_dirs _ _ _ _ t1 t2 Hmk E Ht) as Hdir.
    pose proof (mkdir_from_keeps _ _ _ _ _ _ Hmk H1) as Hsrc1.
    change ([] ++ t1) with t1 in *. rewrite Hf1.
    rewrite lookup_insert_ne by (intros <-; congruence).
    rewrite lookup_delete_ne by (intros <-; congruence). done. }
  assert (files w1 !! src2 = Some (File c2)) as H2' by by apply Hkeep1.
  destruct (One w1 src2 dest_dir prefix c2 (files w1) H2' Hmk1)
    as (d2 & w2 & Hm2 & _ & _ & Hfree2 & Hd2 & Hs2 & Hkeep2 & _).
  exists d1, w1, d2, w2. split; [done|]. split; [done|].
  split; [intros ->; congruence|].
  split; [apply Hkeep2; [intros ->; congruence|done]|].
  split; [done|].
  intros p n Hp1 Hp2 Hn. apply Hkeep2; [done|]. by apply Hkeep1.
Qed.

Lemma move_file_never_overwrites_witness :
  exists d1 w1 d2 w2,
    move_file (folder "Needs_Action" // py "report.md") (folder "Done") []
      two_reports_world = Ok d1 w1
    /\ move_file (folder "Approved" // py "report.md") (folder "Done") [] w1
       = Ok d2 w2
    /\ d1 <> d2
    /\ files w2 !! d1 = Some (File (Text (py "first")))
    /\ files w2 !! d2 = Some (File (Text (py "second")))
    /\ (forall p n,
          p <> folder "Needs_Action" // py "report.md" ->
          p <> folder "Approved" // py "report.md" ->
          files two_reports_world !! p = Some n -> files w2 !! p = Some n).
Proof.
  apply (proj2 move_file_never_overwrites two_reports_world _ _ (folder "Done") []
           _ _ (<[folder "Done" := Dir]> (files two_reports_world))).
  - discriminate.
  - reflexivity.
  - reflexivity.
  - reflexivity.
Defined.

(* ================================================================== *)
(** * Running code in the world                                         *)
(* ================================================================== *)

Section MonadFacts.
Context {A B : Type}.
Implicit Types (k : A -> M B) (w : world).

Lemma bind_Ok (m : M A) k w a w' : m w = Ok a w' -> bind m k w = k a w'.
Proof. unfold bind. by intros ->. Qed.

Lemma bind_Raise (m : M A) k w e w' :
  m w = Raise e w' -> bind m k w = Raise e w'.
Proof. unfold bind. by intros ->. Qed.

Lemma bind_ret (a : A) k w : bind (ret a) k w = k a w.
Proof. done. Qed.

Lemma bind_assoc {C} (m : M C) (h : C -> M A) k w :
  bind (bind m h) k w = bind m (fun x => bind (h x) k) w.
Proof. unfold bind. by destruct (m w). Qed.
End MonadFacts.

Lemma bind_logger {B} r (k : unit -> M B) w :
  bind (logger r) k w
  = k tt {| files := files w; sent := sent w; ticks := ticks w;
            log := r :: log w |}.
Proof. done. Qed.

Lemma bind_get_files {B} (k : fs -> M B) w : bind get_files k w = k (files w) w.
Proof. done. Qed.


Lemma bind_lift_fs_raise {B} op (k : unit -> M B) w e :
  op (files w) = inl e -> bind (lift_fs op) k w = Raise e w.
Proof. unfold bind, lift_fs. by intros ->. Qed.

Lemma bind_datetime_now {B} now (k : datetime -> M B) w :
  bind (datetime_now now) k w
  = k (now (ticks w))
      {| files := files w; sent := sent w; ticks := S (ticks w);
         log := log w |}.
Proof. done. Qed.

Lemma bind_post {B} r (k : unit -> M B) w :
  bind (post r) k w
  = k tt {| files := files w; sent := r :: sent w; ticks := ticks w;
            log := log w |}.
Proof. done. Qed.

(** A run that returns, and a decidable property of the world it leaves:
    both are settled by one evaluation. *)
Lemma run_ok_checked (m : M unit) (w : world) (P : world -> Prop)
    `{!forall w', Decision (P w')} :
  match m w with Ok _ w' => bool_decide (P w') | Raise _ _ => false end = true ->
  exists w', m w = Ok tt w' /\ P w'.
Proof.
  destruct (m w) as [[] w'|e w']; [|discriminate].
  intros Hb. exists w'. split; [reflexivity|].
  exact (bool_decide_eq_true_1 _ Hb).
Qed.


(* ================================================================== *)
(** * Routing a failed task                                             *)
(* ================================================================== *)

Section FailureRouting.
Variable now : nat -> datetime.
Variable claude : Path -> fs -> fs * bool.



End FailureRouting.




(* ================================================================== *)
(** * The send-email executor                                           *)
(* ================================================================== *)

Section SentFacts.
Context {A B : Type}.

Lemma keeps_sent_ret (a : A) : keeps_sent (ret a).
Proof. done. Qed.

Lemma keeps_sent_bind (m : M A) (k : A -> M B) :
  keeps_sent m -> (forall a, keeps_sent (k a)) -> keeps_sent (bind m k).
Proof.
  intros Hm Hk w. unfold bind. specialize (Hm w).
  destruct (m w) as [a w'|e w']; simpl in *; [|done].
  by rewrite Hk.
Qed.

Lemma keeps_sent_try (m h : M A) :
  keeps_sent m -> keeps_sent h -> keeps_sent (try_except m h).
Proof.
  intros Hm Hh w. unfold try_except. specialize (Hm w).
  destruct (m w) as [a w'|e w']; simpl in *; [done|]. by rewrite Hh.
Qed.
End SentFacts.

Lemma keeps_sent_logger r : keeps_sent (logger r).
Proof. done. Qed.

Lemma keeps_sent_lift_fs op : keeps_sent (lift_fs op).
Proof. intros w. unfold lift_fs. by destruct (op (files w)). Qed.

Lemma keeps_sent_datetime_now now : keeps_sent (datetime_now now).
Proof. done. Qed.

Lemma keeps_sent_log_action_result lower now source_file result action_type details :
  keeps_sent (_log_action_result lower now source_file result action_type details).
Proof.
  unfold _log_action_result.
  apply keeps_sent_bind; [apply keeps_sent_datetime_now|]. intros ts.
  apply keeps_sent_bind; [apply keeps_sent_lift_fs|]. intros _.
  apply keeps_sent_ret.
Qed.

Lemma nonempty_strip s : nonempty (strip s) = true -> s <> [].
Proof. by intros H ->. Qed.

(** What the executor does after validation, the test on the address and
    the dry-run test: it posts, and then issues no further request. *)
Lemma send_email_after_post lower now urlopen url approved_file meta w :
  email_valid meta = true -> loopback_only url = true ->
  sent (world_of (_action_send_email lower now urlopen url approved_file meta
                    false w))
  = email_payload url meta :: sent w.
Proof.
  unfold email_valid, loopback_only, email_to, email_subject, email_body.
  intros Hv Hl. repeat (apply andb_true_iff in Hv as [Hv ?]).
  unfold _action_send_email.
  destruct (nonempty (strip (get meta "to" []))); [|done].
  destruct (nonempty (strip (get meta "subject" []))); [|done].
  destruct (nonempty (if nonempty (strip (get meta "body" []))
                      then strip (get meta "body" [])
                      else strip (get meta "__body__" []))); [|done].
  cbn [app]. rewrite H. cbn [negb].
  apply orb_true_iff in Hl.
  assert (negb (contains (py "127.0.0.1") url)
          && negb (contains (py "localhost") url) = false) as ->.
  { destruct Hl as [-> | ->]; [done|]. apply andb_false_r. }
  rewrite bind_post.
  fold (email_to meta) (email_subject meta) (email_body meta).
  fold (email_payload url meta).
  match goal with
  | |- sent (world_of (?m ?w0)) = _ =>
      assert (keeps_sent m) as Hk; [|by rewrite Hk]
  end.
  destruct (urlopen (email_payload url meta)) as [ok mid err|code eb reason|reason|].
  - apply keeps_sent_try.
    + destruct ok; (apply keeps_sent_bind;
        [apply keeps_sent_log_action_result|intros; apply keeps_sent_ret]).
    + apply keeps_sent_bind;
        [apply keeps_sent_log_action_result|intros; apply keeps_sent_ret].
  - apply keeps_sent_bind;
      [apply keeps_sent_log_action_result|intros; apply keeps_sent_ret].
  - apply keeps_sent_bind;
      [apply keeps_sent_log_action_result|intros; apply keeps_sent_ret].
  - apply keeps_sent_bind;
      [apply keeps_sent_log_action_result|intros; apply keeps_sent_ret].
Qed.

(** When validation or the test on the address fails, the executor
    returns failure and has written one log record, nothing else. *)
Lemma send_email_refused lower now urlopen url approved_file meta dry w :
  email_valid meta && loopback_only url = false ->
  exists r,
    _action_send_email lower now urlopen url approved_file meta dry w
    = Ok false {| files := files w; sent := sent w; ticks := ticks w;
                  log := r :: log w |}.
Proof.
  unfold email_valid, loopback_only, email_to, email_subject, email_body.
  unfold _action_send_email. intros Hv.
  destruct (nonempty (strip (get meta "to" []))); [|by eexists].
  destruct (nonempty (strip (get meta "subject" []))); [|by eexists].
  destruct (nonempty (if nonempty (strip (get meta "body" []))
                      then strip (get meta "body" [])
                      else strip (get meta "__body__" []))); [|by eexists].
  cbn [app andb] in *.
  destruct (contains [AT] (strip (get meta "to" []))); [|by eexists].
  cbn [negb andb] in *. apply orb_false_iff in Hv as [-> ->].
  cbn [negb andb]. by eexists.
Qed.

Lemma send_email_dry_run lower now urlopen url approved_file meta w :
  email_valid meta = true -> loopback_only url = true ->
  _action_send_email lower now urlopen url approved_file meta true w
  = Ok true {| files := files w; sent := sent w; ticks := ticks w;
               log := LogDryRunPost (email_payload url meta) :: log w |}.
Proof.
  unfold email_valid, loopback_only, email_to, email_subject, email_body.
  intros Hv Hl. repeat (apply andb_true_iff in Hv as [Hv ?]).
  unfold _action_send_email.
  destruct (nonempty (strip (get meta "to" []))); [|done].
  destruct (nonempty (strip (get meta "subject" []))); [|done].
  destruct (nonempty (if nonempty (strip (get meta "body" []))
                      then strip (get meta "body" [])
                      else strip (get meta "__body__" []))); [|done].
  cbn [app]. rewrite H. cbn [negb].
  apply orb_true_iff in Hl.
  assert (negb (contains (py "127.0.0.1") url)
          && negb (contains (py "localhost") url) = false) as ->.
  { destruct Hl as [-> | ->]; [done|]. apply andb_false_r. }
  by rewrite bind_logger.
Qed.

Lemma email_valid_fields meta :
  email_valid meta = true ->
  get meta "to" [] <> [] /\ get meta "subject" [] <> []
  /\ (get meta "body" [] <> [] \/ get meta "__body__" [] <> [])
  /\ AT ∈ get meta "to" [].
Proof.
  unfold email_valid, email_to, email_subject, email_body. intros Hv.
  repeat (apply andb_true_iff in Hv as [Hv ?]).
  split; [by apply nonempty_strip|]. split; [by apply nonempty_strip|]. split.
  - destruct (nonempty (strip (get meta "body" []))) eqn:E.
    + left. by apply nonempty_strip.
    + right. by apply nonempty_strip.
  - apply strip_elem. by apply contains_elem.
Qed.

(** X24.  The executor issues at most one request, and it issues one only
    when the fields to, subject and a body (the field body, else the body
    of the document) are not empty, to holds an at sign, the address of
    the server holds the text 127.0.0.1 or the text localhost, and the
    call is not a dry run; the request carries these fields.  When a
    validation fails or the address holds neither text, the call returns
    failure and no request has been issued, nor any file written. *)
Theorem send_email_only_when_valid lower now urlopen url approved_file meta
    dry w :
  let r := _action_send_email lower now urlopen url approved_file meta dry w in
  (sent (world_of r) = sent w
   \/ (sent (world_of r) = email_payload url meta :: sent w
       /\ email_valid meta = true /\ loopback_only url = true /\ dry = false
       /\ get meta "to" [] <> [] /\ get meta "subject" [] <> []
       /\ (get meta "body" [] <> [] \/ get meta "__body__" [] <> [])
       /\ AT ∈ get meta "to" []))
  /\ (email_valid meta = false \/ loopback_only url = false ->
      exists w', r = Ok false w' /\ sent w' = sent w /\ files w' = files w)
  /\ (email_valid meta = true -> loopback_only url = true -> dry = false ->
      sent (world_of r) = email_payload url meta :: sent w).
Proof.
  intros r. subst r.
  assert (email_valid meta = false \/ loopback_only url = false ->
          exists w', _action_send_email lower now urlopen url approved_file
                       meta dry w = Ok false w'
                     /\ sent w' = sent w /\ files w' = files w) as Hrefused.
  { intros H.
    destruct (send_email_refused lower now urlopen url approved_file meta dry w)
      as [rec ->].
    - destruct H as [-> | ->]; [done|apply andb_false_r].
    - by eexists. }
  split; [|split].
  - destruct (email_valid meta) eqn:Hv.
    + destruct (loopback_only url) eqn:Hl.
      * destruct dry.
        -- left. by rewrite send_email_dry_run.
        -- right. split; [by apply send_email_after_post|].
           destruct (email_valid_fields meta Hv) as (? & ? & ? & ?). done.
      * left. destruct Hrefused as (w' & -> & ? & _); [by right|done].
    + left. destruct Hrefused as (w' & -> & ? & _); [by left|done].
  - done.
  - intros Hv Hl ->. by apply send_email_after_post.
Qed.

Lemma send_email_only_when_valid_witness :
  (exists w', _action_send_email ascii_lower still_clock unreachable MCP_EMAIL_URL
                (folder "Approved" // py "bad.md") no_to_meta false empty_vault
              = Ok false w'
              /\ sent w' = [] /\ files w' = files empty_vault)
  /\ (exists w', _action_send_email ascii_lower still_clock unreachable
                   (py "http://mail.example.com/send-email")
                   (folder "Approved" // py "A.md") alice_meta false empty_vault
                 = Ok false w'
                 /\ sent w' = [] /\ files w' = files empty_vault)
  /\ sent (world_of (_action_send_email ascii_lower still_clock unreachable
                       MCP_EMAIL_URL (folder "Approved" // py "A.md")
                       alice_meta false empty_vault))
     = [email_payload MCP_EMAIL_URL alice_meta].
Proof.
  split; [|split].
  - apply (send_email_only_when_valid ascii_lower still_clock unreachable
             MCP_EMAIL_URL (folder "Approved" // py "bad.md") no_to_meta false
             empty_vault).
    left. reflexivity.
  - apply (send_email_only_when_valid ascii_lower still_clock unreachable
             (py "http://mail.example.com/send-email")
             (folder "Approved" // py "A.md") alice_meta false empty_vault).
    right. reflexivity.
  - apply (send_email_only_when_valid ascii_lower still_clock unreachable
             MCP_EMAIL_URL (folder "Approved" // py "A.md") alice_meta false
             empty_vault); reflexivity.
Defined.


(* ================================================================== *)
(** * Dispatch on the action type                                       *)
(* ================================================================== *)


Section DispatchFacts.
Variable lower : str -> str.
Variable now : nat -> datetime.
Variable urlopen : request -> http_outcome.
Variable mcp_email_url : str.




End DispatchFacts.




(* ================================================================== *)
(** * The approval handler                                              *)
(* ================================================================== *)

(** C2.  The handler on the directive without recipient: the action fails
    at validation, the record stays in Approved and one alert is written
    to Needs_Action, but the only entry in Logs is the one of the approval
    itself; no entry for the failed action is written.  On the record
    without action the handler succeeds and moves the record to Done, and
    again no entry for the outcome is written. *)
Theorem handle_approval_writes_no_outcome_entry :
  let run := _handle_approval ascii_lower still_clock unreachable MCP_EMAIL_URL
               live_handler in
  (exists w',
      run bad_email_file bad_email_world = Ok tt w'
      /\ files w' !! bad_email_file = files bad_email_world !! bad_email_file
      /\ length (entries "Needs_Action" "ALERT_FAILED" (files w')) = 1%nat
      /\ entries "Logs" "ACTION_FAILED" (files w') = []
      /\ entries "Logs" "" (files w')
         = [folder "Logs" // py "APPROVED_20260101_120000_APPROVE_bad_email.md"]
      /\ sent w' = [])
  /\ (exists w',
      run plain_note_file plain_note_world = Ok tt w'
      /\ files w' !! plain_note_file = None
      /\ files w' !! (folder "Done" // py "note.md")
         = files plain_note_world !! plain_note_file
      /\ entries "Logs" "ACTION_SUCCESS" (files w') = []
      /\ entries "Logs" "" (files w')
         = [folder "Logs" // py "APPROVED_20260101_120000_note.md"]).
Proof.
  intros run. split.
  - apply (run_ok_checked _ _ (fun w' => _ /\ _ /\ _ /\ _ /\ _)).
    vm_compute. reflexivity.
  - apply (run_ok_checked _ _ (fun w' => _ /\ _ /\ _ /\ _)).
    vm_compute. reflexivity.
Qed.

(* ================================================================== *)
(** * The processing set                                                *)
(* ================================================================== *)

(** C6.  An event for a name that the handler holds is dropped: the
    handler object and the world stay as they are.  An event for a record
    whose name is not held takes the name, runs the handling with the
    name held, and gives the name back whether the handling returns or
    raises, so that afterwards the set is as it was before.  While the
    name is held the same event is dropped. *)
Theorem on_created_holds_name_while_handling
    (handle : handler -> Path -> M unit) (self : handler) (ev : event)
    (w : world) :
  let nm := name (src_path ev) in
  (nm ∈ processing self -> on_created handle self ev w = (self, Ok tt w))
  /\ (is_directory ev = false -> suffix (src_path ev) = py ".md" ->
      nm ∉ processing self ->
      let held := processing_add nm self in
      on_created handle self ev w
      = (processing_discard nm held, handle held (src_path ev) w)
      /\ nm ∈ processing held
      /\ on_created handle held ev w = (held, Ok tt w)
      /\ processing (on_created handle self ev w).1 = processing self
      /\ nm ∉ processing (on_created handle self ev w).1).
Proof.
  intros nm. split.
  - intros Hin. unfold on_created. destruct (is_directory ev); [done|].
    destruct (bool_decide (suffix (src_path ev) = py ".md")); [|done].
    cbn [negb]. fold nm. by rewrite bool_decide_eq_true_2.
  - intros Hdir Hsuf Hnot held.
    assert (on_created handle self ev w
            = (processing_discard nm held, handle held (src_path ev) w)) as Hrun.
    { unfold on_created. rewrite Hdir, bool_decide_eq_true_2 by done.
      cbn [negb]. fold nm. by rewrite bool_decide_eq_false_2. }
    assert (nm ∈ processing held) as Hheld.
    { unfold held, processing_add. cbn [processing].
      apply elem_of_union_l. by apply elem_of_singleton. }
    split; [done|]. split; [done|]. split.
    { unfold on_created. rewrite Hdir, bool_decide_eq_true_2 by done.
      cbn [negb]. fold nm. by rewrite bool_decide_eq_true_2. }
    rewrite Hrun. cbn [fst]. unfold processing_discard, held, processing_add.
    cbn [processing]. split.
    + apply set_eq. intros x. rewrite elem_of_difference, elem_of_union,
        elem_of_singleton.
      split; [intros [[->|?] ?]; done|]. intros Hx. split; [by right|].
      by intros ->.
    + rewrite elem_of_difference, elem_of_singleton. by intros [_ ?].
Qed.

Lemma on_created_holds_name_while_handling_witness :
  NeedsActionHandler_on_created still_clock failing_claude
    {| dry_run := false; processing := {[ py "a.md" ]} |}
    {| src_path := folder "Needs_Action" // py "a.md"; is_directory := false |}
    one_task_world
  = ({| dry_run := false; processing := {[ py "a.md" ]} |}, Ok tt one_task_world)
  /\ processing (NeedsActionHandler_on_created still_clock failing_claude
                   live_handler
                   {| src_path := folder "Needs_Action" // py "a.md";
                      is_directory := false |}
                   one_task_world).1
     = ∅.
Proof.
  split.
  - apply (on_created_holds_name_while_handling
             (_handle_new_task still_clock failing_claude)
             {| dry_run := false; processing := {[ py "a.md" ]} |}
             {| src_path := folder "Needs_Action" // py "a.md";
                is_directory := false |} one_task_world).
    reflexivity.
  - apply (on_created_holds_name_while_handling
             (_handle_new_task still_clock failing_claude) live_handler
             {| src_path := folder "Needs_Action" // py "a.md";
                is_directory := false |} one_task_world).
    + reflexivity.
    + reflexivity.
    + intros H. discriminate H.
Defined.

(* ================================================================== *)
(** * What the log shows of the handling of new tasks                    *)
(* ================================================================== *)

Lemma detected_cons_quiet r l : quiet r -> detected (r :: l) = detected l.
Proof. unfold detected, quiet. simpl. by intros ->. Qed.

Lemma detected_cons_new_task nm l :
  detected (LogNewTask nm :: l) = detected l ++ [nm].
Proof. unfold detected. simpl. by rewrite reverse_cons. Qed.

Section UnseenFacts.
Context {A B : Type}.

Lemma unseen_ret (a : A) : unseen (ret a).
Proof. done. Qed.

Lemma unseen_raise e : unseen (raise (A := A) e).
Proof. done. Qed.

Lemma unseen_bind (m : M A) (k : A -> M B) :
  unseen m -> (forall a, unseen (k a)) -> unseen (bind m k).
Proof.
  intros Hm Hk w. unfold bind. specialize (Hm w).
  destruct (m w) as [a w'|e w']; simpl in *; [|done].
  by rewrite Hk.
Qed.

Lemma unseen_try (m h : M A) : unseen m -> unseen h -> unseen (try_except m h).
Proof.
  intros Hm Hh w. unfold try_except. specialize (Hm w).
  destruct (m w) as [a w'|e w']; simpl in *; [done|]. by rewrite Hh.
Qed.
End UnseenFacts.

Lemma unseen_logger r : quiet r -> unseen (logger r).
Proof. intros Hr w. simpl. by apply detected_cons_quiet. Qed.

Lemma unseen_lift_fs op : unseen (lift_fs op).
Proof. intros w. unfold lift_fs. by destruct (op (files w)). Qed.

Lemma unseen_get_files : unseen get_files.
Proof. done. Qed.

Lemma unseen_datetime_now now : unseen (datetime_now now).
Proof. done. Qed.

Lemma unseen_post r : unseen (post r).
Proof. done. Qed.

Lemma unseen_parse_frontmatter p : unseen (parse_frontmatter p).
Proof. intros w. unfold parse_frontmatter. by destruct (read_text p (files w)). Qed.

(** Code built from the operations above, with tests and case
    distinctions in between. *)
Ltac unseen_step :=
  match goal with
  | |- unseen (bind _ _) => apply unseen_bind; [|intros]
  | |- unseen (ret _) => apply unseen_ret
  | |- unseen (raise _) => apply unseen_raise
  | |- unseen (logger _) => apply unseen_logger; reflexivity
  | |- unseen (lift_fs _) => apply unseen_lift_fs
  | |- unseen get_files => apply unseen_get_files
  | |- unseen (datetime_now _) => apply unseen_datetime_now
  | |- unseen (post _) => apply unseen_post
  | |- unseen (parse_frontmatter _) => apply unseen_parse_frontmatter
  | |- unseen (try_except _ _) => apply unseen_try
  | |- unseen (if ?b then _ else _) => destruct b
  | |- unseen (match ?x with _ => _ end) => destruct x
  end.

Ltac unseen_auto := repeat unseen_step.

Section UnseenOrchestrator.
Variable lower : str -> str.
Variable now : nat -> datetime.
Variable claude : Path -> fs -> fs * bool.
Variable urlopen : request -> http_outcome.
Variable mcp_email_url : str.

Lemma unseen_invoke_claude task_file dry : unseen (invoke_claude now claude task_file dry).
Proof.
  unfold invoke_claude. unseen_auto.
  intros w. by destruct (claude task_file (files w)).
Qed.

Lemma unseen_move_file src dest_dir prefix : unseen (move_file src dest_dir prefix).
Proof. unfold move_file. unseen_auto. Qed.

Lemma unseen_move_to_error task_file logs_dir :
  unseen (move_to_error now task_file logs_dir).
Proof. unfold move_to_error. unseen_auto. Qed.

Lemma unseen_log_action_result source_file result action_type details :
  unseen (_log_action_result lower now source_file result action_type details).
Proof. unfold _log_action_result. unseen_auto. Qed.

Lemma unseen_action_send_email approved_file meta dry :
  unseen (_action_send_email lower now urlopen mcp_email_url approved_file meta dry).
Proof.
  unfold _action_send_email.
  repeat first [unseen_step | apply unseen_log_action_result].
Qed.

Lemma unseen_action_placeholder approved_file meta dry :
  unseen (_action_placeholder now approved_file meta dry).
Proof. unfold _action_placeholder. unseen_auto. Qed.

Lemma unseen_dispatch a handler approved_file meta dry :
  dispatch lower now urlopen mcp_email_url !! a = Some handler ->
  unseen (handler approved_file meta dry).
Proof.
  unfold dispatch. intros H. apply elem_of_list_to_map_2 in H.
  repeat (apply elem_of_cons in H as [H|H];
          [injection H as _ ->;
           first [apply unseen_action_send_email
                 |apply unseen_action_placeholder]|]).
  by apply elem_of_nil in H.
Qed.

Lemma unseen_execute_action approved_file meta dry :
  unseen (execute_action lower now urlopen mcp_email_url approved_file meta dry).
Proof.
  unfold execute_action.
  destruct (negb (nonempty (lower (strip (get meta "action_type" []))))).
  - unseen_auto.
  - destruct (dispatch lower now urlopen mcp_email_url !! _) as [handler|] eqn:E.
    + by eapply unseen_dispatch.
    + unseen_auto.
Qed.

Lemma unseen_handle_approval self approved_file :
  unseen (_handle_approval lower now urlopen mcp_email_url self approved_file).
Proof.
  unfold _handle_approval, _log_approval, _create_failure_notification.
  repeat first [unseen_step | apply unseen_execute_action | apply unseen_move_file].
Qed.

Lemma unseen_rejection ev : unseen (RejectionHandler_on_created now ev).
Proof. unfold RejectionHandler_on_created. unseen_auto. Qed.


(** The handling of a new task shows in the log once, under the name of
    the record. *)
Lemma handle_new_task_detected self src w :
  detected (log (world_of (_handle_new_task now claude self src w)))
  = detected (log w) ++ [name src].
Proof.
  unfold _handle_new_task. rewrite bind_logger.
  match goal with
  | |- detected (log (world_of (?m ?w0))) = _ =>
      assert (unseen m) as Hm; [|rewrite Hm]
  end.
  - repeat first [unseen_step | apply unseen_move_file
                 | apply unseen_invoke_claude | apply unseen_move_to_error].
  - cbn [log]. apply detected_cons_new_task.
Qed.
End UnseenOrchestrator.

(* ================================================================== *)
(** * The backlog in ascending order                                    *)
(* ================================================================== *)

Global Instance path_le_total : Total path_le.
Proof.
  intros p q. unfold path_le.
  destruct (trichotomyT lexico p q) as [[?|?]|?]; eauto.
Qed.

Global Instance path_le_trans : Transitive path_le.
Proof.
  intros p q r [->|Hpq] [->|Hqr]; unfold path_le; eauto.
  right. by trans q.
Qed.



Lemma glob_md_elem d f p :
  p ∈ glob_md d f
  <-> is_Some (f !! p) /\ parent p = d /\ p <> []
      /\ endswith (py ".md") (name p) = true.
Proof.
  unfold glob_md. rewrite list_elem_of_filter, list_elem_of_fmap. split.
  - intros [H [[q n] [-> Hq]]]. apply elem_of_map_to_list in Hq.
    split; [by eexists|done].
  - intros [[n Hn] H]. split; [done|]. exists (p, n).
    split; [done|]. by apply elem_of_map_to_list.
Qed.

Lemma sorted_glob_md_elem d f p :
  d <> [] ->
  p ∈ sorted_glob_md d f
  <-> is_Some (f !! p) /\ parent p = d /\ endswith (py ".md") (name p) = true.
Proof.
  intros Hd. unfold sorted_glob_md.
  rewrite (merge_sort_Permutation path_le (glob_md d f)), glob_md_elem.
  split; [intros (? & ? & _ & ?); done|]. intros (? & Hp & ?).
  split; [done|]. split; [done|]. split; [|done]. intros ->. by apply Hd.
Qed.


(* ================================================================== *)
(** * The sweep of the backlog and the live events                      *)
(* ================================================================== *)

Section Startup.
Variable lower : str -> str.
Variable now : nat -> datetime.
Variable claude : Path -> fs -> fs * bool.
Variable urlopen : request -> http_outcome.
Variable mcp_email_url : str.



End Startup.

Section Sweep.
Variable now : nat -> datetime.
Variable claude : Path -> fs -> fs * bool.



End Sweep.




(* ================================================================== *)
(** * The header lines of a document                                    *)
(* ================================================================== *)

Lemma find_char_Some c s i :
  find_char c s = Some i -> s = take i s ++ c :: drop (S i) s /\ c ∉ take i s.
Proof.
  revert i. induction s as [|d s IH]; intros i; simpl; [done|].
  destruct (d =? c) eqn:E.
  - apply N.eqb_eq in E as ->. intros [= <-]. simpl. split; [done|].
    apply not_elem_of_nil.
  - apply N.eqb_neq in E. destruct (find_char c s) as [j|]; [|done].
    intros [= <-]. destruct (IH j eq_refl) as [Hs Hni]. simpl. split.
    + by rewrite <- Hs.
    + intros [->|Hin]%elem_of_cons; [done|]. by apply Hni.
Qed.

(** What a header line that has an entry looks like. *)
Lemma header_entry_Some l k v :
  header_entry l = Some (k, v) ->
  exists k0 r, strip l = k0 ++ COLON :: r /\ (COLON ∉ k0)
               /\ k = strip k0 /\ v = unquote (strip r).
Proof.
  unfold header_entry. destruct (strip l) as [|c s] eqn:El; [done|].
  destruct (c =? HASH); [done|].
  destruct (find_char COLON (c :: s)) as [i|] eqn:Ei; [|done].
  intros [= <- <-]. apply find_char_Some in Ei as [Hs Hni].
  exists (take i (c :: s)), (drop (S i) (c :: s)). by rewrite <- Hs.
Qed.

Lemma header_entry_split l k r :
  strip l = k ++ COLON :: r -> (COLON ∉ k) -> head k <> Some HASH ->
  header_entry l = Some (strip k, unquote (strip r)).
Proof.
  intros Hl Hk Hh. unfold header_entry. rewrite Hl.
  destruct (k ++ COLON :: r) as [|c s] eqn:E; [by destruct k|].
  assert ((c =? HASH) = false) as ->.
  { apply N.eqb_neq. intros ->. destruct k as [|d k]; [done|].
    injection E as -> _. by apply Hh. }
  rewrite <- E, find_char_app by done.
  rewrite take_app_length.
  assert (drop (S (length k)) (k ++ COLON :: r) = r) as ->; [|done].
  rewrite cons_middle, app_assoc. apply drop_app_length'.
  rewrite length_app. simpl. lia.
Qed.

(** A property of bindings that the first mapping has and every header
    entry has holds of the mapping the loop leaves. *)
Lemma header_lines_invariant (P : str -> str -> Prop) ls meta :
  map_Forall P meta ->
  Forall (fun l => forall k v, header_entry l = Some (k, v) -> P k v) ls ->
  map_Forall P (foldl header_line meta ls).
Proof.
  revert meta. induction ls as [|l ls IH]; intros meta Hm Hls; [done|].
  apply Forall_cons in Hls as [Hl Hls]. simpl. apply IH; [|done].
  unfold header_line. destruct (header_entry l) as [[k v]|]; [|done].
  apply map_Forall_insert_2; [by apply Hl|done].
Qed.

Lemma splitlines_no_linebreak s : Forall no_linebreak (splitlines s).
Proof.
  induction s as [s IH] using (induction_ltof1 _ (@length N)).
  unfold ltof in IH. destruct s as [|c s]; [constructor|].
  cbn [splitlines]. destruct (is_linebreak c) eqn:Ec.
  - destruct s as [|d s]; [by repeat constructor|].
    destruct ((c =? CR) && (d =? NL)).
    + constructor; [constructor|]. apply IH. simpl. lia.
    + constructor; [constructor|]. apply IH. simpl. lia.
  - pose proof (IH s ltac:(simpl; lia)) as Hs.
    destruct (splitlines s) as [|l ls].
    + by repeat constructor.
    + apply Forall_cons in Hs as [Hl Hls]. constructor; [|done].
      by constructor.
Qed.

Lemma no_linebreak_sub (s t : str) :
  (forall c, c ∈ t -> c ∈ s) -> no_linebreak s -> no_linebreak t.
Proof.
  unfold no_linebreak. rewrite !Forall_forall. intros Hsub Hs c Hc.
  apply Hs. by apply Hsub.
Qed.

Lemma unquote_elem v x : x ∈ unquote v -> x ∈ v.
Proof.
  unfold unquote. destruct v as [|c rest]; [done|].
  destruct (reverse rest) as [|d mid] eqn:E; [done|].
  destruct ((c =? d) && ((c =? DQUOTE) || (c =? SQUOTE))); [|done].
  intros Hx. rewrite elem_of_reverse in Hx. apply elem_of_cons. right.
  rewrite <- elem_of_reverse, E. apply elem_of_cons. by right.
Qed.

Lemma header_entry_no_linebreak l k v :
  no_linebreak l -> header_entry l = Some (k, v) ->
  no_linebreak k /\ no_linebreak v.
Proof.
  intros Hl (k0 & r & Hs & _ & -> & ->)%header_entry_Some.
  assert (no_linebreak (k0 ++ COLON :: r)) as Hkr.
  { rewrite <- Hs. by eapply no_linebreak_sub; [apply strip_elem|]. }
  apply Forall_app in Hkr as [Hk0 Hr]. apply Forall_cons in Hr as [_ Hr].
  split.
  - by eapply no_linebreak_sub; [apply strip_elem|].
  - eapply no_linebreak_sub; [apply unquote_elem|].
    by eapply no_linebreak_sub; [apply strip_elem|].
Qed.

(** X1.  Every key of the mapping that the parser returns for a text is
    trimmed, holds no colon and no line boundary. *)
Theorem parse_text_keys_clean (text k : str) :
  is_Some (parse_text text !! k) ->
  strip k = k /\ (COLON ∉ k) /\ no_linebreak k.
Proof.
  assert (strip BODY_KEY = BODY_KEY /\ (COLON ∉ BODY_KEY)
          /\ no_linebreak BODY_KEY) as Hbody.
  { split; [done|]. split.
    - apply (bool_decide_unpack _). by vm_compute.
    - apply (bool_decide_unpack _). by vm_compute. }
  intros [v Hv]. unfold parse_text in Hv.
  destruct (Re.frontmatter text) as [[yaml body]|].
  - revert k v Hv.
    apply (header_lines_invariant
             (fun k _ => strip k = k /\ (COLON ∉ k) /\ no_linebreak k)).
    + by apply map_Forall_singleton.
    + pose proof (splitlines_no_linebreak yaml) as Hls.
      eapply Forall_impl; [exact Hls|]. intros l Hl k v Hkv.
      destruct (header_entry_no_linebreak _ _ _ Hl Hkv) as [Hk _].
      apply header_entry_Some in Hkv as (k0 & r & _ & Hk0 & -> & _).
      split; [apply strip_idem|]. split; [|done].
      intros Hin. by apply Hk0, strip_elem.
  - apply lookup_singleton_Some in Hv as [<- _]. exact Hbody.
Qed.

Lemma parse_text_keys_clean_witness :
  is_Some (parse_text untidy_doc !! py "from")
  /\ strip (py "from") = py "from" /\ (COLON ∉ py "from")
  /\ no_linebreak (py "from").
Proof.
  assert (is_Some (parse_text untidy_doc !! py "from")) as H.
  { exists (py "bob"). by vm_compute. }
  split; [exact H|]. exact (parse_text_keys_clean untidy_doc (py "from") H).
Defined.

(** X2.  Every binding of the mapping other than that of the reserved
    key is a single line: its value holds no line boundary. *)
Theorem parse_text_values_single_line (text k v : str) :
  parse_text text !! k = Some v -> k <> BODY_KEY -> no_linebreak v.
Proof.
  intros Hv Hk. unfold parse_text in Hv.
  destruct (Re.frontmatter text) as [[yaml body]|].
  - revert k v Hv Hk.
    apply (header_lines_invariant
             (fun k v => k <> BODY_KEY -> no_linebreak v)).
    + by apply map_Forall_singleton.
    + pose proof (splitlines_no_linebreak yaml) as Hls.
      eapply Forall_impl; [exact Hls|]. intros l Hl k v Hkv _.
      by destruct (header_entry_no_linebreak _ _ _ Hl Hkv).
  - by apply lookup_singleton_Some in Hv as [<- _].
Qed.

Lemma parse_text_values_single_line_witness :
  parse_text untidy_doc !! py "from" = Some (py "bob")
  /\ no_linebreak (py "bob").
Proof.
  assert (parse_text untidy_doc !! py "from" = Some (py "bob")) as H
    by (by vm_compute).
  split; [exact H|].
  apply (parse_text_values_single_line untidy_doc (py "from") (py "bob") H).
  intros E. by apply py_inj in E.
Defined.

Lemma strip_id s :
  (forall c, head s = Some c -> is_space c = false) ->
  (forall d, last s = Some d -> is_space d = false) ->
  strip s = s.
Proof.
  intros Hh Hl. destruct s as [|c s]; [done|].
  destruct s as [|e s _] using rev_ind.
  - apply strip_id_single. by apply Hh.
  - apply strip_id_ends; [by apply Hh|].
    apply Hl. by rewrite app_comm_cons, last_snoc.
Qed.

(** X3.  A header line has an entry exactly when, trimmed, it is not a
    comment and holds a colon; the line is then split at its first colon:
    the key is the text before it, trimmed, and the value is the text
    after it, trimmed and without one pair of matching quotes around it.
    Later colons belong to the value. *)
Theorem header_entry_first_colon (l k v : str) :
  header_entry l = Some (k, v)
  <-> exists k0 r,
        strip l = k0 ++ COLON :: r /\ (COLON ∉ k0) /\ head k0 <> Some HASH
        /\ k = strip k0 /\ v = unquote (strip r).
Proof.
  split.
  - intros H. pose proof H as (k0 & r & Hs & Hk0 & -> & ->)%header_entry_Some.
    exists k0, r. split; [done|]. split; [done|]. split; [|done].
    intros Hh. destruct k0 as [|c k0]; [done|]. injection Hh as ->.
    unfold header_entry in H. rewrite Hs in H. by cbn in H.
  - intros (k0 & r & Hs & Hk0 & Hh & -> & ->). by apply header_entry_split.
Qed.

(** X4.  A value written between two double quotes, or between two single
    quotes, is bound without them and is otherwise left as it is: white
    space and quotes inside the pair are kept. *)
Theorem header_entry_quoted (k v : str) (q : N) :
  q = DQUOTE \/ q = SQUOTE ->
  strip k = k -> (COLON ∉ k) -> head k <> Some HASH ->
  header_entry (k ++ py ": " ++ q :: v ++ [q]) = Some (k, v).
Proof.
  intros Hq Hk Hc Hh.
  assert (is_space q = false) as Hsq by (by destruct Hq as [->| ->]).
  assert (strip (k ++ py ": " ++ q :: v ++ [q])
          = k ++ COLON :: (py " " ++ q :: v ++ [q])) as Hs.
  { apply strip_id.
    - destruct k as [|c k]; [by intros c [= <-]|].
      intros c' [= <-]. by apply (strip_head (c :: k) c k).
    - replace (k ++ COLON :: py " " ++ q :: v ++ [q])
        with ((k ++ COLON :: py " " ++ q :: v) ++ [q])
        by (by rewrite <- !app_assoc).
      rewrite last_snoc. by intros d [= <-]. }
  rewrite (header_entry_split _ k (py " " ++ q :: v ++ [q]) Hs Hc Hh), Hk.
  do 2 f_equal.
  rewrite (strip_spaces_l (py " ") (q :: v ++ [q])) by done.
  rewrite (strip_id_ends q v q) by done.
  unfold unquote. rewrite reverse_snoc, N.eqb_refl, reverse_involutive.
  by destruct Hq as [->| ->].
Qed.

Lemma header_entry_quoted_witness :
  header_entry (py "subject: " ++ DQUOTE :: py " Re: 'hi' " ++ [DQUOTE])
  = Some (py "subject", py " Re: 'hi' ").
Proof.
  apply (header_entry_quoted (py "subject") (py " Re: 'hi' ") DQUOTE).
  - by left.
  - reflexivity.
  - apply (bool_decide_unpack _). by vm_compute.
  - discriminate.
Defined.

(** X5.  In a document with a header block, a key that several header
    lines bind carries the value of the last of them, and a key other
    than the reserved one that no header line binds is absent. *)
Theorem parse_text_lookup (text yaml body k : str) :
  Re.frontmatter text = Some (yaml, body) ->
  (forall ls1 l ls2 v,
      splitlines yaml = ls1 ++ l :: ls2 ->
      header_entry l = Some (k, v) ->
      Forall (fun l => ¬ binds k l) ls2 ->
      parse_text text !! k = Some v)
  /\ (k <> BODY_KEY ->
      Forall (fun l => ¬ binds k l) (splitlines yaml) ->
      parse_text text !! k = None).
Proof.
  intros H. unfold parse_text. rewrite H. split.
  - intros ls1 l ls2 v -> Hl Hls2. by apply header_lines_last.
  - intros Hk Hno. rewrite header_lines_other by done.
    by apply lookup_singleton_ne.
Qed.

(** A document with two header lines for the same key. *)
Lemma parse_text_lookup_witness :
  let doc := py "---" ++ [NL] ++ py "to: a@x.org" ++ [NL]
             ++ py "to: b@x.org" ++ [NL] ++ py "---" ++ [NL] ++ py "Hi" in
  parse_text doc !! py "to" = Some (py "b@x.org")
  /\ parse_text doc !! py "cc" = None.
Proof.
  intros doc.
  destruct (parse_text_lookup doc (py "to: a@x.org" ++ [NL] ++ py "to: b@x.org")
              (py "Hi") (py "to") eq_refl) as [Hlast _].
  destruct (parse_text_lookup doc (py "to: a@x.org" ++ [NL] ++ py "to: b@x.org")
              (py "Hi") (py "cc") eq_refl) as [_ Hnone].
  split.
  - apply (Hlast [py "to: a@x.org"] (py "to: b@x.org") []); [done|done|].
    constructor.
  - apply Hnone; [by intros E%py_inj|].
    apply not_binds_check. vm_compute. reflexivity.
Defined.

(* ================================================================== *)
(** * The stage folders                                                 *)
(* ================================================================== *)

Lemma mkdir_p_folder nm f :
  mkdir_p (folder nm) f
  = match f !! folder nm with
    | Some (File _) => inl FileExistsError
    | Some Dir => inr f
    | None => inr (<[folder nm := Dir]> f)
    end.
Proof.
  unfold mkdir_p, folder. cbn [mkdir_from]. unfold child. cbn [app].
  by destruct (f !! [py nm]) as [[]|].
Qed.

Lemma set_files_id w : set_files (files w) w = w.
Proof. by destruct w. Qed.

Section StageFolders.
Implicit Types (names : list string) (w : world).

(** The loop of [ensure_folders] over any list of names. *)
Local Abbreviation mkdirs names :=
  (foldr (fun nm k => do _ <- lift_fs (mkdir_p (folder nm)); k) (ret tt) names).

Lemma mkdirs_cons nm names w :
  mkdirs (nm :: names) w
  = match files w !! folder nm with
    | Some (File _) => Raise FileExistsError w
    | Some Dir => mkdirs names w
    | None => mkdirs names (set_files (<[folder nm := Dir]> (files w)) w)
    end.
Proof.
  cbn [foldr]. unfold bind at 1. unfold lift_fs. rewrite mkdir_p_folder.
  destruct (files w !! folder nm) as [[]|]; [done| |done].
  by rewrite set_files_id.
Qed.

Lemma mkdirs_world names w :
  let w' := world_of (mkdirs names w) in
  sent w' = sent w /\ log w' = log w /\ ticks w' = ticks w
  /\ (forall p n, files w !! p = Some n -> files w' !! p = Some n)
  /\ (forall p, p ∉ folder <$> names -> files w' !! p = files w !! p).
Proof.
  revert w. induction names as [|nm names IH]; intros w; [done|].
  cbn zeta. rewrite mkdirs_cons.
  destruct (files w !! folder nm) as [[c|]|] eqn:E.
  - done.
  - destruct (IH w) as (? & ? & ? & ? & Hout). repeat (split; [done|]).
    intros p Hp. apply Hout. intros Hin. apply Hp. rewrite fmap_cons.
    apply elem_of_cons. by right.
  - destruct (IH (set_files (<[folder nm := Dir]> (files w)) w))
      as (? & ? & ? & Hkeep & Hout).
    repeat (split; [done|]). split.
    + intros p n Hp. apply Hkeep. cbn [files set_files].
      rewrite lookup_insert_ne; [done|]. intros <-. congruence.
    + intros p Hp. rewrite fmap_cons in Hp. apply not_elem_of_cons in Hp as [? ?].
      rewrite Hout by done. cbn [files set_files]. by rewrite lookup_insert_ne.
Qed.

Lemma mkdirs_Ok names w w' :
  mkdirs names w = Ok tt w' ->
  forall nm, nm ∈ names -> files w' !! folder nm = Some Dir.
Proof.
  revert w. induction names as [|nm names IH]; intros w H nm' Hnm'.
  { by apply elem_of_nil in Hnm'. }
  rewrite mkdirs_cons in H. apply elem_of_cons in Hnm' as [->|Hnm'].
  - destruct (files w !! folder nm) as [[c|]|] eqn:E; [done| |].
    + destruct (mkdirs_world names w) as (_ & _ & _ & Hkeep & _).
      rewrite H in Hkeep. by apply Hkeep.
    + destruct (mkdirs_world names
                  (set_files (<[folder nm := Dir]> (files w)) w))
        as (_ & _ & _ & Hkeep & _).
      rewrite H in Hkeep. apply Hkeep. cbn [files set_files].
      apply lookup_insert_eq.
  - destruct (files w !! folder nm) as [[c|]|]; [done| |]; by eapply IH.
Qed.

Lemma mkdirs_again names w :
  (forall nm, nm ∈ names -> files w !! folder nm = Some Dir) ->
  mkdirs names w = Ok tt w.
Proof.
  induction names as [|nm names IH]; intros H; [done|].
  rewrite mkdirs_cons, (H nm) by (by left).
  apply IH. intros nm' Hnm'. apply H. by right.
Qed.

Lemma mkdirs_succeeds names w :
  (forall nm, nm ∈ names -> forall c, files w !! folder nm <> Some (File c)) ->
  exists w', mkdirs names w = Ok tt w'.
Proof.
  revert w. induction names as [|nm names IH]; intros w H; [by exists w|].
  rewrite mkdirs_cons.
  destruct (files w !! folder nm) as [[c|]|] eqn:E.
  - by destruct (H nm ltac:(by left) c).
  - apply IH. intros nm' Hnm'. apply H. by right.
  - apply IH. intros nm' Hnm' c. cbn [files set_files].
    destruct (decide (folder nm = folder nm')) as [<-|Hne].
    + by rewrite lookup_insert_eq.
    + rewrite lookup_insert_ne by done. apply H. by right.
Qed.

Lemma mkdirs_blocked names w nm c :
  nm ∈ names -> files w !! folder nm = Some (File c) ->
  exists w', mkdirs names w = Raise FileExistsError w'.
Proof.
  revert w. induction names as [|nm' names IH]; intros w Hnm Hf.
  { by apply elem_of_nil in Hnm. }
  rewrite mkdirs_cons.
  destruct (files w !! folder nm') as [[c'|]|] eqn:E; [by eexists| |].
  - apply elem_of_cons in Hnm as [->|Hnm]; [congruence|]. by apply IH.
  - apply elem_of_cons in Hnm as [->|Hnm]; [congruence|]. apply IH; [done|].
    cbn [files set_files]. rewrite lookup_insert_ne; [done|]. congruence.
Qed.

(** X6.  In a vault where none of the eleven folder names is taken by a
    regular file, [ensure_folders] returns; afterwards each of the folders
    is a directory, every other entry of the vault is as before, and no
    request has been issued. *)
Theorem ensure_folders_creates w :
  (forall nm, nm ∈ folder_names ->
              forall c, files w !! folder nm <> Some (File c)) ->
  exists w',
    ensure_folders w = Ok tt w'
    /\ (forall nm, nm ∈ folder_names -> files w' !! folder nm = Some Dir)
    /\ (forall p, p ∉ folder <$> folder_names -> files w' !! p = files w !! p)
    /\ (forall p n, files w !! p = Some n -> files w' !! p = Some n)
    /\ sent w' = sent w /\ log w' = log w.
Proof.
  intros H. destruct (mkdirs_succeeds folder_names w H) as [w' Hw'].
  exists w'. split; [exact Hw'|]. split; [by apply (mkdirs_Ok _ w)|].
  destruct (mkdirs_world folder_names w) as (Hs & Hl & _ & Hkeep & Hout).
  rewrite Hw' in Hs, Hl, Hkeep, Hout. done.
Qed.

Lemma ensure_folders_creates_witness :
  exists w',
    ensure_folders three_tasks_world = Ok tt w'
    /\ files w' !! folder "Logs" = Some Dir
    /\ files w' !! (folder "Needs_Action" // py "a.md")
       = Some (File (Text (py "first"))).
Proof.
  destruct (ensure_folders_creates three_tasks_world)
    as (w' & Hw' & Hdirs & _ & Hkeep & _).
  { intros nm Hnm c.
    repeat (apply elem_of_cons in Hnm as [->|Hnm]; [by vm_compute|]).
    by apply elem_of_nil in Hnm. }
  exists w'. split; [exact Hw'|]. split.
  - apply Hdirs. apply (bool_decide_unpack _). by vm_compute.
  - by apply Hkeep.
Defined.

Lemma mkdirs_first_blocked pre nm post w c :
  (forall nm', nm' ∈ pre -> forall c', files w !! folder nm' <> Some (File c')) ->
  files w !! folder nm = Some (File c) ->
  exists w',
    mkdirs (pre ++ nm :: post) w = Raise FileExistsError w'
    /\ mkdirs pre w = Ok tt w'.
Proof.
  revert w. induction pre as [|a pre IH]; intros w Hpre Hf.
  { exists w. cbn [app]. rewrite mkdirs_cons, Hf. done. }
  cbn [app]. rewrite !mkdirs_cons.
  destruct (files w !! folder a) as [[c'|]|] eqn:E.
  - by destruct (Hpre a ltac:(by left) c').
  - apply IH; [|done]. intros nm' Hnm'. apply Hpre. by right.
  - apply IH.
    + intros nm' Hnm' c'. cbn [files set_files].
      destruct (decide (folder a = folder nm')) as [<-|Hne].
      * by rewrite lookup_insert_eq.
      * rewrite lookup_insert_ne by done. apply Hpre. by right.
    + cbn [files set_files]. rewrite lookup_insert_ne; [done|]. congruence.
Qed.

(** X7.  When a folder name is taken by a regular file and none of the
    names before it in the list is, [ensure_folders] raises
    [FileExistsError] at that name: the folders of the names before it
    are directories afterwards, every entry of the vault other than these
    folders is as before, so that no folder of a later name has been
    made, no entry is lost, and no request has been issued. *)
Theorem ensure_folders_blocked w pre nm post c :
  folder_names = pre ++ nm :: post ->
  (forall nm', nm' ∈ pre -> forall c', files w !! folder nm' <> Some (File c')) ->
  files w !! folder nm = Some (File c) ->
  exists w',
    ensure_folders w = Raise FileExistsError w'
    /\ (forall nm', nm' ∈ pre -> files w' !! folder nm' = Some Dir)
    /\ (forall p, p ∉ folder <$> pre -> files w' !! p = files w !! p)
    /\ (forall p n, files w !! p = Some n -> files w' !! p = Some n)
    /\ sent w' = sent w /\ log w' = log w.
Proof.
  intros Hnames Hpre Hf.
  destruct (mkdirs_first_blocked pre nm post w c Hpre Hf) as (w' & Hraise & Hok).
  exists w'. split; [unfold ensure_folders; by rewrite Hnames|].
  split; [by apply (mkdirs_Ok _ w)|].
  destruct (mkdirs_world pre w) as (Hs & Hl & _ & Hkeep & Hout).
  rewrite Hok in Hs, Hl, Hkeep, Hout. done.
Qed.

Lemma ensure_folders_blocked_witness :
  exists w',
    ensure_folders blocked_world = Raise FileExistsError w'
    /\ files w' !! folder "Needs_Action" = Some Dir
    /\ files w' !! folder "Logs" = Some (File (Text (py "not a folder")))
    /\ files w' !! folder "Briefings" = None.
Proof.
  destruct (ensure_folders_blocked blocked_world
              [ "Needs_Action"; "In_Progress"; "Plans"; "Done";
                "Pending_Approval"; "Approved"; "Rejected"; "Accounting" ]%string
              "Logs" [ "Briefings"; "Updates" ]%string
              (Text (py "not a folder")))
    as (w' & Hw' & Hdirs & Hout & Hkeep & _).
  - reflexivity.
  - intros nm' Hnm' c'.
    repeat (apply elem_of_cons in Hnm' as [->|Hnm']; [by vm_compute|]).
    by apply elem_of_nil in Hnm'.
  - reflexivity.
  - exists w'. split; [exact Hw'|]. split.
    + apply Hdirs. apply (bool_decide_unpack _). by vm_compute.
    + split; [by apply Hkeep|]. rewrite Hout; [reflexivity|].
      apply (bool_decide_unpack _). by vm_compute.
Defined.

(** X8.  [ensure_folders] is idempotent: run in the vault that a run of it
    has left, it returns and changes nothing. *)
Theorem ensure_folders_idempotent w w' :
  ensure_folders w = Ok tt w' -> ensure_folders w' = Ok tt w'.
Proof.
  intros H. apply (mkdirs_again folder_names). by apply (mkdirs_Ok _ w).
Qed.

Lemma ensure_folders_idempotent_witness :
  exists w',
    ensure_folders three_tasks_world = Ok tt w'
    /\ ensure_folders w' = Ok tt w'.
Proof.
  destruct (run_ok_checked ensure_folders three_tasks_world (fun _ => True))
    as (w' & Hw' & _); [vm_compute; reflexivity|].
  exists w'. split; [exact Hw'|].
  exact (ensure_folders_idempotent three_tasks_world w' Hw').
Defined.
End StageFolders.

(* ================================================================== *)
(** * Code that issues no request                                       *)
(* ================================================================== *)

Lemma keeps_sent_raise {A} e : keeps_sent (raise (A := A) e).
Proof. done. Qed.

Lemma keeps_sent_get_files : keeps_sent get_files.
Proof. done. Qed.

Lemma keeps_sent_parse_frontmatter p : keeps_sent (parse_frontmatter p).
Proof. intros w. unfold parse_frontmatter. by destruct (read_text p (files w)). Qed.

Ltac sent_step :=
  match goal with
  | |- keeps_sent (bind _ _) => apply keeps_sent_bind; [|intros]
  | |- keeps_sent (ret _) => apply keeps_sent_ret
  | |- keeps_sent (raise _) => apply keeps_sent_raise
  | |- keeps_sent (logger _) => apply keeps_sent_logger
  | |- keeps_sent (lift_fs _) => apply keeps_sent_lift_fs
  | |- keeps_sent get_files => apply keeps_sent_get_files
  | |- keeps_sent (datetime_now _) => apply keeps_sent_datetime_now
  | |- keeps_sent (parse_frontmatter _) => apply keeps_sent_parse_frontmatter
  | |- keeps_sent (try_except _ _) => apply keeps_sent_try
  | |- keeps_sent (if ?b then _ else _) => destruct b
  | |- keeps_sent (match ?x with _ => _ end) => destruct x
  end.

Ltac sent_auto := repeat sent_step.

Section SentOrchestrator.
Variable lower : str -> str.
Variable now : nat -> datetime.
Variable claude : Path -> fs -> fs * bool.
Variable urlopen : request -> http_outcome.
Variable mcp_email_url : str.

Lemma keeps_sent_invoke_claude task_file dry :
  keeps_sent (invoke_claude now claude task_file dry).
Proof.
  unfold invoke_claude. sent_auto.
  intros w. by destruct (claude task_file (files w)).
Qed.

Lemma keeps_sent_move_file src dest_dir prefix :
  keeps_sent (move_file src dest_dir prefix).
Proof. unfold move_file. sent_auto. Qed.

Lemma keeps_sent_move_to_error task_file logs_dir :
  keeps_sent (move_to_error now task_file logs_dir).
Proof. unfold move_to_error. sent_auto. Qed.

Lemma keeps_sent_action_placeholder approved_file meta dry :
  keeps_sent (_action_placeholder now approved_file meta dry).
Proof. unfold _action_placeholder. sent_auto. Qed.

Lemma keeps_sent_log_approval approved_file :
  keeps_sent (_log_approval now approved_file).
Proof. unfold _log_approval. sent_auto. Qed.

Lemma keeps_sent_create_failure_notification approved_file meta :
  keeps_sent (_create_failure_notification now approved_file meta).
Proof. unfold _create_failure_notification. sent_auto. Qed.

Lemma keeps_sent_handle_new_task self src :
  keeps_sent (_handle_new_task now claude self src).
Proof.
  unfold _handle_new_task.
  repeat first [sent_step | apply keeps_sent_move_file
               | apply keeps_sent_invoke_claude | apply keeps_sent_move_to_error].
Qed.

Lemma keeps_sent_rejection ev : keeps_sent (RejectionHandler_on_created now ev).
Proof. unfold RejectionHandler_on_created. sent_auto. Qed.

Lemma keeps_sent_ensure_folders : keeps_sent ensure_folders.
Proof. unfold ensure_folders, folder_names. cbn [foldr]. sent_auto. Qed.

Lemma keeps_sent_sweep self (ps : list Path) :
  keeps_sent (foldr (fun task_file k =>
                       do _ <- _handle_new_task now claude self task_file; k)
                    (ret tt) ps).
Proof.
  induction ps as [|p ps IH]; cbn [foldr]; [apply keeps_sent_ret|].
  apply keeps_sent_bind; [apply keeps_sent_handle_new_task|]. by intros _.
Qed.

Lemma keeps_sent_process_backlog dry : keeps_sent (process_backlog now claude dry).
Proof.
  unfold process_backlog. apply keeps_sent_bind; [apply keeps_sent_get_files|].
  intros f. destruct (sorted_glob_md (folder "Needs_Action") f) eqn:E.
  - apply keeps_sent_logger.
  - apply keeps_sent_bind; [apply keeps_sent_logger|]. intros _.
    apply keeps_sent_sweep.
Qed.
End SentOrchestrator.

(* ================================================================== *)
(** * The handling of a new task                                        *)
(* ================================================================== *)

(** X9.  In dry-run mode the handling of a record that is a regular file
    never runs the subprocess: whatever the subprocess would do, the
    record is moved into In_Progress, under a name that was free there,
    and stays there; every other entry is as the making of In_Progress
    left it, and no request is issued. *)
Theorem handle_new_task_dry_run now claude self src w c f1 :
  dry_run self = true ->
  files w !! src = Some (File c) ->
  mkdir_p (folder "In_Progress") (files w) = inr f1 ->
  exists dest w',
    _handle_new_task now claude self src w = Ok tt w'
    /\ (forall claude', _handle_new_task now claude' self src w = Ok tt w')
    /\ parent dest = folder "In_Progress"
    /\ f1 !! dest = None
    /\ files w' = <[dest := File c]> (delete src f1)
    /\ sent w' = sent w.
Proof.
  intros Hdry Hsrc Hmk.
  assert (exists_ (files w) src = true) as Hex.
  { destruct src; [done|]. apply bool_decide_eq_true. by rewrite Hsrc. }
  destruct (move_file_spec
              {| files := files w; sent := sent w; ticks := ticks w;
                 log := LogNewTask (name src) :: log w |}
              src (folder "In_Progress") [] c f1 Hsrc Hmk)
    as (dest & Hmove & Hfree & Hpar & _).
  assert (forall claude',
            _handle_new_task now claude' self src w
            = Ok tt {| files := <[dest := File c]> (delete src f1);
                       sent := sent w; ticks := S (ticks w);
                       log := LogRemains (name dest)
                              :: LogMoved (name src) dest
                              :: LogNewTask (name src) :: log w |}) as Hrun.
  { intros claude'. unfold _handle_new_task.
    rewrite bind_logger, bind_get_files. cbn [files]. rewrite Hex. cbn [negb].
    rewrite (bind_Ok _ _ _ _ _ Hmove).
    unfold invoke_claude. rewrite bind_assoc, bind_datetime_now, Hdry.
    rewrite bind_ret, bind_get_files. cbn [files sent ticks log].
    assert (exists_ (<[dest := File c]> (delete src f1)) dest = true) as ->.
    { destruct dest; [done|]. apply bool_decide_eq_true.
      by rewrite lookup_insert_eq. }
    done. }
  eexists dest, _. split; [apply Hrun|]. split; [exact Hrun|]. done.
Qed.

Lemma handle_new_task_dry_run_witness :
  exists dest w',
    _handle_new_task still_clock failing_claude
      {| dry_run := true; processing := ∅ |}
      (folder "Needs_Action" // py "a.md") one_task_world = Ok tt w'
    /\ parent dest = folder "In_Progress"
    /\ files w' !! dest = Some (File (Text (py "new task")))
    /\ sent w' = [].
Proof.
  destruct (handle_new_task_dry_run still_clock failing_claude
              {| dry_run := true; processing := ∅ |}
              (folder "Needs_Action" // py "a.md") one_task_world
              (Text (py "new task")) (files one_task_world)
              eq_refl eq_refl eq_refl)
    as (dest & w' & Hrun & _ & Hpar & _ & Hfiles & Hsent).
  exists dest, w'. split; [exact Hrun|]. split; [exact Hpar|].
  split; [|exact Hsent]. rewrite Hfiles. apply lookup_insert_eq.
Defined.

(** X10.  When the subprocess has succeeded, the handler moves the record
    nowhere: the vault is left as the subprocess left it, whether the
    record is still in In_Progress or not, and no request is issued. *)
Theorem handle_new_task_success now claude self src w ip w1 f2 :
  exists_ (files w) src = true ->
  dry_run self = false ->
  move_file src (folder "In_Progress") []
    {| files := files w; sent := sent w; ticks := ticks w;
       log := LogNewTask (name src) :: log w |} = Ok ip w1 ->
  claude ip (files w1) = (f2, true) ->
  exists w',
    _handle_new_task now claude self src w = Ok tt w'
    /\ files w' = f2 /\ sent w' = sent w.
Proof.
  intros Hex Hdry Hmove Hclaude.
  pose proof (keeps_sent_move_file src (folder "In_Progress") []
                {| files := files w; sent := sent w; ticks := ticks w;
                   log := LogNewTask (name src) :: log w |}) as Hsent.
  rewrite Hmove in Hsent. cbn [world_of sent] in Hsent.
  unfold _handle_new_task. rewrite bind_logger, bind_get_files.
  cbn [files]. rewrite Hex. cbn [negb]. rewrite (bind_Ok _ _ _ _ _ Hmove).
  unfold invoke_claude. rewrite bind_assoc, bind_datetime_now, Hdry.
  unfold bind at 1. cbn [files]. rewrite Hclaude.
  rewrite bind_get_files. cbn [files set_files sent ticks log].
  destruct (exists_ f2 ip); eexists; (split; [reflexivity|done]).
Qed.

Lemma handle_new_task_success_witness :
  exists w',
    _handle_new_task still_clock filing_claude live_handler
      (folder "Needs_Action" // py "a.md") one_task_world = Ok tt w'
    /\ files w' !! (folder "Done" // py "a.md")
       = Some (File (Text (py "new task")))
    /\ files w' !! (folder "In_Progress" // py "a.md") = None
    /\ sent w' = [].
Proof.
  pose (ip := folder "In_Progress" // py "a.md").
  pose (w1 := {| files := <[ip := File (Text (py "new task"))]>
                            (delete (folder "Needs_Action" // py "a.md")
                               (files one_task_world));
                 sent := []; ticks := 0;
                 log := [LogMoved (py "a.md") ip; LogNewTask (py "a.md")] |}).
  destruct (handle_new_task_success still_clock filing_claude live_handler
              (folder "Needs_Action" // py "a.md") one_task_world ip w1
              (<[folder "Done" // py "a.md" := File (Text (py "new task"))]>
                 (delete ip (files w1))))
    as (w' & Hrun & Hfiles & Hsent).
  - reflexivity.
  - reflexivity.
  - vm_compute. reflexivity.
  - vm_compute. reflexivity.
  - exists w'. split; [exact Hrun|]. rewrite Hfiles.
    split; [apply lookup_insert_eq|]. split; [|exact Hsent].
    by vm_compute.
Defined.

(* ================================================================== *)
(** * The outcome of a send-email action                                *)
(* ================================================================== *)


(** X11.  In dry-run mode the send-email executor reads no clock, writes
    no file and issues no request, whatever the directive is: it writes
    one record to the logger and returns [True] exactly when the
    directive passes the validation and the address of the server passes
    the test for a loopback address. *)
Theorem send_email_dry_run_only_logs lower now urlopen url approved_file meta w :
  exists r,
    _action_send_email lower now urlopen url approved_file meta true w
    = Ok (email_valid meta && loopback_only url)
         {| files := files w; sent := sent w; ticks := ticks w;
            log := r :: log w |}.
Proof.
  destruct (email_valid meta && loopback_only url) eqn:E.
  - apply andb_true_iff in E as [Hv Hl]. eexists.
    by apply send_email_dry_run.
  - by apply send_email_refused.
Qed.



(* ================================================================== *)
(** * The approval handler, further                                     *)
(* ================================================================== *)



Lemma bind_try_parse {B : Type} (p : Path) (h : M (gmap str str))
    (k : gmap str str -> M B) (w : world) (c : content) :
  files w !! p = Some (File c) ->
  bind (try_except (parse_frontmatter p) h) k w
  = match c with
    | Text s => k (parse_text (universal_newlines s)) w
    | Undecodable => bind h k w
    end.
Proof.
  intros H. unfold bind, try_except, parse_frontmatter, read_text. rewrite H.
  by destruct c.
Qed.



(* ================================================================== *)
(** * The rejection handler                                             *)
(* ================================================================== *)



(* ================================================================== *)
(** * The requests of the orchestrator                                   *)
(* ================================================================== *)

Section SendsOnly.
Context {A B : Type}.
Implicit Types (ok : request -> Prop).

Lemma sends_only_keeps ok (m : M A) : keeps_sent m -> sends_only ok m.
Proof. intros H w. left. apply H. Qed.

Lemma sends_only_mono ok ok' (m : M A) :
  (forall r, ok r -> ok' r) -> sends_only ok m -> sends_only ok' m.
Proof.
  intros Himp H w. destruct (H w) as [?|(r & ? & ?)]; [by left|right].
  exists r. split; [by apply Himp|done].
Qed.

Lemma sends_only_bind_l ok (m : M A) (k : A -> M B) :
  keeps_sent m -> (forall a, sends_only ok (k a)) -> sends_only ok (bind m k).
Proof.
  intros Hm Hk w. unfold bind. specialize (Hm w).
  destruct (m w) as [a w'|e w']; cbn [world_of] in *; [|by left].
  rewrite <- Hm. apply Hk.
Qed.

Lemma sends_only_bind_r ok (m : M A) (k : A -> M B) :
  sends_only ok m -> (forall a, keeps_sent (k a)) -> sends_only ok (bind m k).
Proof.
  intros Hm Hk w. unfold bind. specialize (Hm w).
  destruct (m w) as [a w'|e w']; cbn [world_of] in *; [|done].
  destruct Hm as [Hm|(r & Hr & Hm)]; [left|right; exists r; split; [done|]];
    by rewrite Hk.
Qed.
End SendsOnly.

Section Requests.
Variable lower : str -> str.
Variable now : nat -> datetime.
Variable claude : Path -> fs -> fs * bool.
Variable urlopen : request -> http_outcome.
Variable mcp_email_url : str.

(** The requests that an approval may issue: the payload of a directive
    that passes the validation, when the address of the server passes
    the test and the handler is not in dry-run mode. *)
Lemma sends_only_send_email approved_file meta dry :
  sends_only (fun r => r = email_payload mcp_email_url meta
                       /\ email_valid meta = true
                       /\ loopback_only mcp_email_url = true /\ dry = false)
    (_action_send_email lower now urlopen mcp_email_url approved_file meta dry).
Proof.
  intros w. destruct (email_valid meta && loopback_only mcp_email_url) eqn:E.
  - apply andb_true_iff in E as [Hv Hl]. destruct dry.
    + left. by rewrite send_email_dry_run.
    + right. eexists. split; [done|]. by apply send_email_after_post.
  - left.
    destruct (send_email_refused lower now urlopen mcp_email_url approved_file
                meta dry w E) as [r ->].
    done.
Qed.

Lemma sends_only_execute_action approved_file meta dry :
  sends_only (fun r => r = email_payload mcp_email_url meta
                       /\ email_valid meta = true
                       /\ loopback_only mcp_email_url = true /\ dry = false
                       /\ normalized_action_type lower meta = py "send_email")
    (execute_action lower now urlopen mcp_email_url approved_file meta dry).
Proof.
  unfold execute_action. fold (normalized_action_type lower meta).
  destruct (negb (nonempty (normalized_action_type lower meta))).
  { apply sends_only_keeps. sent_auto. }
  destruct (dispatch lower now urlopen mcp_email_url !! _) as [handler|] eqn:E.
  - unfold dispatch in E. apply elem_of_list_to_map_2 in E.
    apply elem_of_cons in E as [E|E].
    { injection E as Ha ->. eapply sends_only_mono;
        [|apply sends_only_send_email]. intros r (? & ? & ? & ?). by rewrite Ha. }
    repeat (apply elem_of_cons in E as [E|E];
            [injection E as _ ->; apply sends_only_keeps,
               keeps_sent_action_placeholder|]).
    by apply elem_of_nil in E.
  - apply sends_only_keeps. sent_auto.
Qed.

Lemma sends_only_handle_approval self approved_file :
  sends_only (fun r => dry_run self = false
                       /\ loopback_only mcp_email_url = true
                       /\ exists meta,
                            email_valid meta = true
                            /\ normalized_action_type lower meta = py "send_email"
                            /\ r = email_payload mcp_email_url meta)
    (_handle_approval lower now urlopen mcp_email_url self approved_file).
Proof.
  unfold _handle_approval.
  apply sends_only_bind_l; [apply keeps_sent_logger|]. intros _.
  apply sends_only_bind_l; [apply keeps_sent_get_files|]. intros f.
  destruct (negb (exists_ f approved_file)).
  { apply sends_only_keeps, keeps_sent_logger. }
  apply sends_only_bind_l; [apply keeps_sent_log_approval|]. intros _.
  apply sends_only_bind_l; [sent_auto|]. intros meta.
  apply sends_only_bind_r.
  - destruct (nonempty _).
    + eapply sends_only_mono; [|apply sends_only_execute_action].
      intros r (-> & ? & ? & ? & ?). split; [done|]. split; [done|].
      by exists meta.
    + apply sends_only_keeps, keeps_sent_ret.
  - intros success.
    repeat first [sent_step | apply keeps_sent_move_file
                 | apply keeps_sent_create_failure_notification].
Qed.
(** What the approval handler does once it has the mapping of the
    record. *)
Lemma sends_only_after_parse self approved_file meta :
  sends_only (fun r => dry_run self = false
                       /\ loopback_only mcp_email_url = true
                       /\ email_valid meta = true
                       /\ normalized_action_type lower meta = py "send_email"
                       /\ r = email_payload mcp_email_url meta)
    (let action_type := lower (strip (get meta "action_type" [])) in
     do success <-
       (if nonempty action_type then
          execute_action lower now urlopen mcp_email_url approved_file meta
            (dry_run self)
        else ret true);
     do f <- get_files;
     if success && exists_ f approved_file then
       do _ <- move_file approved_file (folder "Done") [];
       ret tt
     else if negb success && exists_ f approved_file then
       do _ <- logger LogStaysForRetry;
       _create_failure_notification now approved_file meta
     else ret tt).
Proof.
  cbv zeta. apply sends_only_bind_r.
  - destruct (nonempty _).
    + eapply sends_only_mono; [|apply sends_only_execute_action].
      intros r (-> & ? & ? & ? & ?). done.
    + apply sends_only_keeps, keeps_sent_ret.
  - intros success.
    repeat first [sent_step | apply keeps_sent_move_file
                 | apply keeps_sent_create_failure_notification].
Qed.

Lemma log_approval_frame approved_file w w1 :
  _log_approval now approved_file w = Ok tt w1 ->
  forall q, parent q <> folder "Logs" -> files w1 !! q = files w !! q.
Proof.
  unfold _log_approval. rewrite bind_datetime_now. unfold lift_fs, write_text.
  cbn [files]. destruct (negb _); [done|].
  match goal with
  | |- context [files w !! ?lf] => set (log_file := lf)
  end.
  assert (parent log_file = folder "Logs") as Hlf
    by (unfold log_file; apply parent_child).
  destruct (files w !! log_file) as [[c|]|]; [|done|].
  - intros [= <-] q Hq. cbn [files set_files].
    rewrite lookup_insert_ne; [done|]. intros <-. by apply Hq.
  - intros [= <-] q Hq. cbn [files set_files].
    rewrite lookup_insert_ne; [done|]. intros <-. by apply Hq.
Qed.

Lemma bind_try_parse_absent {B : Type} (p : Path) (h : M (gmap str str))
    (k : gmap str str -> M B) (w : world) :
  files w !! p = None \/ files w !! p = Some Dir ->
  bind (try_except (parse_frontmatter p) h) k w = bind h k w.
Proof.
  unfold bind, try_except, parse_frontmatter, read_text.
  by intros [-> | ->].
Qed.

(** The requests of the handling of an approved record: none, or the
    payload of the mapping of the record as the vault holds it. *)
Lemma handle_approval_record self approved_file w :
  parent approved_file = folder "Approved" ->
  let r := _handle_approval lower now urlopen mcp_email_url self approved_file w in
  sent (world_of r) = sent w
  \/ (dry_run self = false /\ loopback_only mcp_email_url = true
      /\ exists c,
           files w !! approved_file = Some (File c)
           /\ email_valid (approved_meta c) = true
           /\ normalized_action_type lower (approved_meta c) = py "send_email"
           /\ sent (world_of r)
              = email_payload mcp_email_url (approved_meta c) :: sent w).
Proof.
  intros Hpar r. subst r. unfold _handle_approval.
  rewrite bind_logger, bind_get_files. cbn [files].
  destruct (exists_ (files w) approved_file); cbn [negb]; [|by left].
  match goal with
  | |- context [bind (_log_approval now approved_file) _ ?w0] =>
      remember w0 as w_0 eqn:Ew0
  end.
  assert (sent w_0 = sent w /\ files w_0 = files w) as [Hs0 Hf0] by (by subst w_0).
  clear Ew0.
  pose proof (keeps_sent_log_approval now approved_file w_0) as Hs1.
  destruct (_log_approval now approved_file w_0) as [[] w1|e w1] eqn:Elog;
    cbn [world_of] in Hs1.
  2:{ rewrite (bind_Raise _ _ _ _ _ Elog). left. cbn [world_of]. congruence. }
  rewrite (bind_Ok _ _ _ _ _ Elog).
  assert (files w1 !! approved_file = files w !! approved_file) as Hrec.
  { rewrite <- Hf0. apply (log_approval_frame _ _ _ Elog).
    rewrite Hpar. unfold folder. by intros [= E]. }
  assert (forall meta w2,
            sent w2 = sent w ->
            (meta = ∅ \/ exists c, files w !! approved_file = Some (File c)
                                   /\ meta = approved_meta c) ->
            forall o,
              o = (let action_type := lower (strip (get meta "action_type" [])) in
                   do success <-
                     (if nonempty action_type then
                        execute_action lower now urlopen mcp_email_url
                          approved_file meta (dry_run self)
                      else ret true);
                   do f <- get_files;
                   if success && exists_ f approved_file then
                     do _ <- move_file approved_file (folder "Done") [];
                     ret tt
                   else if negb success && exists_ f approved_file then
                     do _ <- logger LogStaysForRetry;
                     _create_failure_notification now approved_file meta
                   else ret tt) w2 ->
              sent (world_of o) = sent w
              \/ (dry_run self = false /\ loopback_only mcp_email_url = true
                  /\ exists c,
                       files w !! approved_file = Some (File c)
                       /\ email_valid (approved_meta c) = true
                       /\ normalized_action_type lower (approved_meta c)
                          = py "send_email"
                       /\ sent (world_of o)
                          = email_payload mcp_email_url (approved_meta c)
                            :: sent w)) as Hrest.
  { intros meta w2 Hs2 Hmeta o ->.
    destruct (sends_only_after_parse self approved_file meta w2)
      as [H|(r & (Hd & Hl & Hv & Ha & ->) & H)].
    - left. by rewrite <- Hs2.
    - right. split; [done|]. split; [done|].
      destruct Hmeta as [-> |(c & Hc & ->)]; [by vm_compute in Hv|].
      exists c. rewrite <- Hs2. done. }
  destruct (files w !! approved_file) as [[[s|]|]|] eqn:Hf.
  - rewrite (bind_try_parse _ _ _ _ (Text s)) by done.
    eapply Hrest; [|right; by exists (Text s)|reflexivity]. congruence.
  - rewrite (bind_try_parse _ _ _ _ Undecodable) by done.
    rewrite bind_assoc, bind_logger, bind_ret.
    eapply Hrest; [|by left|reflexivity]. cbn [sent]. congruence.
  - rewrite bind_try_parse_absent by (by right).
    rewrite bind_assoc, bind_logger, bind_ret.
    eapply Hrest; [|by left|reflexivity]. cbn [sent]. congruence.
  - rewrite bind_try_parse_absent by (by left).
    rewrite bind_assoc, bind_logger, bind_ret.
    eapply Hrest; [|by left|reflexivity]. cbn [sent]. congruence.
Qed.
End Requests.

(** X15.  The approval handler issues at most one request for a record
    of the folder Approved.  It issues one only outside dry-run mode,
    when the address of the server holds 127.0.0.1 or localhost, and when
    the record is a file whose mapping (the one of the parser, or the
    empty one when the file cannot be decoded) passes the validation and
    has the action type send_email, trimmed and in lower case; the
    request is the payload of the mapping of that record. *)
Theorem handle_approval_requests lower now urlopen url self approved_file w :
  parent approved_file = folder "Approved" ->
  let r := _handle_approval lower now urlopen url self approved_file w in
  sent (world_of r) = sent w
  \/ (dry_run self = false /\ loopback_only url = true
      /\ exists c,
           files w !! approved_file = Some (File c)
           /\ email_valid (approved_meta c) = true
           /\ normalized_action_type lower (approved_meta c) = py "send_email"
           /\ sent (world_of r) = email_payload url (approved_meta c) :: sent w).
Proof. apply handle_approval_record. Qed.

Lemma handle_approval_requests_witness :
  exists c,
    files alice_world !! alice_file = Some (File c)
    /\ sent (world_of (_handle_approval ascii_lower still_clock unreachable
                         MCP_EMAIL_URL live_handler alice_file alice_world))
       = [email_payload MCP_EMAIL_URL (approved_meta c)].
Proof.
  destruct (handle_approval_requests ascii_lower still_clock unreachable
              MCP_EMAIL_URL live_handler alice_file alice_world eq_refl)
    as [H|(_ & _ & c & Hc & _ & _ & H)].
  - exfalso. revert H. apply (bool_decide_unpack _). by vm_compute.
  - exists c. split; [exact Hc|exact H].
Defined.

(* ================================================================== *)
(** * The observer                                                      *)
(* ================================================================== *)

Lemma on_created_cases handle self ev w :
  let nm := name (src_path ev) in
  (on_created handle self ev w = (self, Ok tt w)
   /\ (ignored_event ev \/ nm ∈ processing self))
  \/ (is_directory ev = false /\ suffix (src_path ev) = py ".md"
      /\ (nm ∉ processing self)
      /\ on_created handle self ev w
         = (processing_discard nm (processing_add nm self),
            handle (processing_add nm self) (src_path ev) w)).
Proof.
  intros nm. unfold on_created, ignored_event.
  destruct (is_directory ev); [left; split; [done|by left; left]|].
  destruct (decide (suffix (src_path ev) = py ".md")) as [Hmd|Hmd].
  - rewrite bool_decide_true by done. cbn [negb].
    destruct (decide (nm ∈ processing self)) as [Hin|Hin].
    + rewrite bool_decide_true by done. left. split; [done|by right].
    + rewrite bool_decide_false by done. by right.
  - rewrite bool_decide_false by done. left. split; [done|by left; right].
Qed.

Lemma filter_length_cons {A} (P : A -> Prop) `{!forall x, Decision (P x)} x l :
  (length (filter P l) <= length (filter P (x :: l)))%nat.
Proof. rewrite filter_cons. destruct (decide (P x)); simpl; lia. Qed.

Global Instance approved_event_dec ev : Decision (approved_event ev).
Proof. unfold approved_event. apply _. Defined.

Global Instance task_event_dec ev : Decision (task_event ev).
Proof. unfold task_event. apply _. Defined.

Section Observer.
Variable lower : str -> str.
Variable now : nat -> datetime.
Variable claude : Path -> fs -> fs * bool.
Variable urlopen : request -> http_outcome.
Variable mcp_email_url : str.

Local Abbreviation observe :=
  (observer lower now claude urlopen mcp_email_url).

(** The requests issued while the events are handled: at most one for
    each event of the folder Approved. *)
Lemma observer_requests needs_handler approval_handler events w :
  exists l,
    sent (world_of (observe needs_handler approval_handler events w))
    = l ++ sent w
    /\ (length l <= length (filter approved_event events))%nat
    /\ Forall (approval_request lower mcp_email_url (dry_run approval_handler)) l.
Proof.
  revert needs_handler approval_handler w.
  induction events as [|ev events IH]; intros needs_handler approval_handler w.
  { exists []. by repeat split. }
  cbn [observer].
  destruct (bool_decide (parent (src_path ev) = folder "Needs_Action")) eqn:E1.
  { apply bool_decide_eq_true in E1.
    unfold NeedsActionHandler_on_created.
    destruct (on_created_cases (_handle_new_task now claude) needs_handler ev w)
      as [[-> _]|(_ & _ & _ & ->)].
    - destruct (IH needs_handler approval_handler w) as (l & ? & ? & ?).
      exists l. split; [done|]. split; [|done].
      etrans; [done|apply filter_length_cons].
    - pose proof (keeps_sent_handle_new_task now claude
                    (processing_add (name (src_path ev)) needs_handler)
                    (src_path ev) w) as Hs.
      destruct (_handle_new_task now claude _ (src_path ev) w) as [[] w1|e w1];
        cbn [world_of] in Hs.
      + destruct (IH (processing_discard (name (src_path ev))
                        (processing_add (name (src_path ev)) needs_handler))
                     approval_handler w1) as (l & Hl & ? & ?).
        exists l. rewrite Hl, Hs. split; [done|]. split; [|done].
        etrans; [done|apply filter_length_cons].
      + exists []. split; [done|]. split; [simpl; lia|constructor]. }
  destruct (bool_decide (parent (src_path ev) = folder "Approved")) eqn:E2.
  { apply bool_decide_eq_true in E2.
    unfold ApprovalHandler_on_created.
    rewrite filter_cons_True by done. cbn [length].
    destruct (on_created_cases
                (_handle_approval lower now urlopen mcp_email_url)
                approval_handler ev w) as [[-> _]|(_ & _ & _ & ->)].
    - destruct (IH needs_handler approval_handler w) as (l & ? & ? & ?).
      exists l. split; [done|]. split; [lia|done].
    - pose proof (sends_only_handle_approval lower now urlopen mcp_email_url
                    (processing_add (name (src_path ev)) approval_handler)
                    (src_path ev) w) as Hs.
      destruct (_handle_approval lower now urlopen mcp_email_url _
                  (src_path ev) w) as [[] w1|e w1]; cbn [world_of] in Hs.
      + destruct (IH needs_handler
                     (processing_discard (name (src_path ev))
                        (processing_add (name (src_path ev)) approval_handler))
                     w1) as (l & Hl & ? & ?).
        destruct Hs as [Hs|(r & Hr & Hs)].
        * exists l. rewrite Hl, Hs. split; [done|]. split; [lia|done].
        * exists (l ++ [r]). rewrite Hl, Hs, <- app_assoc. split; [done|].
          split; [rewrite length_app; simpl; lia|].
          apply Forall_app. split; [done|]. constructor; [exact Hr|constructor].
      + destruct Hs as [Hs|(r & Hr & Hs)].
        * exists []. split; [done|]. split; [simpl; lia|constructor].
        * exists [r]. split; [done|]. split; [simpl; lia|].
          constructor; [exact Hr|constructor]. }
  assert (forall w1,
            exists l,
              sent (world_of (observe needs_handler approval_handler events w1))
              = l ++ sent w1
              /\ (length l <= length (filter approved_event (ev :: events)))%nat
              /\ Forall (approval_request lower mcp_email_url
                           (dry_run approval_handler)) l) as IH'.
  { intros w1. destruct (IH needs_handler approval_handler w1) as (l & ? & ? & ?).
    exists l. split; [done|]. split; [|done].
    etrans; [done|apply filter_length_cons]. }
  destruct (bool_decide (parent (src_path ev) = folder "Rejected")); [|apply IH'].
  pose proof (keeps_sent_rejection now ev w) as Hs.
  destruct (RejectionHandler_on_created now ev w) as [[] w1|e w1];
    cbn [world_of] in Hs.
  - destruct (IH' w1) as (l & Hl & ? & ?). exists l. by rewrite Hl, Hs.
  - exists []. split; [done|]. split; [simpl; lia|constructor].
Qed.

(** X18.  The three handlers ignore every event for a directory and
    every event for a file whose suffix is not [.md] (in this spelling):
    each handler returns at once, with its object (the flag and the set
    of names held) and the world as they were.  A run of such events
    therefore changes nothing: the events that follow are handled by the
    same handlers in the same world. *)
Theorem observer_ignores_other_events needs_handler approval_handler events w :
  Forall ignored_event events ->
  (forall ev w1,
      ev ∈ events ->
      NeedsActionHandler_on_created now claude needs_handler ev w1
      = (needs_handler, Ok tt w1)
      /\ ApprovalHandler_on_created lower now urlopen mcp_email_url
           approval_handler ev w1
         = (approval_handler, Ok tt w1)
      /\ RejectionHandler_on_created now ev w1 = Ok tt w1)
  /\ (forall rest,
        observe needs_handler approval_handler (events ++ rest) w
        = observe needs_handler approval_handler rest w).
Proof.
  intros Hall.
  assert (forall ev w1,
            ignored_event ev ->
            (forall handle self, on_created handle self ev w1 = (self, Ok tt w1))
            /\ RejectionHandler_on_created now ev w1 = Ok tt w1) as Hskip.
  { intros ev w1 Hev. split.
    - intros handle self. unfold on_created.
      destruct Hev as [-> |Hmd]; [done|]. destruct (is_directory ev); [done|].
      by rewrite bool_decide_false.
    - unfold RejectionHandler_on_created.
      destruct Hev as [-> |Hmd]; [done|]. destruct (is_directory ev); [done|].
      by rewrite bool_decide_false. }
  split.
  - intros ev w1 Hev. rewrite Forall_forall in Hall.
    destruct (Hskip ev w1 (Hall ev Hev)) as [Hon Hrej].
    unfold NeedsActionHandler_on_created, ApprovalHandler_on_created.
    by rewrite !Hon.
  - intros rest. induction Hall as [|ev events Hev _ IH]; [done|].
    cbn [app observer]. destruct (Hskip ev w Hev) as [Hon Hrej].
    unfold NeedsActionHandler_on_created, ApprovalHandler_on_created.
    rewrite !Hon, Hrej. by repeat destruct (bool_decide _).
Qed.

(** X19.  When the events are handled one after the other and no handling
    raises, the guard against duplicate events drops none of them: with
    no name held at the start, every markdown file that arrives in
    Needs_Action is handled, once for each of its events and in the order
    of arrival. *)
Theorem observer_handles_every_task needs_handler approval_handler events w w' :
  processing needs_handler = ∅ ->
  observe needs_handler approval_handler events w = Ok tt w' ->
  detected (log w')
  = detected (log w) ++ ((fun ev => name (src_path ev)) <$> filter task_event events).
Proof.
  revert needs_handler approval_handler w.
  induction events as [|ev events IH]; intros needs_handler approval_handler w Hnh.
  { intros [= <-]. by rewrite app_nil_r. }
  cbn [observer].
  destruct (bool_decide (parent (src_path ev) = folder "Needs_Action")) eqn:E1.
  { apply bool_decide_eq_true in E1.
    unfold NeedsActionHandler_on_created.
    destruct (on_created_cases (_handle_new_task now claude) needs_handler ev w)
      as [[-> Hign]|(Hfile & Hmd & _ & ->)].
    - rewrite filter_cons_False; [by apply IH|].
      intros (_ & Hf & Hm). destruct Hign as [[Hd|Hs]|Hin].
      + congruence.
      + done.
      + rewrite Hnh in Hin. by apply not_elem_of_empty in Hin.
    - rewrite filter_cons_True by done. rewrite fmap_cons.
      pose proof (handle_new_task_detected now claude
                    (processing_add (name (src_path ev)) needs_handler)
                    (src_path ev) w) as Hp.
      destruct (_handle_new_task now claude _ (src_path ev) w) as [[] w1|e w1];
        [|done].
      cbn [world_of] in Hp. intros Hrun. apply IH in Hrun.
      + rewrite Hrun, Hp. by rewrite <- app_assoc.
      + cbn [processing processing_discard processing_add]. rewrite Hnh.
        by rewrite (right_id_L ∅ (∪)), difference_diag_L. }
  rewrite filter_cons_False
    by (intros (Hp & _); by apply bool_decide_eq_false_1 in E1).
  destruct (bool_decide (parent (src_path ev) = folder "Approved")).
  { unfold ApprovalHandler_on_created.
    destruct (on_created_cases
                (_handle_approval lower now urlopen mcp_email_url)
                approval_handler ev w) as [[-> _]|(_ & _ & _ & ->)].
    - by apply IH.
    - pose proof (unseen_handle_approval lower now urlopen mcp_email_url
                    (processing_add (name (src_path ev)) approval_handler)
                    (src_path ev) w) as Hp.
      destruct (_handle_approval lower now urlopen mcp_email_url _
                  (src_path ev) w) as [[] w1|e w1]; [|done].
      cbn [world_of] in Hp. intros Hrun. apply IH in Hrun; [|done].
      by rewrite Hrun, Hp. }
  destruct (bool_decide (parent (src_path ev) = folder "Rejected")).
  { pose proof (unseen_rejection now ev w) as Hp.
    destruct (RejectionHandler_on_created now ev w) as [[] w1|e w1]; [|done].
    cbn [world_of] in Hp. intros Hrun. apply IH in Hrun; [|done].
    by rewrite Hrun, Hp. }
  by apply IH.
Qed.
End Observer.


Lemma observer_ignores_other_events_witness :
  NeedsActionHandler_on_created still_clock failing_claude live_handler
    {| src_path := folder "Needs_Action" // py "attachments";
       is_directory := true |} three_tasks_world
  = (live_handler, Ok tt three_tasks_world)
  /\ observer ascii_lower still_clock failing_claude unreachable MCP_EMAIL_URL
       live_handler live_handler
       ([ {| src_path := folder "Needs_Action" // py "attachments";
             is_directory := true |};
          created (folder "Needs_Action" // py "notes.txt");
          created (folder "Approved" // py "REPLY.MD") ] ++ [])
       three_tasks_world
     = Ok tt three_tasks_world.
Proof.
  destruct (observer_ignores_other_events ascii_lower still_clock
              failing_claude unreachable MCP_EMAIL_URL live_handler
              live_handler
              [ {| src_path := folder "Needs_Action" // py "attachments";
                   is_directory := true |};
                created (folder "Needs_Action" // py "notes.txt");
                created (folder "Approved" // py "REPLY.MD") ]
              three_tasks_world) as [Hone Hrun].
  - constructor; [by left|].
    constructor; [right; intros E; by vm_compute in E|].
    constructor; [right; intros E; by vm_compute in E|constructor].
  - split.
    + apply Hone. by left.
    + apply Hrun.
Defined.

Lemma observer_handles_every_task_witness :
  exists w',
    observer ascii_lower still_clock failing_claude unreachable MCP_EMAIL_URL
      live_handler live_handler
      [ created (folder "Needs_Action" // py "a.md");
        created (folder "Needs_Action" // py "notes.txt");
        created (folder "Needs_Action" // py "a.md") ]
      one_task_world = Ok tt w'
    /\ detected (log w') = [py "a.md"; py "a.md"].
Proof.
  destruct (run_ok_checked
              (observer ascii_lower still_clock failing_claude unreachable
                 MCP_EMAIL_URL live_handler live_handler
                 [ created (folder "Needs_Action" // py "a.md");
                   created (folder "Needs_Action" // py "notes.txt");
                   created (folder "Needs_Action" // py "a.md") ])
              one_task_world (fun _ => True))
    as (w' & Hrun & _); [vm_compute; reflexivity|].
  exists w'. split; [exact Hrun|].
  rewrite (observer_handles_every_task ascii_lower still_clock failing_claude
             unreachable MCP_EMAIL_URL live_handler live_handler _
             one_task_world w' eq_refl Hrun).
  vm_compute. reflexivity.
Defined.

(* ================================================================== *)
(** * The requests of a run of the orchestrator                          *)
(* ================================================================== *)

(** A run of [main] comes to the handling of the events in a world with
    the requests of the start, unless startup raises. *)
Lemma main_observer lower now claude urlopen url a events w :
  exists w1,
    sent w1 = sent w
    /\ (main lower now claude urlopen url a events w
        = observer lower now claude urlopen url
            {| dry_run := arg_dry_run a; processing := ∅ |}
            {| dry_run := arg_dry_run a; processing := ∅ |} events w1
        \/ exists e, main lower now claude urlopen url a events w = Raise e w1).
Proof.
  unfold main.
  pose proof (keeps_sent_ensure_folders w) as H0.
  destruct (ensure_folders w) as [[] w0|e w0] eqn:E0; cbn [world_of] in H0.
  - rewrite (bind_Ok _ _ _ _ _ E0).
    assert (keeps_sent (if arg_skip_backlog a then ret tt
                        else process_backlog now claude (arg_dry_run a))) as Hk.
    { destruct (arg_skip_backlog a);
        [apply keeps_sent_ret|apply keeps_sent_process_backlog]. }
    specialize (Hk w0).
    destruct ((if arg_skip_backlog a then ret tt
               else process_backlog now claude (arg_dry_run a)) w0)
      as [[] w1|e w1] eqn:E1; cbn [world_of] in Hk.
    + rewrite (bind_Ok _ _ _ _ _ E1). exists w1. split; [congruence|by left].
    + rewrite (bind_Raise _ _ _ _ _ E1). exists w1.
      split; [congruence|right; by exists e].
  - rewrite (bind_Raise _ _ _ _ _ E0). exists w0. split; [done|right; by exists e].
Qed.

(** The handling of one event that is not for the folder Approved issues
    no request. *)
Lemma observer_other_event lower now claude urlopen url needs_handler
    approval_handler ev w :
  ¬ approved_event ev ->
  sent (world_of (observer lower now claude urlopen url needs_handler
                    approval_handler [ev] w)) = sent w.
Proof.
  intros Hev. cbn [observer].
  destruct (bool_decide (parent (src_path ev) = folder "Needs_Action")).
  { unfold NeedsActionHandler_on_created.
    destruct (on_created_cases (_handle_new_task now claude) needs_handler ev w)
      as [[-> _]|(_ & _ & _ & ->)]; [done|].
    pose proof (keeps_sent_handle_new_task now claude
                  (processing_add (name (src_path ev)) needs_handler)
                  (src_path ev) w) as Hs.
    by destruct (_handle_new_task now claude _ (src_path ev) w). }
  rewrite (bool_decide_false _ Hev).
  destruct (bool_decide (parent (src_path ev) = folder "Rejected")); [|done].
  pose proof (keeps_sent_rejection now ev w) as Hs.
  by destruct (RejectionHandler_on_created now ev w).
Qed.

(** The handling of one event for the folder Approved issues at most one
    request, the payload of the mapping of the record of the event. *)
Lemma observer_approved_event lower now claude urlopen url needs_handler
    approval_handler ev w :
  approved_event ev ->
  let r := observer lower now claude urlopen url needs_handler
             approval_handler [ev] w in
  sent (world_of r) = sent w
  \/ (dry_run approval_handler = false /\ loopback_only url = true
      /\ exists c,
           files w !! src_path ev = Some (File c)
           /\ email_valid (approved_meta c) = true
           /\ normalized_action_type lower (approved_meta c) = py "send_email"
           /\ sent (world_of r) = email_payload url (approved_meta c) :: sent w).
Proof.
  intros Hev r. subst r. unfold approved_event in Hev. cbn [observer].
  rewrite Hev. rewrite bool_decide_false by (by intros [= E]).
  rewrite bool_decide_true by done.
  unfold ApprovalHandler_on_created.
  destruct (on_created_cases (_handle_approval lower now urlopen url)
              approval_handler ev w) as [[-> _]|(_ & _ & _ & ->)]; [by left|].
  pose proof (handle_approval_record lower now urlopen url
                (processing_add (name (src_path ev)) approval_handler)
                (src_path ev) w Hev) as Hrec.
  cbv zeta in Hrec. cbn [dry_run processing_add] in Hrec.
  by destruct (_handle_approval lower now urlopen url _ (src_path ev) w).
Qed.

(** X16.  The requests of a run of the orchestrator.  Startup, the
    making of the folders and the sweep of the backlog, issues none.  The
    handling of an event that is not for the folder Approved issues
    none.  The handling of an event for the folder Approved issues at
    most one, and it issues one only outside dry-run mode, when the
    address of the server holds 127.0.0.1 or localhost, and when the
    record of the event is a file whose mapping passes the validation
    and has the action type send_email; the request is the payload of
    the mapping of that record.  In the whole run there are at most as
    many requests as events for the folder Approved. *)
Theorem main_requests lower now claude urlopen url a events w :
  sent (world_of (main lower now claude urlopen url a [] w)) = sent w
  /\ (forall needs_handler approval_handler ev w1,
        ¬ approved_event ev ->
        sent (world_of (observer lower now claude urlopen url needs_handler
                          approval_handler [ev] w1)) = sent w1)
  /\ (forall needs_handler approval_handler ev w1,
        approved_event ev ->
        let r := observer lower now claude urlopen url needs_handler
                   approval_handler [ev] w1 in
        sent (world_of r) = sent w1
        \/ (dry_run approval_handler = false /\ loopback_only url = true
            /\ exists c,
                 files w1 !! src_path ev = Some (File c)
                 /\ email_valid (approved_meta c) = true
                 /\ normalized_action_type lower (approved_meta c)
                    = py "send_email"
                 /\ sent (world_of r)
                    = email_payload url (approved_meta c) :: sent w1))
  /\ exists l,
      sent (world_of (main lower now claude urlopen url a events w))
      = l ++ sent w
      /\ (length l <= length (filter approved_event events))%nat
      /\ Forall (approval_request lower url (arg_dry_run a)) l.
Proof.
  split.
  { destruct (main_observer lower now claude urlopen url a [] w)
      as (w1 & Hs & [-> |[e ->]]); done. }
  split; [intros; by apply observer_other_event|].
  split; [intros; by apply observer_approved_event|].
  destruct (main_observer lower now claude urlopen url a events w)
    as (w1 & Hs & [-> |[e ->]]).
  - destruct (observer_requests lower now claude urlopen url
                {| dry_run := arg_dry_run a; processing := ∅ |}
                {| dry_run := arg_dry_run a; processing := ∅ |} events w1)
      as (l & Hl & ? & ?).
    exists l. by rewrite Hl, Hs.
  - exists []. split; [done|]. split; [simpl; lia|constructor].
Qed.

Lemma main_requests_witness :
  sent (world_of (observer ascii_lower still_clock failing_claude unreachable
                    MCP_EMAIL_URL live_handler live_handler
                    [created (folder "Needs_Action" // py "a.md")]
                    three_tasks_world)) = []
  /\ exists c,
       files alice_world !! alice_file = Some (File c)
       /\ sent (world_of (observer ascii_lower still_clock failing_claude
                            unreachable MCP_EMAIL_URL live_handler live_handler
                            [created alice_file] alice_world))
          = [email_payload MCP_EMAIL_URL (approved_meta c)].
Proof.
  destruct (main_requests ascii_lower still_clock failing_claude unreachable
              MCP_EMAIL_URL with_sweep [] alice_world)
    as (_ & Hother & Happroved & _).
  split.
  - apply Hother. intros E. by vm_compute in E.
  - destruct (Happroved live_handler live_handler (created alice_file)
                alice_world eq_refl) as [H|(_ & _ & c & Hc & _ & _ & H)].
    + exfalso. revert H. apply (bool_decide_unpack _). by vm_compute.
    + exists c. split; [exact Hc|exact H].
Defined.

(** X17.  A run of the orchestrator issues no request at all when it is
    in dry-run mode, when the address of the server does not pass the
    loopback test, or when no event is for the folder Approved. *)
Theorem main_sends_nothing lower now claude urlopen url a events w :
  arg_dry_run a = true \/ loopback_only url = false
  \/ Forall (fun ev => ¬ approved_event ev) events ->
  sent (world_of (main lower now claude urlopen url a events w)) = sent w.
Proof.
  intros Hwhy.
  destruct (main_observer lower now claude urlopen url a events w)
    as (w1 & Hs & [-> |[e ->]]); [|done].
  destruct (observer_requests lower now claude urlopen url
              {| dry_run := arg_dry_run a; processing := ∅ |}
              {| dry_run := arg_dry_run a; processing := ∅ |} events w1)
    as (l & Hl & Hlen & Hall).
  rewrite Hl, Hs. destruct l as [|r l]; [done|].
  apply Forall_cons in Hall as [(Hdry & Hloop & _) _]. cbn [dry_run] in Hdry.
  destruct Hwhy as [Hd|[Hlb|Hnone]]; [congruence|congruence|].
  assert (filter approved_event events = []) as Hf.
  { clear -Hnone. induction Hnone as [|ev events Hev _ IH]; [done|].
    by rewrite filter_cons_False. }
  rewrite Hf in Hlen. simpl in Hlen. lia.
Qed.

Lemma main_sends_nothing_witness :
  sent (world_of (main ascii_lower still_clock failing_claude unreachable
                    MCP_EMAIL_URL dry_args [created alice_file] alice_world))
  = [].
Proof.
  apply (main_sends_nothing ascii_lower still_clock failing_claude unreachable
           MCP_EMAIL_URL dry_args [created alice_file] alice_world).
  by left.
Defined.

(* ================================================================== *)
(** * The names that the sweep and the live handlers select             *)
(* ================================================================== *)

Lemma rfind_char_None c s : rfind_char c s = None <-> c ∉ s.
Proof.
  induction s as [|d s IH]; simpl.
  - split; [intros _; apply not_elem_of_nil|done].
  - destruct (rfind_char c s) as [i|].
    + split; [done|]. intros Hni. exfalso.
      assert (c ∉ s) as Hs by (intros ?; apply Hni; by right).
      by apply IH in Hs.
    + destruct (d =? c) eqn:E.
      * apply N.eqb_eq in E as ->. split; [done|]. intros Hni.
        exfalso. apply Hni. by left.
      * apply N.eqb_neq in E. split; [|done]. intros _.
        intros [->|Hin]%elem_of_cons; [done|]. by apply IH in Hin.
Qed.

Lemma rfind_char_last c s r :
  c ∉ r -> rfind_char c (s ++ c :: r) = Some (length s).
Proof.
  intros Hr. induction s as [|d s IH]; simpl.
  - apply rfind_char_None in Hr as ->. by rewrite N.eqb_refl.
  - by rewrite IH.
Qed.

Lemma endswith_app suf s : endswith suf s = true <-> exists t, s = t ++ suf.
Proof.
  unfold endswith. rewrite startswith_prefix. split.
  - intros [t Ht]. exists (reverse t). apply (inj reverse).
    by rewrite Ht, reverse_app, reverse_involutive.
  - intros [t ->]. exists (reverse t). by rewrite reverse_app.
Qed.

Lemma suffix_md (p : Path) :
  suffix p = py ".md"
  <-> endswith (py ".md") (name p) = true /\ name p <> py ".md".
Proof.
  unfold suffix, suffix_idx. split.
  - destruct (rfind_char DOT (name p)) as [i|] eqn:Ei; [|done].
    destruct (bool_decide _) eqn:Eb; [|done].
    apply bool_decide_eq_true in Eb. intros Hd.
    assert (name p = take i (name p) ++ py ".md") as Hn.
    { by rewrite <- Hd, take_drop. }
    split; [apply endswith_app; by eexists|].
    intros E. apply (f_equal length) in Hd. rewrite length_drop, E in Hd.
    simpl in Hd. lia.
  - intros [[t Ht]%endswith_app Hne]. rewrite Ht.
    change (t ++ py ".md") with (t ++ DOT :: py "md").
    rewrite rfind_char_last by (by apply (bool_decide_unpack _)).
    destruct t as [|c t]; [by rewrite Ht in Hne|].
    rewrite bool_decide_true by (rewrite length_app; simpl; lia).
    by rewrite drop_app_length.
Qed.

(** X23.  The sweep of the backlog selects the entries of Needs_Action
    with the pattern [*.md]: an entry is swept exactly when its name ends
    in [.md], whether it is a file or a directory.  The handlers of live
    events test the kind of the entry and the suffix of its name: the
    event of an entry is handled exactly when the entry is a regular
    file whose name ends in [.md] and is not [.md] itself.  So every
    entry whose event is handled is swept, and the sweep takes two kinds
    of entries more, whose events the handlers ignore: a directory whose
    name ends in [.md], and an entry whose whole name is [.md]. *)
Theorem backlog_and_live_selection (d : Path) (f : fs) (p : Path) :
  d <> [] -> is_Some (f !! p) -> parent p = d ->
  (p ∈ sorted_glob_md d f <-> endswith (py ".md") (name p) = true)
  /\ (¬ ignored_event (event_of f p)
      <-> (exists c, f !! p = Some (File c))
          /\ endswith (py ".md") (name p) = true /\ name p <> py ".md")
  /\ (¬ ignored_event (event_of f p) -> p ∈ sorted_glob_md d f)
  /\ (p ∈ sorted_glob_md d f -> ignored_event (event_of f p) ->
      f !! p = Some Dir \/ name p = py ".md").
Proof.
  intros Hd Hp Hpar.
  assert (p ∈ sorted_glob_md d f <-> endswith (py ".md") (name p) = true) as Hsweep.
  { rewrite sorted_glob_md_elem by done. tauto. }
  assert (¬ ignored_event (event_of f p)
          <-> (exists c, f !! p = Some (File c))
              /\ endswith (py ".md") (name p) = true /\ name p <> py ".md")
    as Hlive.
  { unfold ignored_event, event_of. cbn [is_directory src_path].
    rewrite <- suffix_md. destruct Hp as [[c|] Hn]; rewrite Hn.
    - rewrite bool_decide_false by done. split.
      + intros H. split; [by exists c|].
        destruct (decide (suffix p = py ".md")); [done|]. destruct H. by right.
      + intros [_ Hs] [?|?]; done.
    - rewrite bool_decide_true by done. split.
      + intros H. destruct H. by left.
      + by intros [[c ?] _]. }
  split; [exact Hsweep|]. split; [exact Hlive|]. split.
  - intros H. apply Hsweep. apply Hlive in H. tauto.
  - intros Hin Hign. apply Hsweep in Hin.
    destruct (decide (name p = py ".md")) as [?|Hne]; [by right|left].
    destruct Hp as [[c|] Hn]; [|done]. destruct Hlive as [_ Hl].
    destruct Hl; [|done]. split; [by exists c|done].
Qed.

Lemma backlog_and_live_selection_witness :
  (bundle_dir ∈ sorted_glob_md (folder "Needs_Action") (files bundle_world)
   /\ ignored_event (event_of (files bundle_world) bundle_dir)
   /\ NeedsActionHandler_on_created still_clock failing_claude live_handler
        (event_of (files bundle_world) bundle_dir) bundle_world
      = (live_handler, Ok tt bundle_world))
  /\ (bare_md_file ∈ sorted_glob_md (folder "Needs_Action") (files bare_md_world)
      /\ ignored_event (event_of (files bare_md_world) bare_md_file)
      /\ NeedsActionHandler_on_created still_clock failing_claude live_handler
           (event_of (files bare_md_world) bare_md_file) bare_md_world
         = (live_handler, Ok tt bare_md_world)).
Proof.
  split.
  - destruct (backlog_and_live_selection (folder "Needs_Action")
                (files bundle_world) bundle_dir)
      as (Hsel & _); [done|by eexists|reflexivity|].
    split; [by apply Hsel|]. split; [by left|reflexivity].
  - destruct (backlog_and_live_selection (folder "Needs_Action")
                (files bare_md_world) bare_md_file)
      as (Hsel & _); [done|by eexists|reflexivity|].
    split; [by apply Hsel|]. split; [right; intros E; by vm_compute in E|].
    reflexivity.
Defined.

(* ================================================================== *)
(** * Documents written by the orchestrator, read back                  *)
(* ================================================================== *)










Global Instance written_key_dec k : Decision (written_key k).
Proof. unfold written_key, no_linebreak. apply _. Defined.









